(** * High-collision-risk predictor: the feature pipeline, embedded and verified

    A shallow embedding of the geometry helpers ([src/utils/geo.py]), the
    dataset cleaners ([src/data/clean.py]) and the segment-year feature
    builder ([src/features/build.py]).

    Conventions of the embedding:
    - a pandas cell that may be NaN / NaT / None is an [option];
    - integer columns are [Z]; float values (coordinates, buffer distances,
      the quantile threshold) are exact rationals [Q];
    - a Python exception is the [Err] branch of [result];
    - the geometry engine (buffer, intersects, coordinate transformation) and
      the date parser are external libraries: they are parameters of the
      functions that call them. *)

From Stdlib Require Import List ZArith QArith Qround String Bool Lia Lqa Arith.
From Stdlib Require Import Permutation Sorted.
Import ListNotations.
Open Scope Z_scope.

(** ** Table primitives shared by the modules *)

Module Frame.

(** Keys of a [groupby] / [sort_values]: an equality test and an order. *)
Class Key (K : Type) := { keqb : K -> K -> bool; kleb : K -> K -> bool }.

#[export] Instance Key_Z : Key Z := {| keqb := Z.eqb; kleb := Z.leb |}.

#[export] Instance Key_nat : Key nat := {| keqb := Nat.eqb; kleb := Nat.leb |}.

(** Lexicographic order of a two-column key. *)
#[export] Instance Key_pair {A B} `{Key A} `{Key B} : Key (A * B) :=
  {| keqb := fun a b => keqb (fst a) (fst b) && keqb (snd a) (snd b);
     kleb := fun a b =>
       if keqb (fst a) (fst b) then kleb (snd a) (snd b) else kleb (fst a) (fst b) |}.

Section Sorting.
Context {A : Type} (leb : A -> A -> bool).

Fixpoint insert_by (x : A) (l : list A) : list A :=
  match l with
  | [] => [x]
  | h :: t => if leb x h then x :: h :: t else h :: insert_by x t
  end.

(** A stable sort: equal elements keep their relative order. *)
Definition sort_by (l : list A) : list A := fold_right insert_by [] l.
End Sorting.

Section Grouping.
Context {A K : Type} `{Key K}.

(** First occurrences, in order of appearance. *)
Fixpoint distinct (l : list K) : list K :=
  match l with
  | [] => []
  | x :: t => x :: filter (fun y => negb (keqb x y)) (distinct t)
  end.

Definition has_key (key : A -> option K) (k : K) (r : A) : bool :=
  match key r with Some k' => keqb k k' | None => false end.

Definition present_keys (key : A -> option K) (rows : list A) : list K :=
  flat_map (fun r => match key r with Some k => [k] | None => [] end) rows.

(** [rows.groupby(key)] with the pandas defaults [sort=True, dropna=True]:
    one group per observed key, keys ascending, rows of a group in table
    order; a row whose key is missing belongs to no group. *)
Definition groupby (key : A -> option K) (rows : list A) : list (K * list A) :=
  map (fun k => (k, filter (has_key key k) rows))
      (sort_by kleb (distinct (present_keys key rows))).

(** First entry of an association list. *)
Fixpoint lookup {V} (k : K) (l : list (K * V)) : option V :=
  match l with
  | [] => None
  | (k', v) :: t => if keqb k k' then Some v else lookup k t
  end.

(** [rows.groupby(key)[val].shift(1)], row by row in table order: the value
    of the previous row of the same group, missing for the first one.
    [last] holds, most recent first, the rows already passed. *)
Fixpoint group_shift {V} (key : A -> K) (val : A -> V) (last : list (K * V))
         (rows : list A) : list (option V) :=
  match rows with
  | [] => []
  | r :: t => lookup (key r) last :: group_shift key val ((key r, val r) :: last) t
  end.
End Grouping.

(** [left.merge(right, how="left")] on a key match: left order is kept, a
    left row is repeated once per matching right row, and is kept with
    missing right columns when nothing matches. *)
Definition merge_left {L R O} (on : L -> R -> bool) (join : L -> option R -> O)
           (left : list L) (right : list R) : list O :=
  flat_map (fun l => match filter (on l) right with
                     | [] => [join l None]
                     | ms => map (fun r => join l (Some r)) ms
                     end) left.

(** [drop_duplicates(subset=key)], keeping the first row of each key; missing
    keys compare equal to each other, as in pandas. *)
Fixpoint drop_duplicates {R K} `{Key K} (key : R -> option K) (rows : list R) : list R :=
  match rows with
  | [] => []
  | r :: t =>
      r :: filter (fun r' => negb (match key r, key r' with
                                   | Some a, Some b => keqb a b
                                   | None, None => true
                                   | _, _ => false
                                   end)) (drop_duplicates key t)
  end.

Definition fillna {V} (d : V) (c : option V) : V :=
  match c with Some v => v | None => d end.

(** [sum()] of a numeric column, missing cells skipped. *)
Definition sum_skipna (l : list (option Z)) : Z :=
  fold_right (fun c acc => fillna 0 c + acc) 0 l.

(** [Series.quantile(q)] with the default linear interpolation: on the sorted
    values the position [h = (n-1) q] is split into its floor and fraction
    and the two neighbours are interpolated, here in exact rationals.
    Missing (NaN) on an empty series. *)
Definition quantile (xs : list Z) (q : Q) : option Q :=
  match xs with
  | [] => None
  | _ =>
      let s := sort_by Z.leb xs in
      let n := Z.of_nat (List.length s) in
      let h := (inject_Z (n - 1) * q)%Q in
      let lo := Qfloor h in
      let hi := Z.min (lo + 1) (n - 1) in
      let frac := (h - inject_Z lo)%Q in
      let a := nth (Z.to_nat lo) s 0 in
      let b := nth (Z.to_nat hi) s 0 in
      Some (inject_Z a + frac * inject_Z (b - a))%Q
  end.

End Frame.

(** ** [src/utils/geo.py] *)

Module Geo.
Import Frame.

Definition CRS := string.

(** Default CRS used for project (Ottawa): NAD83 / UTM 18N. *)
Definition DEFAULT_CRS : CRS := "EPSG:26918"%string.
Definition WGS84 : CRS := "EPSG:4326"%string.

Inductive error :=
| ValueError (msg : string)
| KeyError (col : string)
| TypeError (msg : string).

Inductive result (A : Type) :=
| Ok (a : A)
| Err (e : error).
Arguments Ok {A} a.
Arguments Err {A} e.

Definition bind {A B} (m : result A) (f : A -> result B) : result B :=
  match m with Ok a => f a | Err e => Err e end.

Notation "x <- m ;; k" := (bind m (fun x => k))
  (at level 61, m at next level, right associativity).

(** Calendar fields of a parsed timestamp, as the [.dt] accessors read them. *)
Record Timestamp := mkTimestamp {
  ts_year : Z; ts_month : Z; ts_day : Z; ts_hour : Z; ts_minute : Z; ts_second : Z }.

(** A table cell. [NA] stands for NaN, NaT, None and pd.NA alike. *)
Inductive cell :=
| NA
| Int (z : Z)
| Float (q : Q)
| Str (s : string)
| Stamp (t : Timestamp).

Definition Row := string -> cell.

Record DataFrame := mkDataFrame { columns : list string; rows : list Row }.

Record Point := mkPoint { x : Q; y : Q }.

(** A table with a geometry column of type [G] and a declared frame. *)
Record GeoDataFrame (G : Type) := mkGeoDataFrame {
  gcolumns : list string;
  grows : list (Row * G);
  crs : option CRS }.
Arguments mkGeoDataFrame {G}.
Arguments gcolumns {G}.
Arguments grows {G}.
Arguments crs {G}.

Definition isna (c : cell) : bool := match c with NA => true | _ => false end.

Definition mem (c : string) (cols : list string) : bool := existsb (String.eqb c) cols.

Definition has_column (df : DataFrame) (c : string) : bool := mem c (columns df).

(** [df[c] = f(row)]: overwrite the column, or append it when it is new. *)
Definition set_cell (r : Row) (c : string) (v : cell) : Row :=
  fun c' => if String.eqb c' c then v else r c'.

Definition set_column (df : DataFrame) (c : string) (f : Row -> cell) : DataFrame :=
  {| columns := if has_column df c then columns df else columns df ++ [c];
     rows := map (fun r => set_cell r c (f r)) (rows df) |}.

(** The number a numeric cell holds. *)
Definition as_float (c : cell) : option Q :=
  match c with
  | Int z => Some (inject_Z z)
  | Float q => Some q
  | _ => None
  end.

Definition missing_coords (lon_col lat_col : string) (r : Row) : bool :=
  isna (r lon_col) || isna (r lat_col).

Section Points.
(** Python's [float] on a text, which is how [np.asarray(., dtype="float64")]
    reads the text cells of a column: the number, or nothing where it
    raises. *)
Variable float_of_text : string -> option Q.

(** One cell as the conversion to float64 reads it: a number is kept and a
    text is read as a number; a text that is no number raises a ValueError
    and a timestamp a TypeError.  [df_to_points] drops the rows with a
    missing coordinate before the conversion, so a missing cell is never
    converted there; of the missing values, [pd.NA] raises the TypeError
    below (a NaN would stay a NaN, which a [Point] here cannot hold). *)
Definition as_coordinate (c : cell) : result Q :=
  match c with
  | Int z => Ok (inject_Z z)
  | Float q => Ok q
  | Str s =>
      match float_of_text s with
      | Some q => Ok q
      | None =>
          Err (ValueError (String.append "could not convert string to float: '"
                                         (String.append s "'")))
      end
  | Stamp _ =>
      Err (TypeError "float() argument must be a string or a real number, not 'Timestamp'")
  | NA =>
      Err (TypeError "float() argument must be a string or a real number, not 'NAType'")
  end.

Fixpoint as_floats (cs : list cell) : result (list Q) :=
  match cs with
  | [] => Ok []
  | c :: cs' => q <- as_coordinate c ;; qs <- as_floats cs' ;; Ok (q :: qs)
  end.

(** [gpd.points_from_xy]: the two columns are converted to float64, [x]
    first, and one point is made of each pair. *)
Definition points_from_xy (xs ys : list cell) : result (list Point) :=
  px <- as_floats xs ;;
  py <- as_floats ys ;;
  Ok (map (fun xy => mkPoint (fst xy) (snd xy)) (combine px py)).

(** Convert lon/lat columns to a GeoDataFrame with given CRS. *)
Definition df_to_points (df : DataFrame) (lon_col lat_col : string) (crs : CRS)
  : result (GeoDataFrame Point) :=
  if negb (has_column df lon_col) then Err (KeyError lon_col)
  else if negb (has_column df lat_col) then Err (KeyError lat_col)
  else
    let kept := filter (fun r => negb (missing_coords lon_col lat_col r)) (rows df) in
    geometry <- points_from_xy (map (fun r => r lon_col) kept)
                               (map (fun r => r lat_col) kept) ;;
    Ok {| gcolumns := columns df; grows := combine kept geometry; crs := Some crs |}.
End Points.

Section Projection.
Context {G : Type}.
(** The coordinate transformation of the projection library, from one
    frame to another. *)
Variable transform : CRS -> CRS -> G -> G.

Definition to_crs (src : CRS) (gdf : GeoDataFrame G) (target : CRS) : GeoDataFrame G :=
  {| gcolumns := gcolumns gdf;
     grows := map (fun rg => (fst rg, transform src target (snd rg))) (grows gdf);
     crs := Some target |}.

(** Project geometries to the project CRS if needed.  Frames are compared
    by their identifier; the projection library's own notion of equal
    frames (two spellings of one frame) is not modelled. *)
Definition to_projected (gdf : GeoDataFrame G) (target : CRS) : result (GeoDataFrame G) :=
  match crs gdf with
  | None => Err (ValueError "GeoDataFrame missing CRS; cannot project")
  | Some c => if String.eqb c target then Ok gdf else Ok (to_crs c gdf target)
  end.
End Projection.

Inductive join_how := how_left | how_inner.

Section SpatialJoin.
Context {P G : Type}.
(** The geometry engine: the [intersects] predicate between a point-side
    and a line-side geometry, and [buffer] by a distance. *)
Variable intersects : P -> G -> bool.
Variable buffer : G -> Q -> G.

(** Row of the join for a matched line: the left columns, [index_right]
    and the right columns. *)
Definition joined_row (rcols : list string) (l : Row) (m : option (nat * Row)) : Row :=
  fun c =>
    if String.eqb c "index_right" then
      match m with Some (i, _) => Int (Z.of_nat i) | None => NA end
    else if mem c rcols then
      match m with Some (_, r) => r c | None => NA end
    else l c.

Definition matches (p : P) (lines : GeoDataFrame G) : list (nat * (Row * G)) :=
  filter (fun il => intersects p (snd (snd il)))
         (combine (seq 0 (List.length (grows lines))) (grows lines)).

(** [gpd.sjoin(points, lines, how, predicate="intersects")]: one output row
    per intersecting (point, line) pair, in point order; with [how_left] a
    point with no match is kept once, its right columns missing. *)
Definition sjoin (points : GeoDataFrame P) (lines : GeoDataFrame G) (how : join_how)
  : GeoDataFrame P :=
  {| gcolumns := gcolumns points ++ "index_right"%string :: gcolumns lines;
     grows :=
       flat_map (fun pr =>
         match matches (snd pr) lines with
         | [] => match how with
                 | how_left => [(joined_row (gcolumns lines) (fst pr) None, snd pr)]
                 | how_inner => []
                 end
         | ms => map (fun il => (joined_row (gcolumns lines) (fst pr)
                                            (Some (fst il, fst (snd il))), snd pr)) ms
         end) (grows points);
     crs := crs points |}.

Definition crs_eqb (a b : option CRS) : bool :=
  match a, b with
  | Some c, Some d => String.eqb c d
  | None, None => true
  | _, _ => false
  end.

(** Python truthiness of an optional float: [None] and [0.0] are false. *)
Definition truthy (b : option Q) : bool :=
  match b with Some q => negb (Qeq_bool q 0) | None => false end.

Definition gt0 (b : option Q) : bool :=
  match b with Some q => negb (Qle_bool q 0) | None => false end.

Definition buffer_lines (lines : GeoDataFrame G) (b : Q) : GeoDataFrame G :=
  {| gcolumns := gcolumns lines;
     grows := map (fun rg => (fst rg, buffer (snd rg) b)) (grows lines);
     crs := crs lines |}.

(** Join points (e.g., collisions) to nearest line segments with optional
    buffer. *)
Definition spatial_join_points_to_lines (points : GeoDataFrame P) (lines : GeoDataFrame G)
           (buffer_m : option Q) (how : join_how) : result (GeoDataFrame P) :=
  if negb (crs_eqb (crs points) (crs lines)) then
    Err (ValueError "points and lines must share CRS before joining")
  else
    let buffered :=
      if truthy buffer_m && gt0 buffer_m
      then buffer_lines lines (fillna 0%Q buffer_m)
      else lines in
    Ok (sjoin points buffered how).

(** Number of matched (point, line) pairs of a join output. *)
Definition match_count (out : GeoDataFrame P) : nat :=
  List.length (filter (fun rg => negb (isna (fst rg "index_right"%string))) (grows out)).
End SpatialJoin.

End Geo.

(** ** [src/data/spatial_join.py] *)

Module SpatialJoin.
Import Frame Geo.

Section Join.
Context {P G : Type}.
Variable intersects : P -> G -> bool.
Variable buffer : G -> Q -> G.

(** [roads[[road_id, "geometry"]]]: only the identifier and the geometry. *)
Definition select_id (roads : GeoDataFrame G) (road_id : string) : result (GeoDataFrame G) :=
  if negb (mem road_id (gcolumns roads)) then Err (KeyError road_id)
  else Ok {| gcolumns := [road_id];
             grows := map (fun rg => ((fun c => if String.eqb c road_id
                                                then fst rg c else NA), snd rg))
                          (grows roads);
             crs := crs roads |}.

Definition collisions_to_segments (collisions : GeoDataFrame P) (roads : GeoDataFrame G)
           (road_id : string) (buffer_m : option Q) : result (GeoDataFrame P) :=
  lines <- select_id roads road_id ;;
  spatial_join_points_to_lines intersects buffer collisions lines buffer_m how_left.
End Join.

End SpatialJoin.

(** ** [src/data/clean.py] *)

Module Clean.
Import Frame Geo.

Section Cleaners.
(** [pd.to_datetime(., errors="coerce")] on one cell: a timestamp, or
    nothing (NaT) when the value cannot be parsed. *)
Variable to_datetime : cell -> option Timestamp.
(** [.dt.dayofweek], Monday = 0. *)
Variable dayofweek : Timestamp -> Z.
(** [pd.to_numeric(., errors="coerce")] on a text cell. *)
Variable parse_number : string -> cell.
(** [.astype("string").str.strip().str.upper()] on one cell. *)
Variable strip_upper : cell -> cell.
(** Reprojection of a point between two frames. *)
Variable transform : CRS -> CRS -> Point -> Point.
(** Python's [float] on a text (see [Geo.as_coordinate]). *)
Variable float_of_text : string -> option Q.

Definition datetime_cell (c : cell) : cell :=
  match to_datetime c with Some t => Stamp t | None => NA end.

Definition dt (f : Timestamp -> Z) (c : cell) : cell :=
  match c with Stamp t => Int (f t) | _ => NA end.

Definition to_numeric (c : cell) : cell :=
  match c with
  | Int z => Int z
  | Float q => Float q
  | Str s => parse_number s
  | _ => NA
  end.

(** [.fillna(0).astype(int)]: missing becomes 0, a float is truncated
    towards zero. *)
Definition fillna0_int (c : cell) : cell :=
  match c with
  | Int z => Int z
  | Float q => Int (if Qle_bool 0 q then Qfloor q else Qceiling q)
  | NA => Int 0
  | other => other
  end.

Definition normalize_if_present (df : DataFrame) (col : string) : DataFrame :=
  if has_column df col then set_column df col (fun r => strip_upper (r col)) else df.

(** First candidate name that is a column of the table. *)
Definition first_present (df : DataFrame) (candidates : list string) : option string :=
  find (has_column df) candidates.

Definition resolve_count (df : DataFrame) (target : string) (candidates : list string)
  : DataFrame :=
  if has_column df target then df
  else match first_present df candidates with
       | Some found => set_column df target (fun r => fillna0_int (to_numeric (r found)))
       | None => set_column df target (fun _ => Int 0)
       end.

Definition fatal_candidates : list string :=
  ["Fatalities"; "NUM_FATAL"; "Fatal"; "num_of_fatal"]%string.
Definition injury_candidates : list string :=
  ["Injuries"; "NUM_INJURIES"; "Injury_Count"; "num_of_injuries"; "Injuries_Total"]%string.

Definition clean_collisions (df : DataFrame) : result (GeoDataFrame Point) :=
  if negb (has_column df "Accident_Date") then Err (KeyError "Accident_Date")
  else
    let df := set_column df "Accident_Date" (fun r => datetime_cell (r "Accident_Date"%string)) in
    let df := set_column df "year" (fun r => dt ts_year (r "Accident_Date"%string)) in
    let df := set_column df "month" (fun r => dt ts_month (r "Accident_Date"%string)) in
    let df := set_column df "dow" (fun r => dt dayofweek (r "Accident_Date"%string)) in
    let df := if has_column df "Hour"
              then set_column df "hour" (fun r => to_numeric (r "Hour"%string))
              else set_column df "hour" (fun _ => NA) in
    (* Normalize select categoricals *)
    let df := fold_left normalize_if_present
                ["Light"; "Traffic_Control"; "Classification_Of_Accident"]%string df in
    (* Fatal/injury counts for aggregation *)
    let df := resolve_count df "num_of_fatal" fatal_candidates in
    let df := resolve_count df "num_of_injuries" injury_candidates in
    gdf <- df_to_points float_of_text df "Long" "Lat" WGS84 ;;
    to_projected transform gdf DEFAULT_CRS.

Definition lon_candidates : list string := ["X"; "Longitude"; "LONG"; "lon"]%string.
Definition lat_candidates : list string := ["Y"; "Latitude"; "LAT"; "lat"]%string.

(** The error the spec calls MissingCoordinates. *)
Definition MissingCoordinates : error :=
  ValueError "Construction data must have X/Y or Longitude/Latitude columns".

Definition clean_construction (df : DataFrame) : result (GeoDataFrame Point) :=
  let df := if has_column df "TARGETED_START"
            then set_column df "TARGETED_START"
                            (fun r => datetime_cell (r "TARGETED_START"%string))
            else df in
  (* Support X/Y or Longitude/Latitude *)
  match first_present df lon_candidates, first_present df lat_candidates with
  | Some lon_col, Some lat_col =>
      gdf <- df_to_points float_of_text df lon_col lat_col WGS84 ;;
      to_projected transform gdf DEFAULT_CRS
  | _, _ => Err MissingCoordinates
  end.
End Cleaners.

End Clean.

(** ** [src/features/build.py] *)

Module Build.
Import Frame.

(** A row of the collision-to-segment join, restricted to the columns the
    builder reads.  [j_RD_SEGMENT_ID] is missing when the left join found no
    segment, [j_year] when the accident date did not parse. *)
Record JoinedRow := mkJoinedRow {
  j_RD_SEGMENT_ID : option Z;
  j_year : option Z;
  num_of_fatal : option Z;
  num_of_injuries : option Z }.

(** The joined table; the two flags say whether the severity columns exist. *)
Record Joined := mkJoined {
  has_num_of_fatal : bool;
  has_num_of_injuries : bool;
  jrows : list JoinedRow }.

Record RoadAttrs := mkRoadAttrs {
  length_m : option Q;
  SUBTYPE_TEXT : option string;
  SUBCLASS : option string;
  OWNERSHIP : option string;
  FLOW : option string;
  GRADE_SEPARATED : option string }.

Record RoadRow := mkRoadRow { r_RD_SEGMENT_ID : option Z; r_attrs : RoadAttrs }.

(** The aggregate while it is merged, before the numeric gaps are filled. *)
Record AggRow := mkAggRow {
  a_key : Z * Z;
  a_collisions_total : Z;
  a_fatal_major : option Z;
  a_injuries_total : option Z;
  a_attrs : RoadAttrs;
  a_construction_flag : option Z }.

(** The frame after [fillna(0)], with its index label. *)
Record Filled := mkFilled {
  idx : nat;
  RD_SEGMENT_ID : Z;
  year : Z;
  collisions_total : Z;
  fatal_major : Z;
  injuries_total : Z;
  attrs : RoadAttrs;
  construction_flag : Z }.

Record Lags := mkLags {
  l_collisions_prev_year : Z;
  l_fatal_prev_year : Z;
  l_injuries_prev_year : Z }.

(** A segment-year record of the returned table. *)
Record SegYear := mkSegYear {
  base : Filled;
  lags : Lags;
  high_risk : option Z }.

Definition collisions_prev_year (r : SegYear) : Z := l_collisions_prev_year (lags r).
Definition fatal_prev_year (r : SegYear) : Z := l_fatal_prev_year (lags r).
Definition injuries_prev_year (r : SegYear) : Z := l_injuries_prev_year (lags r).

Definition no_attrs : RoadAttrs := mkRoadAttrs None None None None None None.

Definition segment_year (r : JoinedRow) : option (Z * Z) :=
  match j_RD_SEGMENT_ID r, j_year r with
  | Some s, Some y => Some (s, y)
  | _, _ => None
  end.

Definition sum_Z (l : list Z) : Z := fold_right Z.add 0 l.

(** [joined.assign(collisions=1).groupby([RD_SEGMENT_ID, year], as_index=False)
      .agg(collisions_total=("collisions", "sum"))] *)
Definition aggregate (joined : Joined) : list AggRow :=
  map (fun kg => mkAggRow (fst kg) (sum_Z (map (fun _ => 1) (snd kg))) None None no_attrs None)
      (groupby segment_year (jrows joined)).

(** [joined.groupby([RD_SEGMENT_ID, year])[src].sum().reset_index()] *)
Definition group_sums (src : JoinedRow -> option Z) (joined : Joined) : list ((Z * Z) * Z) :=
  map (fun kg => (fst kg, sum_skipna (map src (snd kg))))
      (groupby segment_year (jrows joined)).

Definition on_key (a : AggRow) (s : (Z * Z) * Z) : bool := keqb (a_key a) (fst s).

Definition set_fatal (a : AggRow) (v : option Z) : AggRow :=
  mkAggRow (a_key a) (a_collisions_total a) v (a_injuries_total a) (a_attrs a)
           (a_construction_flag a).
Definition set_injuries (a : AggRow) (v : option Z) : AggRow :=
  mkAggRow (a_key a) (a_collisions_total a) (a_fatal_major a) v (a_attrs a)
           (a_construction_flag a).
Definition set_attrs (a : AggRow) (v : RoadAttrs) : AggRow :=
  mkAggRow (a_key a) (a_collisions_total a) (a_fatal_major a) (a_injuries_total a) v
           (a_construction_flag a).
Definition set_flag (a : AggRow) (v : option Z) : AggRow :=
  mkAggRow (a_key a) (a_collisions_total a) (a_fatal_major a) (a_injuries_total a)
           (a_attrs a) v.

(** One turn of the loop over the severity columns: merge the group sums
    when the source column exists, else add a column of zeros. *)
Definition add_sums (present : bool) (src : JoinedRow -> option Z)
           (set : AggRow -> option Z -> AggRow) (joined : Joined) (agg : list AggRow)
  : list AggRow :=
  if present
  then merge_left on_key (fun a s => set a (option_map snd s)) agg (group_sums src joined)
  else map (fun a => set a (Some 0)) agg.

Definition on_segment (a : AggRow) (r : RoadRow) : bool :=
  match r_RD_SEGMENT_ID r with Some s => keqb (fst (a_key a)) s | None => false end.

(** [roads[road_cols].drop_duplicates("RD_SEGMENT_ID")] then the left merge. *)
Definition merge_roads (agg : list AggRow) (roads : list RoadRow) : list AggRow :=
  merge_left on_segment
             (fun a r => set_attrs a (match r with Some r => r_attrs r | None => no_attrs end))
             agg (drop_duplicates r_RD_SEGMENT_ID roads).

Definition max_skipna (l : list (option Z)) : option Z :=
  fold_right (fun c acc => match c, acc with
                           | Some v, Some m => Some (Z.max v m)
                           | Some v, None => Some v
                           | None, _ => acc
                           end) None l.

(** [cjoin.groupby("RD_SEGMENT_ID")["tmp"].max().fillna(0).astype(int)]:
    [cjoin] pairs a segment identifier with the marker of an intersecting
    buffered construction point (missing when there is none). *)
Definition construction_flags (cjoin : list (option Z * option Z)) : list (Z * Z) :=
  map (fun kg => (fst kg, fillna 0 (max_skipna (map snd (snd kg)))))
      (groupby fst cjoin).

Definition merge_construction (df : list AggRow) (flags : option (list (Z * Z))) : list AggRow :=
  match flags with
  | Some fl =>
      merge_left (fun a f => keqb (fst (a_key a)) (fst f))
                 (fun a f => set_flag a (option_map snd f)) df fl
  | None => map (fun a => set_flag a (Some 0)) df
  end.

(** [df[num_cols] = df[num_cols].fillna(0)]; the rows get the positional
    index the merges left them with. *)
Definition fill_numeric (df : list AggRow) : list Filled :=
  map (fun ia =>
         let a := snd ia in
         mkFilled (fst ia) (fst (a_key a)) (snd (a_key a)) (a_collisions_total a)
                  (fillna 0 (a_fatal_major a)) (fillna 0 (a_injuries_total a))
                  (mkRoadAttrs (Some (fillna 0%Q (length_m (a_attrs a))))
                               (SUBTYPE_TEXT (a_attrs a)) (SUBCLASS (a_attrs a))
                               (OWNERSHIP (a_attrs a)) (FLOW (a_attrs a))
                               (GRADE_SEPARATED (a_attrs a)))
                  (fillna 0 (a_construction_flag a)))
      (combine (seq 0 (List.length df)) df).

Definition sort_key (r : Filled) : Z * Z := (RD_SEGMENT_ID r, year r).

(** [df.sort_values(["RD_SEGMENT_ID", "year"])] *)
Definition sort_values (df : list Filled) : list Filled :=
  sort_by (fun a b => kleb (sort_key a) (sort_key b)) df.

(** [df.groupby("RD_SEGMENT_ID")[col].shift(1)] then [.fillna(0).astype(int)] *)
Definition lag_column (col : Filled -> Z) (df : list Filled) : list Z :=
  map (fillna 0) (group_shift RD_SEGMENT_ID col [] df).

Definition add_lags (df : list Filled) : list (Filled * Lags) :=
  combine df
    (map (fun t => mkLags (fst t) (fst (snd t)) (snd (snd t)))
         (combine (lag_column collisions_total df)
                  (combine (lag_column fatal_major df) (lag_column injuries_total df)))).

(** [(g["collisions_total"] >= threshold).astype(int)]; a comparison with a
    missing threshold is false. *)
Definition at_or_above (c : Z) (threshold : option Q) : Z :=
  match threshold with
  | Some t => if Qle_bool t (inject_Z c) then 1 else 0
  | None => 0
  end.

(** The loop over [df.groupby("year")]: the indexed labels of each cohort,
    concatenated in cohort order. *)
Definition labels (df : list (Filled * Lags)) : list (nat * Z) :=
  flat_map (fun yg =>
              let g := snd yg in
              let threshold := quantile (map (fun r => collisions_total (fst r)) g) (4 # 5) in
              map (fun r => (idx (fst r), at_or_above (collisions_total (fst r)) threshold)) g)
           (groupby (fun r => Some (year (fst r))) df).

Definition sort_index (s : list (nat * Z)) : list (nat * Z) :=
  sort_by (fun a b => kleb (fst a) (fst b)) s.

(** The column [pd.concat(labels).sort_index()] assigned to the frame:
    aligned on the index, missing where the series has no entry for a row. *)
Definition high_risk_column (df : list (Filled * Lags)) : list SegYear :=
  let series := sort_index (labels df) in
  map (fun r => mkSegYear (fst r) (snd r) (lookup (idx (fst r)) series)) df.

(** [df["high_risk"] = pd.concat(labels).sort_index()].  The loop appends
    one series per year group; [pd.concat] of no series at all, which is what
    a frame without rows leaves, raises. *)
Definition assign_high_risk (df : list (Filled * Lags)) : Geo.result (list SegYear) :=
  match groupby (fun r => Some (year (fst r))) df with
  | [] => Geo.Err (Geo.ValueError "No objects to concatenate")
  | _ => Geo.Ok (high_risk_column df)
  end.

(** Create segment-year feature table with high-risk label, from the joined
    collisions, the cleaned roads and the optional construction join. *)
Definition build_features (joined : Joined) (roads : list RoadRow)
           (cjoin : option (list (option Z * option Z))) : Geo.result (list SegYear) :=
  let construction_flag := option_map construction_flags cjoin in
  let agg := aggregate joined in
  let agg := add_sums (has_num_of_fatal joined) num_of_fatal set_fatal joined agg in
  let agg := add_sums (has_num_of_injuries joined) num_of_injuries set_injuries joined agg in
  let df := merge_roads agg roads in
  let df := merge_construction df construction_flag in
  let df := fill_numeric df in
  let df := sort_values df in
  let df := add_lags df in
  assign_high_risk df.

(** The records of one year cohort of a table. *)
Definition cohort (y : Z) (t : list SegYear) : list SegYear :=
  filter (fun r => year (base r) =? y) t.

Definition totals (t : list SegYear) : list Z := map (fun r => collisions_total (base r)) t.

(** The joined events of a (segment, year) pair: those with that segment
    identifier and that year, both present. *)
Definition events_of (joined : Joined) (k : Z * Z) : list JoinedRow :=
  filter (has_key segment_year k) (jrows joined).

(** The joined table without the events that lack a segment or a year. *)
Definition keyed (e : JoinedRow) : bool :=
  match segment_year e with Some _ => true | None => false end.

Definition drop_unkeyed (joined : Joined) : Joined :=
  mkJoined (has_num_of_fatal joined) (has_num_of_injuries joined)
           (filter keyed (jrows joined)).

(** Number of records labelled high-risk. *)
Definition is_high (r : SegYear) : bool :=
  match high_risk r with Some 1 => true | _ => false end.

Definition high_count (g : list SegYear) : nat := List.length (filter is_high g).

(** Number of records of a cohort whose total equals the cohort's 0.8
    quantile exactly (the ties at the boundary). *)
Definition tied (g : list SegYear) (r : SegYear) : bool :=
  match quantile (totals g) (4 # 5) with
  | Some t => Qeq_bool t (inject_Z (collisions_total (base r)))
  | None => false
  end.

Definition tie_count (g : list SegYear) : nat := List.length (filter (tied g) g).

End Build.

(** ** Notions the properties are stated with *)

(** The stages of the feature builder, and the quantile in integers. *)
Module Stages.
Import Frame Build.

(** Key and collision total of a row of the aggregate. *)
Definition core (a : AggRow) : (Z * Z) * Z := (a_key a, a_collisions_total a).

Definition filled_core (f : Filled) : (Z * Z) * Z := (sort_key f, collisions_total f).

(** The aggregate after all merges (line 97 of the source). *)
Definition merged (joined : Joined) (roads : list RoadRow)
           (cjoin : option (list (option Z * option Z))) : list AggRow :=
  merge_construction
    (merge_roads
       (add_sums (has_num_of_injuries joined) num_of_injuries set_injuries joined
          (add_sums (has_num_of_fatal joined) num_of_fatal set_fatal joined (aggregate joined)))
       roads)
    (option_map construction_flags cjoin).

(** The frame the lags and labels are computed on (line 104). *)
Definition sorted_frame (joined : Joined) (roads : list RoadRow)
           (cjoin : option (list (option Z * option Z))) : list Filled :=
  sort_values (fill_numeric (merged joined roads cjoin)).

(** The table [build_features] returns, when it returns one. *)
Definition feature_table (joined : Joined) (roads : list RoadRow)
           (cjoin : option (list (option Z * option Z))) : list SegYear :=
  high_risk_column (add_lags (sorted_frame joined roads cjoin)).

Definition default_filled : Filled := mkFilled 0 0 0 0 0 0 no_attrs 0.

Definition default_lags : Lags := mkLags 0 0 0.

Definition default_row : SegYear := mkSegYear default_filled default_lags None.

(** The filled lag of column [col] at position [i] of the frame. *)
Definition lag_at (col : Filled -> Z) (df : list Filled) (i : nat) : Z :=
  fillna 0 (nth i (group_shift RD_SEGMENT_ID col [] df) None).

Definition key_sorted (df : list Filled) : Prop :=
  StronglySorted (fun a b => kleb (sort_key a) (sort_key b) = true) df.

Definition year_key (r : Filled * Lags) : option Z := Some (year (fst r)).

(** The label the loop computes for a row: its total against the 0.8
    quantile of the totals of the rows of its year. *)
Definition label_of (l : list (Filled * Lags)) (r : Filled * Lags) : Z :=
  at_or_above (collisions_total (fst r))
    (quantile (map (fun r => collisions_total (fst r))
                   (filter (has_key year_key (year (fst r))) l)) (4 # 5)).

Definition q_sorted (xs : list Z) : list Z := sort_by Z.leb xs.

Definition q_len (xs : list Z) : Z := Z.of_nat (List.length (q_sorted xs)).

Definition q_lo (xs : list Z) : Z := ((q_len xs - 1) * 4) / 5.

Definition q_hi (xs : list Z) : Z := Z.min (q_lo xs + 1) (q_len xs - 1).

Definition q_rem (xs : list Z) : Z := ((q_len xs - 1) * 4) mod 5.

Definition q_a (xs : list Z) : Z := nth (Z.to_nat (q_lo xs)) (q_sorted xs) 0.

Definition q_b (xs : list Z) : Z := nth (Z.to_nat (q_hi xs)) (q_sorted xs) 0.

(** Five times the 0.8 quantile, an integer. *)
Definition thr5 (xs : list Z) : Z := 5 * q_a xs + q_rem xs * (q_b xs - q_a xs).

Definition count {T} (p : T -> bool) (l : list T) : nat := List.length (filter p l).

End Stages.

Module GeoNotions.
Import Frame Geo.

Definition is_number (c : cell) : bool :=
  match as_float c with Some _ => true | None => false end.

(** A coordinate column is numeric: every cell is a number or missing. *)
Definition numeric_column (df : DataFrame) (col : string) : Prop :=
  forall r, In r (rows df) -> isna (r col) = true \/ is_number (r col) = true.

Definition geometries {G} (gdf : GeoDataFrame G) : list G := map snd (grows gdf).

(** The errors of the conversion to float64: the ValueError of a text that
    is no number, or a TypeError. *)
Definition conversion_error (e : error) : Prop :=
  (exists s, e = ValueError (String.append "could not convert string to float: '"
                                           (String.append s "'"))) \/
  (exists msg, e = TypeError msg).

(** The cell [c] cannot be read as a number, and [e] is what reading it
    raises: [c] is a text that is no number, or a timestamp. *)
Definition unreadable (float_of_text : string -> option Q) (c : cell) (e : error) : Prop :=
  (exists s, c = Str s /\ float_of_text s = None /\
             e = ValueError (String.append "could not convert string to float: '"
                                           (String.append s "'"))) \/
  (exists t, c = Stamp t /\
             e = TypeError "float() argument must be a string or a real number, not 'Timestamp'").

(** The cell [c] is read as the number [q]. *)
Definition reads (float_of_text : string -> option Q) (c : cell) (q : Q) : Prop :=
  as_coordinate float_of_text c = Ok q.

(** A transformation that moves every point, to show that an empty table
    comes back with the same (no) coordinates whatever the frames. *)
Definition shift_east (_ _ : CRS) (p : Point) : Point := mkPoint (x p + 1) (y p).

Definition empty_wgs84 : GeoDataFrame Point := mkGeoDataFrame [] [] (Some WGS84).

Section Pairs.
Context {P G : Type} (intersects : P -> G -> bool) (buffer : G -> Q -> G).

Definition pair_total (points : GeoDataFrame P) (lines : GeoDataFrame G) : nat :=
  fold_right Nat.add 0%nat
    (map (fun pr => List.length (matches intersects (snd pr) lines)) (grows points)).

(** The line table the join runs against, for a given distance. *)
Definition effective_lines (lines : GeoDataFrame G) (b : Q) : GeoDataFrame G :=
  if truthy (Some b) && gt0 (Some b) then buffer_lines buffer lines b else lines.
End Pairs.

End GeoNotions.

Module CleanNotions.
Import Frame Geo Clean.

(** [df'] comes from [df] by steps that keep every column of [df] and leave
    the cells of the columns [cols] as they are. *)
Definition keeps (cols : list string) (df df' : DataFrame) : Prop :=
  (forall c, has_column df c = true -> has_column df' c = true) /\
  exists F : Row -> Row,
    rows df' = map F (rows df) /\ forall r c, In c cols -> F r c = r c.

(** The columns the date claims speak of, and the two coordinates. *)
Definition dated_columns : list string :=
  ["Accident_Date"; "year"; "month"; "dow"; "hour"; "Long"; "Lat"]%string.

Section Rows.
Variable to_datetime : cell -> option Timestamp.
Variable dayofweek : Timestamp -> Z.
Variable parse_number : string -> cell.
Variable strip_upper : cell -> cell.

(** The table after the optional parsing of [TARGETED_START]. *)
Definition parsed_start (df : DataFrame) : DataFrame :=
  if has_column df "TARGETED_START"
  then set_column df "TARGETED_START"
                  (fun r => datetime_cell to_datetime (r "TARGETED_START"%string))
  else df.

(** One row through the five date assignments of the cleaner. *)
Definition stamp_row (hour_col : bool) (r : Row) : Row :=
  let r1 := set_cell r "Accident_Date" (datetime_cell to_datetime (r "Accident_Date"%string)) in
  let r2 := set_cell r1 "year" (dt ts_year (r1 "Accident_Date"%string)) in
  let r3 := set_cell r2 "month" (dt ts_month (r2 "Accident_Date"%string)) in
  let r4 := set_cell r3 "dow" (dt dayofweek (r3 "Accident_Date"%string)) in
  set_cell r4 "hour" (if hour_col then to_numeric parse_number (r4 "Hour"%string) else NA).

(** The table after the date assignments (line 27 of the source). *)
Definition stamped (df : DataFrame) : DataFrame :=
  let df := set_column df "Accident_Date"
              (fun r => datetime_cell to_datetime (r "Accident_Date"%string)) in
  let df := set_column df "year" (fun r => dt ts_year (r "Accident_Date"%string)) in
  let df := set_column df "month" (fun r => dt ts_month (r "Accident_Date"%string)) in
  let df := set_column df "dow" (fun r => dt dayofweek (r "Accident_Date"%string)) in
  if has_column df "Hour"
  then set_column df "hour" (fun r => to_numeric parse_number (r "Hour"%string))
  else set_column df "hour" (fun _ => NA).

(** The rest of the cleaner before the point conversion. *)
Definition counted (df : DataFrame) : DataFrame :=
  resolve_count parse_number
    (resolve_count parse_number
       (fold_left (normalize_if_present strip_upper)
                  ["Light"; "Traffic_Control"; "Classification_Of_Accident"]%string df)
       "num_of_fatal" fatal_candidates)
    "num_of_injuries" injury_candidates.

(** What the cleaner writes in the date fields of a record [r'] that comes
    from the input row [r]. *)
Definition date_fields (hour_col : bool) (r r' : Row) : Prop :=
  match to_datetime (r "Accident_Date"%string) with
  | Some t =>
      r' "Accident_Date"%string = Stamp t /\ r' "year"%string = Int (ts_year t) /\
      r' "month"%string = Int (ts_month t) /\ r' "dow"%string = Int (dayofweek t)
  | None =>
      r' "Accident_Date"%string = NA /\ r' "year"%string = NA /\
      r' "month"%string = NA /\ r' "dow"%string = NA
  end /\
  r' "hour"%string = (if hour_col then to_numeric parse_number (r "Hour"%string) else NA).
End Rows.

End CleanNotions.

(** ** Concrete tables for the runs *)

Module Samples.
Import Frame Geo Clean Build Stages GeoNotions.

Definition event (s y : Z) : JoinedRow := mkJoinedRow (Some s) (Some y) (Some 0) (Some 1).

(** Segment 7 has 5 collisions in 2020 and 8 in 2021; one event found no
    segment and one has no year. *)
Definition sample_joined : Joined :=
  mkJoined true true
    (repeat (event 7 2021) 8 ++ repeat (event 7 2020) 5 ++
     [mkJoinedRow None (Some 2020) None None; mkJoinedRow (Some 3) None None None] ++
     repeat (event 3 2020) 2 ++
     [event 9 2020; event 4 2020; event 5 2020; event 6 2020; event 3 2023]).

Abbreviation sample_table := (feature_table sample_joined [] None).

(** A year in which nine segments have one collision each and one segment
    has two. *)
Definition tied_year : Joined :=
  mkJoined true true
    (map (fun s => event s 2020) [1; 2; 3; 4; 5; 6; 7; 8; 9] ++ [event 10 2020; event 10 2020]).

Definition sample_record : SegYear := nth 5 sample_table default_row.

(** The table of the repository's test: three rows, one without a
    longitude and one without a latitude. *)
Definition lon_lat (lon lat : cell) : Row :=
  fun c => if String.eqb c "Long" then lon else if String.eqb c "Lat" then lat else NA.

Definition sample_coordinates : DataFrame :=
  mkDataFrame ["Long"; "Lat"]%string
    [lon_lat (Float (-757 # 10)) (Float (454 # 10));
     lon_lat NA (Float (455 # 10));
     lon_lat (Float (-758 # 10)) NA].

Definition one_point : GeoDataFrame Point :=
  mkGeoDataFrame ["id"%string] [((fun _ => Int 1), mkPoint (-757 # 10) (454 # 10))] (Some WGS84).

(** A geometry engine on a line, for concrete runs: a point is a
    coordinate, a segment an interval, and buffering widens the interval. *)
Definition on_interval (p : Q) (g : Q * Q) : bool :=
  Qle_bool (fst g) p && Qle_bool p (snd g).

Definition widen (g : Q * Q) (b : Q) : Q * Q := (fst g - b, snd g + b)%Q.

Definition sample_points : GeoDataFrame Q :=
  mkGeoDataFrame ["id"%string]
    [((fun _ => Int 1), 0%Q); ((fun _ => Int 2), 12%Q); ((fun _ => Int 3), 40%Q)]
    (Some DEFAULT_CRS).

Definition sample_lines : GeoDataFrame (Q * Q) :=
  mkGeoDataFrame ["RD_SEGMENT_ID"%string]
    [((fun _ => Int 100), (0%Q, 10%Q)); ((fun _ => Int 200), (15%Q, 30%Q))]
    (Some DEFAULT_CRS).

(** A small run of the collision cleaner: a parser that knows one date, a
    table with a dated collision at 15:30 whose [Hour] column says 7, and a
    collision whose date does not parse. *)
Definition sample_to_datetime (c : cell) : option Timestamp :=
  match c with
  | Str s => if String.eqb s "2021-03-04 15:30:00"
             then Some (mkTimestamp 2021 3 4 15 30 0) else None
  | Stamp t => Some t
  | _ => None
  end.

Definition sample_dayofweek (t : Timestamp) : Z := 3.

Definition sample_row (date : string) (hour : cell) (lon lat : Q) : Row :=
  fun c =>
    if String.eqb c "Accident_Date" then Str date
    else if String.eqb c "Hour" then hour
    else if String.eqb c "Long" then Float lon
    else if String.eqb c "Lat" then Float lat
    else NA.

Definition sample_collisions : DataFrame :=
  mkDataFrame ["Accident_Date"; "Hour"; "Long"; "Lat"]%string
    [sample_row "2021-03-04 15:30:00" (Int 7) (-757 # 10) (454 # 10);
     sample_row "sometime" NA (-758 # 10) (455 # 10)].

(** A reader of text as a float that knows two numerals. *)
Definition sample_float_of_text (s : string) : option Q :=
  if String.eqb s "-75.7" then Some (-757 # 10)
  else if String.eqb s "45.4" then Some (454 # 10)
  else None.

Definition sample_clean : DataFrame -> result (GeoDataFrame Point) :=
  clean_collisions sample_to_datetime sample_dayofweek (fun _ => NA) (fun c => c) shift_east
                   sample_float_of_text.

End Samples.

(** ** Notions for the further properties of the feature builder *)

Module BuildNotions.
Import Frame Build Stages.

(** The sum the builder stores for a severity column: the group sum of the
    source column, missing cells skipped, or 0 when the column is absent. *)
Definition severity (present : bool) (src : JoinedRow -> option Z) (joined : Joined)
           (k : Z * Z) : Z :=
  if present then sum_skipna (map src (events_of joined k)) else 0.

Definition is_segment (s : Z) (r : RoadRow) : bool :=
  match r_RD_SEGMENT_ID r with Some s' => Z.eqb s s' | None => false end.

(** The first row of the road table that carries a segment identifier. *)
Definition road_of (roads : list RoadRow) (s : Z) : option RoadRow :=
  find (is_segment s) roads.

(** The attribute columns after [fillna(0)] of the numeric ones. *)
Definition filled_attrs (a : RoadAttrs) : RoadAttrs :=
  mkRoadAttrs (Some (fillna 0%Q (length_m a))) (SUBTYPE_TEXT a) (SUBCLASS a)
              (OWNERSHIP a) (FLOW a) (GRADE_SEPARATED a).

Definition attrs_of (roads : list RoadRow) (s : Z) : RoadAttrs :=
  filled_attrs (match road_of roads s with Some r => r_attrs r | None => no_attrs end).

(** The construction markers joined to a segment. *)
Definition markers_of (cj : list (option Z * option Z)) (s : Z) : list (option Z) :=
  map snd (filter (has_key fst s) cj).

Definition flag_of (cjoin : option (list (option Z * option Z))) (s : Z) : Z :=
  match cjoin with
  | Some cj => fillna 0 (max_skipna (markers_of cj s))
  | None => 0
  end.

(** The row the merges build for one group of the aggregate. *)
Definition merged_row (joined : Joined) (roads : list RoadRow)
           (cjoin : option (list (option Z * option Z)))
           (kg : (Z * Z) * list JoinedRow) : AggRow :=
  let k := fst kg in
  mkAggRow k (Z.of_nat (List.length (snd kg)))
           (Some (severity (has_num_of_fatal joined) num_of_fatal joined k))
           (Some (severity (has_num_of_injuries joined) num_of_injuries joined k))
           (match road_of roads (fst k) with Some r => r_attrs r | None => no_attrs end)
           (Some (flag_of cjoin (fst k))).

(** One row of [fill_numeric]. *)
Definition filled_of (i : nat) (a : AggRow) : Filled :=
  mkFilled i (fst (a_key a)) (snd (a_key a)) (a_collisions_total a)
           (fillna 0 (a_fatal_major a)) (fillna 0 (a_injuries_total a))
           (filled_attrs (a_attrs a)) (fillna 0 (a_construction_flag a)).

(** What a record of the returned table holds besides lags and label, read
    off the joined events, the roads and the construction join. *)
Definition record_matches (joined : Joined) (roads : list RoadRow)
           (cjoin : option (list (option Z * option Z))) (f : Filled) : Prop :=
  let k := (RD_SEGMENT_ID f, year f) in
  events_of joined k <> [] /\
  collisions_total f = Z.of_nat (List.length (events_of joined k)) /\
  fatal_major f = severity (has_num_of_fatal joined) num_of_fatal joined k /\
  injuries_total f = severity (has_num_of_injuries joined) num_of_injuries joined k /\
  attrs f = attrs_of roads (RD_SEGMENT_ID f) /\
  construction_flag f = flag_of cjoin (RD_SEGMENT_ID f).

(** A row of the construction join that marks segment [s]. *)
Definition has_marker (s : Z) (row : option Z * option Z) : bool :=
  has_key fst s row && match snd row with Some _ => true | None => false end.

(** Segment, total and label of the records of a year, in table order. *)
Definition cohort_view (y : Z) (out : list SegYear) : list (Z * Z * option Z) :=
  map (fun r => (RD_SEGMENT_ID (base r), collisions_total (base r), high_risk r)) (cohort y out).

End BuildNotions.

(** ** More concrete tables *)

Module MoreSamples.
Import Frame Geo Clean Build Stages Samples.

(** The sample events with one more collision, in 2022. *)
Definition sample_joined_2022 : Joined :=
  mkJoined false true (event 9 2022 :: jrows sample_joined).

Definition sample_roads : list RoadRow :=
  [mkRoadRow (Some 7) (mkRoadAttrs (Some (120 # 1)) (Some "ROAD"%string) None None None None);
   mkRoadRow (Some 7) (mkRoadAttrs (Some (999 # 1)) None None None None None);
   mkRoadRow None no_attrs;
   mkRoadRow (Some 3) (mkRoadAttrs None (Some "LANE"%string) None None None None)].

(** Construction join: segment 7 has a construction point, segment 3 has none. *)
Definition sample_cjoin : list (option Z * option Z) :=
  [(Some 7, Some 1); (Some 3, None); (Some 7, Some 1); (None, Some 1)].

Abbreviation sample_table_2022 :=
  (feature_table sample_joined_2022 sample_roads (Some sample_cjoin)).

Import BuildNotions.

(** What the joined events of a (segment, year) pair amount to: their
    number and the two severity sums. *)
Definition history (joined : Joined) (k : Z * Z) : Z * Z * Z :=
  (Z.of_nat (List.length (events_of joined k)),
   severity (has_num_of_fatal joined) num_of_fatal joined k,
   severity (has_num_of_injuries joined) num_of_injuries joined k).

(** The sample events with later collisions only: in 2022, on segments 7
    and 9. *)
Definition sample_joined_later : Joined :=
  mkJoined true true (event 7 2022 :: event 9 2022 :: jrows sample_joined).

Abbreviation sample_table_later := (feature_table sample_joined_later [] None).

End MoreSamples.

(** ** Notions used to state the properties of the segment join *)

Module JoinNotions.
Import Frame Geo SpatialJoin GeoNotions.

Section Reach.
Context {G : Type} (buffer : G -> Q -> G).

(** The geometry a line is matched with for a given buffer argument. *)
Definition reach (buffer_m : option Q) (g : G) : G :=
  if truthy buffer_m && gt0 buffer_m then buffer g (fillna 0%Q buffer_m) else g.
End Reach.

(** A joined row carries the columns of its left row, apart from the join's
    own two. *)
Definition left_columns_kept (road_id : string) (l r' : Row) : Prop :=
  forall c, c <> "index_right"%string -> c <> road_id -> r' c = l c.

Section JoinedLines.
Context {G : Type} (buffer : G -> Q -> G).

(** The line table the collisions are joined against: the identifier column
    only, each geometry as the buffer argument makes it. *)
Definition joined_lines (roads : GeoDataFrame G) (road_id : string) (buffer_m : option Q)
  : GeoDataFrame G :=
  {| gcolumns := [road_id];
     grows := map (fun rg => ((fun c => if String.eqb c road_id then fst rg c else NA),
                              reach buffer buffer_m (snd rg))) (grows roads);
     crs := crs roads |}.
End JoinedLines.

(** A row of a join output that carries a matched line. *)
Definition matched_row {P : Type} (rg : Row * P) : bool :=
  negb (isna (fst rg "index_right"%string)).

Section Unreached.
Context {P G : Type} (intersects : P -> G -> bool) (buffer : G -> Q -> G).

(** The line table a join runs against, for an optional distance. *)
Definition lines_in_effect (lines : GeoDataFrame G) (buffer_m : option Q) : GeoDataFrame G :=
  match buffer_m with
  | Some b => effective_lines buffer lines b
  | None => lines
  end.

(** The points no line intersects. *)
Definition unreached (points : GeoDataFrame P) (lines : GeoDataFrame G) : list (Row * P) :=
  filter (fun pr => match matches intersects (snd pr) lines with [] => true | _ => false end)
         (grows points).
End Unreached.

End JoinNotions.

(** ** [src/data/clean.py], the road cleaner *)

Module CleanRoads.
Import Frame Geo.

(** Shapefile truncates column names to 10 chars; map to expected names. *)
Definition _ROAD_COL_RENAME : list (string * string) :=
  [("RD_SEGMENT", "RD_SEGMENT_ID"); ("SHAPE_Leng", "SHAPE_Length");
   ("SUBTYPE_TE", "SUBTYPE_TEXT"); ("GRADE_SEPA", "GRADE_SEPARATED")]%string.

(** The argument of [clean_roads]: a GeoDataFrame, or a plain table whose
    geometry, if any, is text. *)
Inductive RoadTable (G : Type) :=
| GeoTable (gdf : GeoDataFrame G)
| PlainTable (df : DataFrame).
Arguments GeoTable {G} gdf.
Arguments PlainTable {G} df.

Definition MissingGeometry : error :=
  ValueError "Road data must include geometry (shapefile/geojson or CSV with WKT 'geometry').".

Section Roads.
Context {G : Type}.
(** The WKT reader of the geometry library on one cell, the coordinate
    transformation, and the length of a geometry. *)
Variable from_wkt : cell -> result G.
Variable transform : CRS -> CRS -> G -> G.
Variable geom_length : G -> Q.

(** [gpd.GeoSeries.from_wkt(df["geometry"])], row by row. *)
Fixpoint from_wkt_rows (rs : list Row) : result (list (Row * G)) :=
  match rs with
  | [] => Ok []
  | r :: rs' =>
      g <- from_wkt (r "geometry"%string) ;;
      gs <- from_wkt_rows rs' ;;
      Ok ((r, g) :: gs)
  end.

(** If it's already a GeoDataFrame with geometry, keep it; else read the
    [geometry] column, which becomes the geometry of the table. *)
Definition as_geo (input : RoadTable G) : result (GeoDataFrame G) :=
  match input with
  | GeoTable gdf => Ok gdf
  | PlainTable df =>
      if has_column df "geometry" then
        parsed <- from_wkt_rows (rows df) ;;
        Ok {| gcolumns := filter (fun c => negb (String.eqb c "geometry")) (columns df);
              grows := parsed;
              crs := Some WGS84 |}
      else Err MissingGeometry
  end.

(** [{k: v for k, v in _ROAD_COL_RENAME.items() if k in gdf.columns and v
    not in gdf.columns}] *)
Definition rename_of (cols : list string) : list (string * string) :=
  filter (fun kv => mem (fst kv) cols && negb (mem (snd kv) cols)) _ROAD_COL_RENAME.

Definition new_name (rename : list (string * string)) (c : string) : string :=
  match find (fun kv => String.eqb (fst kv) c) rename with
  | Some kv => snd kv
  | None => c
  end.

(** A row under the new names: a new name reads the cell of the old one,
    and the old name is no column any more. *)
Definition rename_row (rename : list (string * string)) (r : Row) : Row :=
  fun c =>
    match find (fun kv => String.eqb (snd kv) c) rename with
    | Some kv => r (fst kv)
    | None => if existsb (fun kv => String.eqb (fst kv) c) rename then NA else r c
    end.

(** Normalize shapefile-truncated column names. *)
Definition rename_columns (gdf : GeoDataFrame G) : GeoDataFrame G :=
  match rename_of (gcolumns gdf) with
  | [] => gdf
  | rename =>
      {| gcolumns := map (new_name rename) (gcolumns gdf);
         grows := map (fun rg => (rename_row rename (fst rg), snd rg)) (grows gdf);
         crs := crs gdf |}
  end.

(** Set CRS if missing. *)
Definition set_crs_if_missing (gdf : GeoDataFrame G) : GeoDataFrame G :=
  match crs gdf with
  | None => {| gcolumns := gcolumns gdf; grows := grows gdf; crs := Some WGS84 |}
  | Some _ => gdf
  end.

(** Length in meters. *)
Definition with_length (gdf : GeoDataFrame G) : GeoDataFrame G :=
  let from_column := mem "SHAPE_Length" (gcolumns gdf) in
  {| gcolumns := if mem "length_m" (gcolumns gdf) then gcolumns gdf
                 else gcolumns gdf ++ ["length_m"%string];
     grows := map (fun rg =>
                     (set_cell (fst rg) "length_m"
                               (if from_column then fst rg "SHAPE_Length"%string
                                else Float (geom_length (snd rg))),
                      snd rg)) (grows gdf);
     crs := crs gdf |}.

(** Standardize road centreline GeoDataFrame, ensuring geometry + length
    (meters). *)
Definition clean_roads (input : RoadTable G) : result (GeoDataFrame G) :=
  gdf <- as_geo input ;;
  let gdf := rename_columns gdf in
  let gdf := set_crs_if_missing gdf in
  gdf <- to_projected transform gdf DEFAULT_CRS ;;
  Ok (with_length gdf).
End Roads.

End CleanRoads.

(** ** Notions used to state the further properties of the cleaners *)

Module CleanerNotions.
Import Frame Geo Clean GeoNotions CleanNotions.

(** A record [r] of a table lies at the point [p]: the two coordinate cells
    are read as the numbers [x p] and [y p]. *)
Definition located (float_of_text : string -> option Q) (lon_col lat_col : string)
           (r : Row) (p : Point) : Prop :=
  as_coordinate float_of_text (r lon_col) = Ok (x p) /\
  as_coordinate float_of_text (r lat_col) = Ok (y p).

(** The rows the point conversion keeps. *)
Definition with_coordinates (lon_col lat_col : string) (df : DataFrame) : list Row :=
  filter (fun r => negb (missing_coords lon_col lat_col r)) (rows df).

(** The columns the collision cleaner writes. *)
Definition written_columns : list string :=
  ["Accident_Date"; "year"; "month"; "dow"; "hour";
   "Light"; "Traffic_Control"; "Classification_Of_Accident";
   "num_of_fatal"; "num_of_injuries"]%string.

Definition added_columns : list string :=
  ["year"; "month"; "dow"; "hour"; "num_of_fatal"; "num_of_injuries"]%string.

Definition categoricals : list string :=
  ["Light"; "Traffic_Control"; "Classification_Of_Accident"]%string.

Section CleanRows.
Variable to_datetime : cell -> option Timestamp.
Variable dayofweek : Timestamp -> Z.
Variable parse_number : string -> cell.
Variable strip_upper : cell -> cell.

Definition normalize_row (df : DataFrame) (col : string) (r : Row) : Row :=
  if has_column df col then set_cell r col (strip_upper (r col)) else r.

Definition resolve_row (df : DataFrame) (target : string) (candidates : list string)
           (r : Row) : Row :=
  if has_column df target then r
  else match first_present df candidates with
       | Some found => set_cell r target (fillna0_int (to_numeric parse_number (r found)))
       | None => set_cell r target (Int 0)
       end.

(** One input row through all the assignments of the collision cleaner,
    every column test made on the input table. *)
Definition clean_row (df : DataFrame) (r : Row) : Row :=
  resolve_row df "num_of_injuries" injury_candidates
    (resolve_row df "num_of_fatal" fatal_candidates
       (normalize_row df "Classification_Of_Accident"
          (normalize_row df "Traffic_Control"
             (normalize_row df "Light"
                (stamp_row to_datetime dayofweek parse_number (has_column df "Hour") r))))).

(** The severity count of a record, read off the input table: the target
    column when the table has it, else the first of [names] the table has,
    made an integer, else zero. *)
Definition count_cell (df : DataFrame) (target : string) (names : list string) (r : Row)
  : cell :=
  if has_column df target then r target
  else match first_present df names with
       | Some found => fillna0_int (to_numeric parse_number (r found))
       | None => Int 0
       end.

(** The names a severity count is looked for under, apart from the target's
    own. *)
Definition fatal_names : list string := ["Fatalities"; "NUM_FATAL"; "Fatal"]%string.
Definition injury_names : list string :=
  ["Injuries"; "NUM_INJURIES"; "Injury_Count"; "Injuries_Total"]%string.

(** [pd.to_numeric] gives numbers or nothing. *)
Definition numeric_parser : Prop :=
  forall s, parse_number s = NA \/ is_number (parse_number s) = true.
End CleanRows.

(** A collision table with two of the fatality names, a light condition and
    one row without a latitude. *)
Definition severity_row (fatal1 fatal2 : cell) (light : string) (lat : cell) : Row :=
  fun c =>
    if String.eqb c "Accident_Date" then Str "2021-03-04 15:30:00"
    else if String.eqb c "NUM_FATAL" then fatal1
    else if String.eqb c "Fatal" then fatal2
    else if String.eqb c "Light" then Str light
    else if String.eqb c "Long" then Float (-757 # 10)
    else if String.eqb c "Lat" then lat
    else NA.

Definition sample_severity : DataFrame :=
  mkDataFrame ["Accident_Date"; "Fatal"; "NUM_FATAL"; "Light"; "Long"; "Lat"]%string
    [severity_row (Float (3 # 2)) (Int 9) " dark" (Float (454 # 10));
     severity_row NA (Int 9) "day" (Float (455 # 10));
     severity_row (Int 1) (Int 9) "day" NA].

Definition sample_upper (c : cell) : cell :=
  match c with
  | Str s => if String.eqb s " dark" then Str "DARK"
             else if String.eqb s "day" then Str "DAY" else Str s
  | other => other
  end.

Section StartRows.
Variable to_datetime : cell -> option Timestamp.

(** The record the construction cleaner makes of an input row. *)
Definition start_row (df : DataFrame) (r : Row) : Row :=
  if has_column df "TARGETED_START"
  then set_cell r "TARGETED_START" (datetime_cell to_datetime (r "TARGETED_START"%string))
  else r.
End StartRows.

(** A construction table under the second-choice names, with one row
    without a longitude. *)
Definition site_row (start : cell) (lon lat : cell) : Row :=
  fun c =>
    if String.eqb c "TARGETED_START" then start
    else if String.eqb c "Longitude" then lon
    else if String.eqb c "Latitude" then lat
    else NA.

Definition sample_sites : DataFrame :=
  mkDataFrame ["TARGETED_START"; "Latitude"; "Longitude"]%string
    [site_row (Str "2021-03-04 15:30:00") (Float (-757 # 10)) (Float (454 # 10));
     site_row (Str "soon") NA (Float (455 # 10));
     site_row NA (Int (-76)) (Int 45)].

Import CleanRoads.

(** The columns of the argument, its rows and the frame its geometries are
    read in. *)
Definition input_columns {G} (input : RoadTable G) : list string :=
  match input with
  | GeoTable gdf => gcolumns gdf
  | PlainTable df => filter (fun c => negb (String.eqb c "geometry")) (columns df)
  end.

Definition input_rows {G} (input : RoadTable G) : list Row :=
  match input with
  | GeoTable gdf => map fst (grows gdf)
  | PlainTable df => rows df
  end.

Definition input_crs {G} (input : RoadTable G) : CRS :=
  match input with
  | GeoTable gdf => fillna WGS84 (crs gdf)
  | PlainTable _ => WGS84
  end.

Section RoadNotions.
Context {G : Type}.
Variable from_wkt : cell -> result G.
Variable transform : CRS -> CRS -> G -> G.
Variable geom_length : G -> Q.

(** [gs] are the geometries of the argument's rows, in order. *)
Definition input_geometries (input : RoadTable G) (gs : list G) : Prop :=
  match input with
  | GeoTable gdf => gs = map snd (grows gdf)
  | PlainTable df => Forall2 (fun r g => from_wkt (r "geometry"%string) = Ok g) (rows df) gs
  end.

(** A geometry read in frame [c], in the project frame. *)
Definition projected (c : CRS) (g : G) : G :=
  if String.eqb c DEFAULT_CRS then g else transform c DEFAULT_CRS g.

(** What the output row [r'] of an input row [r] with geometry [g] holds. *)
Definition road_record (input : RoadTable G) (r : Row) (g : G) (r' : Row) : Prop :=
  let has c := mem c (input_columns input) in
  (forall k v, In (k, v) _ROAD_COL_RENAME ->
     r' v = if has v then r v else if has k then r k else r v) /\
  r' "length_m"%string =
    (if has "SHAPE_Length"%string then r "SHAPE_Length"%string
     else if has "SHAPE_Leng"%string then r "SHAPE_Leng"%string
     else Float (geom_length (projected (input_crs input) g))) /\
  (forall c, c <> "length_m"%string ->
     (forall kv, In kv _ROAD_COL_RENAME -> c <> fst kv /\ c <> snd kv) -> r' c = r c).
End RoadNotions.

(** A sample reader on intervals: the text of two known segments. *)
Definition sample_from_wkt (c : cell) : result (Q * Q) :=
  match c with
  | Str s => if String.eqb s "LINESTRING (0 0, 10 0)" then Ok (0%Q, 10%Q)
             else if String.eqb s "LINESTRING (15 0, 30 0)" then Ok (15%Q, 30%Q)
             else Err (TypeError "not a geometry")
  | _ => Err (TypeError "not a geometry")
  end.

Definition interval_length (g : Q * Q) : Q := (snd g - fst g)%Q.

Definition shift_interval (_ _ : CRS) (g : Q * Q) : Q * Q := (fst g + 100, snd g + 100)%Q.

Definition road_row (id : Z) (shape : cell) (geometry : string) : Row :=
  fun c =>
    if String.eqb c "RD_SEGMENT" then Int id
    else if String.eqb c "SHAPE_Leng" then shape
    else if String.eqb c "geometry" then Str geometry
    else NA.

(** A road table as read from a CSV export of a shapefile. *)
Definition sample_road_csv : DataFrame :=
  mkDataFrame ["RD_SEGMENT"; "SHAPE_Leng"; "geometry"]%string
    [road_row 100 (Float (21 # 2)) "LINESTRING (0 0, 10 0)";
     road_row 200 NA "LINESTRING (15 0, 30 0)"].

Import Samples.

(** A point of the plane against an interval of the first axis. *)
Definition over_interval (p : Point) (g : Q * Q) : bool := on_interval (x p) g.

(** The cells the point conversion reads: the longitudes of the kept rows,
    then their latitudes. *)
Definition coordinate_cells (lon_col lat_col : string) (df : DataFrame) : list cell :=
  map (fun r : Row => r lon_col) (with_coordinates lon_col lat_col df) ++
  map (fun r : Row => r lat_col) (with_coordinates lon_col lat_col df).

(** Coordinates as a CSV without type inference has them: texts. *)
Definition sample_text_coordinates : DataFrame :=
  mkDataFrame ["Long"; "Lat"]%string
    [lon_lat (Str "-75.7") (Str "45.4");
     lon_lat NA (Str "north");
     lon_lat (Float (-758 # 10)) (Int 45)].

Definition sample_bad_coordinates : DataFrame :=
  mkDataFrame ["Long"; "Lat"]%string
    [lon_lat (Str "-75.7") (Str "north");
     lon_lat (Str "west") (Str "45.4")].

End CleanerNotions.

(** ** [src/features/build.py], the column-sum helper *)

Module BuildHelpers.
Import Frame Geo.

(** [fillna(0)] on a cell of a numeric column. *)
Definition number (c : cell) : Q :=
  match as_float c with Some q => q | None => 0%Q end.

Definition _safe_sum (df : DataFrame) (cols : list string) : list Q :=
  let present := filter (has_column df) cols in
  match present with
  | [] => map (fun _ => 0%Q) (rows df)
  | _ => map (fun r : Row => fold_right Qplus 0%Q (map (fun c => number (r c)) present))
             (rows df)
  end.

End BuildHelpers.

Module HelperNotions.
Import Frame Geo BuildHelpers.

(** The sum of the cells of a row under the given names, whether the table
    has them or not. *)
Definition cells_sum (r : Row) (cols : list string) : Q :=
  fold_right Qplus 0%Q (map (fun c => number (r c)) cols).

Definition sample_counts : DataFrame :=
  mkDataFrame ["a"; "b"]%string
    [(fun c => if String.eqb c "a" then Int 2 else if String.eqb c "b" then Float (1 # 2)
               else Int 1000);
     (fun c => if String.eqb c "a" then NA else if String.eqb c "b" then Int 3
               else Int 1000)].

End HelperNotions.

(** ** [src/viz/map_results.py] *)

Module MapResults.
Import Frame.

(** One [*_metrics.json] file: the model name its stem gives, and the two
    entries the selection reads. *)
Record MetricsFile := mkMetricsFile {
  model_name : string;
  m_test_year : option Z;
  m_metric : option Q }.

(** The outcome of the selection: a name, or one of the two errors. *)
Inductive selection :=
| Best (best_name : string)
| FileNotFoundError
| ValueError_no_metrics.

Definition same_year (m : MetricsFile) (test_year : Z) : bool :=
  match m_test_year m with Some y => Z.eqb y test_year | None => false end.

(** One turn of the loop over the metrics files. *)
Definition consider (test_year : Z) (best : option string * Q) (m : MetricsFile)
  : option string * Q :=
  if negb (same_year m test_year) then best
  else match m_metric m with
       | Some v => if negb (Qle_bool v (snd best)) then (Some (model_name m), v) else best
       | None => best
       end.

(** Load all model metrics, pick best by metric. *)
Definition get_best_model (metrics_files : list MetricsFile) (test_year : Z) : selection :=
  match metrics_files with
  | [] => FileNotFoundError
  | _ =>
      match fst (fold_left (consider test_year) metrics_files (None, (-1)%Q)) with
      | Some name => Best name
      | None => ValueError_no_metrics
      end
  end.

(** [roads["risk_proba"].fillna(0).clip(0, 1)] on one cell. *)
Definition risk_proba (proba : option Q) : Q :=
  let v := fillna 0%Q proba in
  if Qle_bool v 0 then 0%Q else if Qle_bool 1 v then 1%Q else v.

(** Risk bands (align with style_fn); label with percentage range. *)
Definition RISK_BANDS : list (Q * Q * string * string) :=
  [(0%Q, 2 # 10, "#91cf60", "Low (0–20%)");
   (2 # 10, 4 # 10, "#fee08b", "Medium (20–40%)");
   (4 # 10, 7 # 10, "#fc8d59", "High (40–70%)");
   (7 # 10, 101 # 100, "#d73027", "Very high (70%+)")]%string.

(** Colour and weight of a segment of the map; a missing probability is
    read as 0. *)
Definition style_fn (p : option Q) : string * Z :=
  let p := fillna 0%Q p in
  if Qle_bool (7 # 10) p then ("#d73027"%string, 4)
  else if Qle_bool (4 # 10) p then ("#fc8d59"%string, 3)
  else if Qle_bool (2 # 10) p then ("#fee08b"%string, 2)
  else ("#91cf60"%string, 2).

End MapResults.

Module MapNotions.
Import Frame MapResults.

(** A metrics file of the test year that has the metric, [v]. *)
Definition eligible (test_year : Z) (m : MetricsFile) (v : Q) : Prop :=
  m_test_year m = Some test_year /\ m_metric m = Some v.

Definition in_band (p : Q) (band : Q * Q * string * string) : Prop :=
  (fst (fst (fst band)) <= p)%Q /\ (p < snd (fst (fst band)))%Q.

Definition band_color (band : Q * Q * string * string) : string := snd (fst band).

Definition sample_metrics : list MetricsFile :=
  [mkMetricsFile "logreg" (Some 2024) (Some (61 # 100));
   mkMetricsFile "forest" (Some 2024) (Some (74 # 100));
   mkMetricsFile "boost" (Some 2023) (Some (90 # 100));
   mkMetricsFile "xgb" (Some 2024) (Some (74 # 100));
   mkMetricsFile "dummy" (Some 2024) None]%string.

End MapNotions.

(** * Properties *)

(** ** Facts about the table primitives *)

Module FrameFacts.
Import Frame.

(** The laws a key type must satisfy for grouping and sorting. *)
Class KeyLaws (K : Type) `{Key K} := {
  keqb_eq : forall a b : K, keqb a b = true <-> a = b;
  kleb_total : forall a b : K, kleb a b = true \/ kleb b a = true;
  kleb_trans : forall a b c : K, kleb a b = true -> kleb b c = true -> kleb a c = true;
  kleb_antisym : forall a b : K, kleb a b = true -> kleb b a = true -> a = b }.

#[export] Instance KeyLaws_Z : KeyLaws Z.
Proof.
  split; simpl; intros.
  - apply Z.eqb_eq.
  - rewrite !Z.leb_le; lia.
  - rewrite Z.leb_le in *; lia.
  - rewrite Z.leb_le in *; lia.
Qed.

#[export] Instance KeyLaws_nat : KeyLaws nat.
Proof.
  split; simpl; intros.
  - apply Nat.eqb_eq.
  - rewrite !Nat.leb_le; lia.
  - rewrite Nat.leb_le in *; lia.
  - rewrite Nat.leb_le in *; lia.
Qed.

Lemma keqb_refl {K} `{KeyLaws K} (a : K) : keqb a a = true.
Proof. now apply keqb_eq. Qed.

Lemma keqb_neq {K} `{KeyLaws K} (a b : K) : keqb a b = false <-> a <> b.
Proof.
  split.
  - intros E ->. rewrite keqb_refl in E. discriminate.
  - intros N. destruct (keqb a b) eqn:E; [|reflexivity].
    apply keqb_eq in E. contradiction.
Qed.

#[export] Instance KeyLaws_pair {A B} `{KeyLaws A} `{KeyLaws B} : KeyLaws (A * B).
Proof.
  split; simpl.
  - intros [a1 b1] [a2 b2]; simpl. rewrite andb_true_iff, !keqb_eq.
    split; [intros [-> ->]; reflexivity | intros E; inversion E; auto].
  - intros [a1 b1] [a2 b2]; simpl.
    destruct (keqb a1 a2) eqn:E.
    + apply keqb_eq in E; subst. rewrite keqb_refl. apply kleb_total.
    + destruct (keqb a2 a1) eqn:E'.
      * apply keqb_eq in E'; subst. rewrite keqb_refl in E. discriminate.
      * apply kleb_total.
  - intros [a1 b1] [a2 b2] [a3 b3]; simpl.
    destruct (keqb a1 a2) eqn:E12.
    + apply keqb_eq in E12; subst.
      destruct (keqb a2 a3) eqn:E23; [apply kleb_trans | auto].
    + destruct (keqb a2 a3) eqn:E23.
      * apply keqb_eq in E23; subst. rewrite E12. auto.
      * intros L12 L23. destruct (keqb a1 a3) eqn:E13.
        -- apply keqb_eq in E13; subst.
           apply keqb_neq in E12. exfalso. apply E12. now apply kleb_antisym.
        -- eapply kleb_trans; eauto.
  - intros [a1 b1] [a2 b2]; simpl.
    destruct (keqb a1 a2) eqn:E.
    + apply keqb_eq in E; subst. rewrite keqb_refl. intros. f_equal. now apply kleb_antisym.
    + destruct (keqb a2 a1) eqn:E'.
      * apply keqb_eq in E'; subst. rewrite keqb_refl in E. discriminate.
      * intros. apply keqb_neq in E. exfalso. apply E. now apply kleb_antisym.
Qed.

Section SortFacts.
Context {A : Type} (leb : A -> A -> bool).
Let le (a b : A) : Prop := leb a b = true.

Lemma insert_by_perm (a : A) (l : list A) : Permutation (insert_by leb a l) (a :: l).
Proof.
  induction l as [|h t IH]; simpl; [reflexivity|].
  destruct (leb a h); [reflexivity|].
  rewrite IH. apply perm_swap.
Qed.

Lemma sort_by_perm (l : list A) : Permutation (sort_by leb l) l.
Proof.
  induction l as [|h t IH]; simpl; [reflexivity|].
  rewrite insert_by_perm. now constructor.
Qed.

Lemma sort_by_In (l : list A) (a : A) : In a (sort_by leb l) <-> In a l.
Proof.
  split; apply Permutation_in; [|symmetry]; apply sort_by_perm.
Qed.

Lemma sort_by_length (l : list A) : List.length (sort_by leb l) = List.length l.
Proof. apply Permutation_length, sort_by_perm. Qed.

Hypothesis leb_total : forall a b, le a b \/ le b a.
Hypothesis leb_trans : forall a b c, le a b -> le b c -> le a c.

Lemma insert_by_sorted (a : A) (l : list A) :
  StronglySorted le l -> StronglySorted le (insert_by leb a l).
Proof.
  induction 1 as [|h t St IH Fa]; simpl.
  - repeat constructor.
  - destruct (leb a h) eqn:E.
    + constructor; [now constructor|].
      constructor; [exact E|].
      eapply Forall_impl; [|exact Fa]. intros b Hb. eapply leb_trans; eauto.
    + constructor; [exact IH|].
      assert (Hha : le h a) by (destruct (leb_total a h) as [C|C]; [unfold le in C; congruence|exact C]).
      eapply Permutation_Forall; [symmetry; apply insert_by_perm|].
      now constructor.
Qed.

Lemma sort_by_sorted (l : list A) : StronglySorted le (sort_by leb l).
Proof.
  induction l as [|h t IH]; simpl; [constructor|].
  now apply insert_by_sorted.
Qed.
End SortFacts.

Section GroupFacts.
Context {A K : Type} `{KeyLaws K}.

Lemma distinct_In (l : list K) (k : K) : In k (distinct l) <-> In k l.
Proof.
  induction l as [|h t IH]; simpl; [tauto|].
  rewrite filter_In, IH, negb_true_iff, keqb_neq. split.
  - intros [E|[I _]]; auto.
  - intros [E|I]; auto.
    destruct (keqb h k) eqn:E; [apply keqb_eq in E; auto|].
    apply keqb_neq in E. auto.
Qed.

Lemma distinct_NoDup (l : list K) : NoDup (distinct l).
Proof.
  induction l as [|h t IH]; simpl; constructor.
  - rewrite filter_In, negb_true_iff, keqb_neq. intros [_ N]. now apply N.
  - now apply NoDup_filter.
Qed.

Lemma present_keys_In (key : A -> option K) (rows : list A) (k : K) :
  In k (present_keys key rows) <-> exists r, In r rows /\ key r = Some k.
Proof.
  unfold present_keys. rewrite in_flat_map. split.
  - intros (r & I & Hk). exists r. split; [exact I|].
    destruct (key r); simpl in Hk; [destruct Hk as [->|[]]; reflexivity|destruct Hk].
  - intros (r & I & E). exists r. split; [exact I|]. rewrite E. now left.
Qed.

Lemma has_key_true (key : A -> option K) (k : K) (r : A) :
  has_key key k r = true <-> key r = Some k.
Proof.
  unfold has_key. destruct (key r) as [k'|]; [|split; discriminate].
  rewrite keqb_eq. split; [intros ->; reflexivity|intros E; now inversion E].
Qed.

Lemma groupby_keys (key : A -> option K) (rows : list A) :
  map fst (groupby key rows) = sort_by kleb (distinct (present_keys key rows)).
Proof. unfold groupby. rewrite map_map. simpl. apply map_id. Qed.

Lemma groupby_In (key : A -> option K) (rows : list A) (k : K) (g : list A) :
  In (k, g) (groupby key rows) <->
  (exists r, In r rows /\ key r = Some k) /\ g = filter (has_key key k) rows.
Proof.
  unfold groupby. rewrite in_map_iff. split.
  - intros (k' & E & I). inversion E; subst. split; [|reflexivity].
    now apply present_keys_In, distinct_In, (sort_by_In kleb).
  - intros [Hr ->]. exists k. split; [reflexivity|].
    now apply (sort_by_In kleb), distinct_In, present_keys_In.
Qed.

Lemma groupby_NoDup (key : A -> option K) (rows : list A) :
  NoDup (map fst (groupby key rows)).
Proof.
  rewrite groupby_keys.
  eapply Permutation_NoDup; [symmetry; apply sort_by_perm|apply distinct_NoDup].
Qed.

Lemma groupby_sorted (key : A -> option K) (rows : list A) :
  StronglySorted (fun a b => kleb a b = true) (map fst (groupby key rows)).
Proof.
  rewrite groupby_keys. apply sort_by_sorted; [apply kleb_total|apply kleb_trans].
Qed.

Lemma group_nonempty (key : A -> option K) (rows : list A) (k : K) (g : list A) :
  In (k, g) (groupby key rows) -> g <> [].
Proof.
  intros I. apply groupby_In in I. destruct I as [(r & I & E) ->].
  intros N. assert (In r (filter (has_key key k) rows)) as X
    by (apply filter_In; split; [exact I|now apply has_key_true]).
  rewrite N in X. destruct X.
Qed.

Lemma lookup_In {V} (k : K) (l : list (K * V)) (v : V) :
  lookup k l = Some v -> In (k, v) l.
Proof.
  induction l as [|[k' v'] t IH]; simpl; [discriminate|].
  destruct (keqb k k') eqn:E.
  - apply keqb_eq in E; subst. intros X; inversion X; subst. now left.
  - auto.
Qed.

Lemma lookup_None {V} (k : K) (l : list (K * V)) :
  (forall v, ~ In (k, v) l) -> lookup k l = None.
Proof.
  intros N. destruct (lookup k l) as [v|] eqn:E; [|reflexivity].
  apply lookup_In in E. now apply N in E.
Qed.

Lemma lookup_unique {V} (k : K) (l : list (K * V)) (v : V) :
  In (k, v) l -> (forall v', In (k, v') l -> v' = v) -> lookup k l = Some v.
Proof.
  intros I U. destruct (lookup k l) as [v'|] eqn:E.
  - apply lookup_In in E. f_equal. now apply U.
  - exfalso. clear U. induction l as [|[k' w] t IH]; simpl in *; [exact I|].
    destruct (keqb k k') eqn:E'; [discriminate|].
    destruct I as [X|X]; [inversion X; subst; rewrite keqb_refl in E'; discriminate|auto].
Qed.
End GroupFacts.

Section MergeFacts.
Context {L R O : Type}.

(** At most one row of a table with distinct keys passes a test that pins
    the key. *)
Lemma filter_unique {T} (f : R -> T) (p : R -> bool) (k : T) (l : list R) :
  NoDup (map f l) -> (forall r, In r l -> p r = true -> f r = k) ->
  (List.length (filter p l) <= 1)%nat.
Proof.
  induction l as [|h t IH]; simpl; intros ND Hp; [lia|].
  inversion ND as [|? ? Nin ND']; subst.
  destruct (p h) eqn:E.
  - assert (filter p t = []) as ->; [|simpl; lia].
    destruct (filter p t) as [|r ?] eqn:F; [reflexivity|exfalso].
    assert (In r (filter p t)) as I by (rewrite F; now left).
    apply filter_In in I. destruct I as [I Pr].
    apply Nin. rewrite (Hp h (or_introl eq_refl) E), <- (Hp r (or_intror I) Pr).
    now apply in_map.
  - apply IH; auto.
Qed.

(** A left merge against a right table with at most one match per row
    keeps the left rows one for one. *)
Lemma merge_left_map (on : L -> R -> bool) (join : L -> option R -> O)
      (left : list L) (right : list R) :
  (forall l, In l left -> (List.length (filter (on l) right) <= 1)%nat) ->
  merge_left on join left right = map (fun l => join l (find (on l) right)) left.
Proof.
  induction left as [|h t IH]; intros U; [reflexivity|].
  change (merge_left on join (h :: t) right)
    with (match filter (on h) right with
          | [] => [join h None]
          | ms => map (fun r => join h (Some r)) ms
          end ++ merge_left on join t right).
  rewrite IH by (intros; apply U; now right).
  cbn [map].
  specialize (U h (or_introl eq_refl)).
  assert (forall l, find (on h) l = hd_error (filter (on h) l)) as ->.
  { induction l as [|a l IHl]; simpl; [reflexivity|]. destruct (on h a); auto. }
  destruct (filter (on h) right) as [|r [|r' ?]]; simpl in U |- *; try reflexivity. lia.
Qed.
End MergeFacts.

Lemma drop_duplicates_In {R K} `{KeyLaws K} (key : R -> option K) (rows : list R) (r : R) :
  In r (drop_duplicates key rows) -> In r rows.
Proof.
  revert r. induction rows as [|h t IH]; simpl; [tauto|].
  intros r [E|I]; [now left|right].
  apply filter_In in I. now apply IH.
Qed.

Lemma drop_duplicates_NoDup {R K} `{KeyLaws K} (key : R -> option K) (rows : list R) :
  NoDup (map key (drop_duplicates key rows)).
Proof.
  induction rows as [|h t IH]; simpl; constructor.
  - rewrite in_map_iff. intros (r & E & I).
    apply filter_In in I. destruct I as [_ N].
    rewrite <- E in N. destruct (key r); simpl in N; [|discriminate].
    rewrite keqb_refl in N. discriminate.
  - set (p := fun r' : R => _).
    clearbody p. induction (drop_duplicates key t) as [|a l IHl]; simpl; [constructor|].
    inversion IH; subst. destruct (p a); simpl; auto.
    constructor; auto.
    rewrite in_map_iff. intros (r & E & I). apply filter_In in I.
    match goal with N : ~ In _ _ |- _ => apply N end.
    rewrite <- E. apply in_map. tauto.
Qed.

Section OrderFacts.
Context {A : Type} (R : A -> A -> Prop).

Lemma sorted_nth (d : A) (l : list A) (i j : nat) :
  StronglySorted R l -> (i < j < List.length l)%nat -> R (nth i l d) (nth j l d).
Proof.
  intros S. revert i j. induction S as [|h t S IH Fa]; simpl; intros i j Hij; [lia|].
  destruct j as [|j]; [lia|]. destruct i as [|i].
  - rewrite Forall_forall in Fa. apply Fa, nth_In. lia.
  - apply IH. lia.
Qed.
End OrderFacts.

Section ShiftFacts.
Context {A K V : Type} `{KeyLaws K}.
Variables (key : A -> K) (val : A -> V).

Lemma group_shift_length (last : list (K * V)) (rows : list A) :
  List.length (group_shift key val last rows) = List.length rows.
Proof.
  revert last. induction rows as [|r t IH]; simpl; intros; [reflexivity|].
  now rewrite IH.
Qed.

(** The shifted value at position [i] is found among the rows before [i],
    nearest first, then among the rows passed earlier. *)
Lemma group_shift_nth (d : A) (last : list (K * V)) (rows : list A) (i : nat) :
  (i < List.length rows)%nat ->
  nth i (group_shift key val last rows) None =
  lookup (key (nth i rows d))
         (map (fun r => (key r, val r)) (rev (firstn i rows)) ++ last).
Proof.
  revert last i. induction rows as [|r t IH]; simpl; intros last i Hi; [lia|].
  destruct i as [|i]; [reflexivity|].
  rewrite IH by lia. simpl. rewrite map_app, <- app_assoc. reflexivity.
Qed.
End ShiftFacts.

End FrameFacts.

(** ** The stages of the feature builder *)

Module BuildFacts.
Import Frame FrameFacts Build Stages.

Lemma feature_table_stages joined roads cjoin :
  feature_table joined roads cjoin =
  high_risk_column (add_lags (sorted_frame joined roads cjoin)).
Proof. reflexivity. Qed.

Lemma sum_ones {T} (l : list T) : sum_Z (map (fun _ => 1) l) = Z.of_nat (List.length l).
Proof.
  unfold sum_Z. induction l as [|h t IH]; [reflexivity|].
  cbn [map List.length fold_right]. rewrite IH. lia.
Qed.

Lemma aggregate_core joined :
  map core (aggregate joined) =
  map (fun kg => (fst kg, Z.of_nat (List.length (snd kg)))) (groupby segment_year (jrows joined)).
Proof.
  unfold aggregate. rewrite map_map. apply map_ext. intros [k g]. unfold core. simpl.
  now rewrite sum_ones.
Qed.

Lemma add_sums_core present src set joined agg :
  (forall a v, core (set a v) = core a) ->
  map core (add_sums present src set joined agg) = map core agg.
Proof.
  intros Hset. unfold add_sums. destruct present.
  - rewrite merge_left_map.
    + rewrite map_map. apply map_ext. intros a. apply Hset.
    + intros a _. apply (filter_unique fst _ (a_key a)).
      * unfold group_sums. rewrite map_map. simpl.
        change (fun x : Z * Z * list JoinedRow => fst x) with (@fst (Z * Z) (list JoinedRow)).
        apply groupby_NoDup.
      * intros s _ E. unfold on_key in E. apply keqb_eq in E. now symmetry.
  - rewrite map_map. apply map_ext. intros a. apply Hset.
Qed.

Lemma merge_roads_core agg roads : map core (merge_roads agg roads) = map core agg.
Proof.
  unfold merge_roads. rewrite merge_left_map.
  - rewrite map_map. now apply map_ext.
  - intros a _. apply (filter_unique r_RD_SEGMENT_ID _ (Some (fst (a_key a)))).
    + apply drop_duplicates_NoDup.
    + intros r _ E. unfold on_segment in E.
      destruct (r_RD_SEGMENT_ID r); [|discriminate].
      apply keqb_eq in E. now subst.
Qed.

Lemma merge_construction_core df cjoin :
  map core (merge_construction df (option_map construction_flags cjoin)) = map core df.
Proof.
  destruct cjoin as [cj|]; simpl.
  - rewrite merge_left_map.
    + rewrite map_map. now apply map_ext.
    + intros a _. apply (filter_unique fst _ (fst (a_key a))).
      * unfold construction_flags. rewrite map_map. simpl.
        change (fun x : Z * list (option Z * option Z) => fst x)
          with (@fst Z (list (option Z * option Z))).
        apply groupby_NoDup.
      * intros s _ E. apply Z.eqb_eq in E. now symmetry.
  - rewrite map_map. now apply map_ext.
Qed.

Lemma merged_core joined roads cjoin :
  map core (merged joined roads cjoin) =
  map (fun kg => (fst kg, Z.of_nat (List.length (snd kg)))) (groupby segment_year (jrows joined)).
Proof.
  unfold merged.
  rewrite merge_construction_core, merge_roads_core, !add_sums_core by reflexivity.
  apply aggregate_core.
Qed.

Lemma combine_seq_snd {T U} (h : T -> U) (l : list T) (s : nat) :
  map (fun ia : nat * T => h (snd ia)) (combine (seq s (List.length l)) l) = map h l.
Proof.
  revert s. induction l as [|a l IH]; simpl; intros; [reflexivity|]. now rewrite IH.
Qed.

Lemma combine_seq_fst {T} (l : list T) (s : nat) :
  map fst (combine (seq s (List.length l)) l) = seq s (List.length l).
Proof.
  revert s. induction l as [|a l IH]; simpl; intros; [reflexivity|]. now rewrite IH.
Qed.

Lemma fill_numeric_core df : map filled_core (fill_numeric df) = map core df.
Proof.
  unfold fill_numeric. rewrite map_map.
  rewrite <- (combine_seq_snd core df 0). apply map_ext.
  intros [i a]. unfold filled_core, core, sort_key. simpl. now destruct (a_key a).
Qed.

Lemma fill_numeric_idx df : map idx (fill_numeric df) = seq 0 (List.length df).
Proof.
  unfold fill_numeric. rewrite map_map. simpl.
  change (fun x : nat * AggRow => fst x) with (@fst nat AggRow).
  apply combine_seq_fst.
Qed.

Lemma sorted_frame_perm joined roads cjoin :
  Permutation (sorted_frame joined roads cjoin) (fill_numeric (merged joined roads cjoin)).
Proof. apply sort_by_perm. Qed.

Lemma sorted_frame_idx joined roads cjoin : NoDup (map idx (sorted_frame joined roads cjoin)).
Proof.
  eapply Permutation_NoDup.
  - symmetry. apply Permutation_map, sorted_frame_perm.
  - rewrite fill_numeric_idx. apply seq_NoDup.
Qed.

Lemma sorted_frame_keys joined roads cjoin :
  NoDup (map sort_key (sorted_frame joined roads cjoin)).
Proof.
  eapply Permutation_NoDup.
  - symmetry. apply Permutation_map, sorted_frame_perm.
  - assert (map sort_key (fill_numeric (merged joined roads cjoin)) =
            map fst (groupby segment_year (jrows joined))) as ->.
    { change sort_key with (fun f => fst (filled_core f)).
      rewrite <- (map_map filled_core fst), fill_numeric_core, merged_core, map_map.
      reflexivity. }
    apply groupby_NoDup.
Qed.

Lemma sorted_frame_sorted joined roads cjoin :
  StronglySorted (fun a b => kleb (sort_key a) (sort_key b) = true)
                 (sorted_frame joined roads cjoin).
Proof.
  apply sort_by_sorted.
  - intros a b. apply kleb_total.
  - intros a b c. apply kleb_trans.
Qed.

(** Every row of the frame is the aggregate of a non-empty group of events. *)
Lemma sorted_frame_In joined roads cjoin f :
  In f (sorted_frame joined roads cjoin) ->
  collisions_total f = Z.of_nat (List.length (events_of joined (sort_key f))) /\
  events_of joined (sort_key f) <> [].
Proof.
  intros I. apply (Permutation_in _ (sorted_frame_perm _ _ _)) in I.
  apply (in_map filled_core) in I. rewrite fill_numeric_core, merged_core in I.
  apply in_map_iff in I. destruct I as ([k g] & E & I).
  unfold filled_core in E. simpl in E. injection E as Ek Ec.
  pose proof (group_nonempty _ _ _ _ I) as NE.
  apply groupby_In in I. destruct I as [_ Eg]. unfold events_of.
  rewrite <- Ek, <- Eg, <- Ec. now split.
Qed.

(** *** Lag columns *)

Lemma lag_column_length col df : List.length (lag_column col df) = List.length df.
Proof. unfold lag_column. now rewrite length_map, group_shift_length. Qed.

Lemma lag_column_nth col df i : nth i (lag_column col df) 0 = lag_at col df i.
Proof.
  unfold lag_column, lag_at.
  exact (map_nth (fillna 0) (group_shift RD_SEGMENT_ID col [] df) None i).
Qed.

Lemma add_lags_length df : List.length (add_lags df) = List.length df.
Proof.
  unfold add_lags.
  rewrite length_combine, length_map, !length_combine, !lag_column_length. lia.
Qed.

Lemma add_lags_nth df i :
  nth i (add_lags df) (default_filled, default_lags) =
  (nth i df default_filled,
   mkLags (lag_at collisions_total df i) (lag_at fatal_major df i)
          (lag_at injuries_total df i)).
Proof.
  unfold add_lags. rewrite combine_nth.
  - f_equal.
    change default_lags
      with ((fun t : Z * (Z * Z) => mkLags (fst t) (fst (snd t)) (snd (snd t))) (0, (0, 0))).
    rewrite map_nth, combine_nth.
    + rewrite combine_nth by (now rewrite !lag_column_length).
      simpl. now rewrite !lag_column_nth.
    + now rewrite length_combine, !lag_column_length, Nat.min_id.
  - now rewrite length_map, !length_combine, !lag_column_length, !Nat.min_id.
Qed.

Lemma add_lags_fst df : map fst (add_lags df) = df.
Proof.
  apply nth_ext with (d := default_filled) (d' := default_filled).
  - now rewrite length_map, add_lags_length.
  - intros i _.
    change default_filled with (fst (default_filled, default_lags)) at 1.
    now rewrite map_nth, add_lags_nth.
Qed.

Lemma high_risk_column_base l : map base (high_risk_column l) = map fst l.
Proof. unfold high_risk_column. rewrite map_map. reflexivity. Qed.

Lemma high_risk_column_lags l : map lags (high_risk_column l) = map snd l.
Proof. unfold high_risk_column. rewrite map_map. reflexivity. Qed.

Lemma feature_table_base joined roads cjoin :
  map base (feature_table joined roads cjoin) = sorted_frame joined roads cjoin.
Proof. now rewrite feature_table_stages, high_risk_column_base, add_lags_fst. Qed.

Lemma feature_table_length joined roads cjoin :
  List.length (feature_table joined roads cjoin) =
  List.length (sorted_frame joined roads cjoin).
Proof. now rewrite <- feature_table_base, length_map. Qed.

Lemma feature_table_nth joined roads cjoin i :
  let df := sorted_frame joined roads cjoin in
  let r := nth i (feature_table joined roads cjoin) default_row in
  base r = nth i df default_filled /\
  lags r = mkLags (lag_at collisions_total df i) (lag_at fatal_major df i)
                  (lag_at injuries_total df i).
Proof.
  intros df r. subst df r. split.
  - rewrite <- (feature_table_base joined roads cjoin).
    symmetry. exact (map_nth base _ default_row i).
  - transitivity (nth i (map lags (feature_table joined roads cjoin)) (lags default_row));
      [symmetry; apply map_nth|].
    rewrite feature_table_stages, high_risk_column_lags.
    change (lags default_row) with (snd (default_filled, default_lags)).
    now rewrite (map_nth snd), add_lags_nth.
Qed.

Lemma firstn_succ_nth {T} (d : T) (l : list T) (i : nat) :
  (i < List.length l)%nat -> firstn (S i) l = firstn i l ++ [nth i l d].
Proof.
  revert i. induction l as [|h t IH]; simpl; intros i Hi; [lia|].
  destruct i as [|i]; [reflexivity|]. simpl. f_equal. apply IH. lia.
Qed.

Lemma firstn_In_nth {T} (d : T) (l : list T) (i : nat) (a : T) :
  In a (firstn i l) -> exists j, (j < i)%nat /\ (j < List.length l)%nat /\ nth j l d = a.
Proof.
  revert i. induction l as [|h t IH]; intros i I.
  - rewrite firstn_nil in I. destruct I.
  - destruct i as [|i]; [destruct I|]. simpl in I. destruct I as [E|I].
    + exists 0%nat. simpl. repeat split; auto; lia.
    + destruct (IH _ I) as (j & Hj & Hl & E). exists (S j). simpl. repeat split; auto; lia.
Qed.

Lemma key_le_segment (a b : Filled) :
  kleb (sort_key a) (sort_key b) = true -> RD_SEGMENT_ID a <= RD_SEGMENT_ID b.
Proof.
  unfold sort_key. simpl. destruct (Z.eqb_spec (RD_SEGMENT_ID a) (RD_SEGMENT_ID b)); [lia|].
  rewrite Z.leb_le. lia.
Qed.

Lemma key_le_year (a b : Filled) :
  kleb (sort_key a) (sort_key b) = true -> RD_SEGMENT_ID a = RD_SEGMENT_ID b ->
  year a <= year b.
Proof.
  unfold sort_key. simpl. intros L E. rewrite E, Z.eqb_refl in L. now apply Z.leb_le.
Qed.

Lemma key_sorted_nth df i j :
  key_sorted df -> (i < j < List.length df)%nat ->
  kleb (sort_key (nth i df default_filled)) (sort_key (nth j df default_filled)) = true.
Proof.
  intros S Hij.
  exact (sorted_nth (fun a b => kleb (sort_key a) (sort_key b) = true)
                    default_filled df i j S Hij).
Qed.

(** A row that follows a row of the same segment takes its lag from it. *)
Lemma lag_at_prev col df i :
  (S i < List.length df)%nat ->
  RD_SEGMENT_ID (nth i df default_filled) = RD_SEGMENT_ID (nth (S i) df default_filled) ->
  lag_at col df (S i) = col (nth i df default_filled).
Proof.
  intros Hi E. unfold lag_at.
  rewrite (group_shift_nth _ _ default_filled) by exact Hi.
  rewrite (firstn_succ_nth default_filled) by lia.
  rewrite rev_app_distr. simpl. now rewrite E, Z.eqb_refl.
Qed.

(** A row that opens its segment in a sorted frame has lag zero. *)
Lemma lag_at_first col df i :
  key_sorted df ->
  (i < List.length df)%nat ->
  (i = 0%nat \/
   RD_SEGMENT_ID (nth (pred i) df default_filled) <> RD_SEGMENT_ID (nth i df default_filled)) ->
  lag_at col df i = 0.
Proof.
  intros S Hi First. unfold lag_at.
  rewrite (group_shift_nth _ _ default_filled) by exact Hi.
  rewrite lookup_None; [reflexivity|].
  intros v I. rewrite app_nil_r in I. apply in_map_iff in I.
  destruct I as (a & E & I). apply in_rev, (firstn_In_nth default_filled) in I.
  destruct I as (j & Hj & _ & <-). injection E as Eseg _.
  destruct First as [->|N]; [lia|].
  assert (RD_SEGMENT_ID (nth j df default_filled) <=
          RD_SEGMENT_ID (nth (pred i) df default_filled)) as L1.
  { destruct (Nat.eq_dec j (pred i)) as [->|Nj]; [lia|].
    apply key_le_segment, key_sorted_nth; [exact S|lia]. }
  assert (RD_SEGMENT_ID (nth (pred i) df default_filled) <=
          RD_SEGMENT_ID (nth i df default_filled)) as L2.
  { apply key_le_segment, key_sorted_nth; [exact S|lia]. }
  lia.
Qed.

Section SortedFrame.
Variable df : list Filled.
Hypothesis Hsorted : key_sorted df.
Hypothesis Hkeys : NoDup (map sort_key df).

Let row (i : nat) : Filled := nth i df default_filled.

Lemma key_nth_inj i j :
  (i < List.length df)%nat -> (j < List.length df)%nat ->
  RD_SEGMENT_ID (row i) = RD_SEGMENT_ID (row j) -> year (row i) = year (row j) -> i = j.
Proof.
  intros Hi Hj Es Ey.
  apply (proj1 (NoDup_nth (map sort_key df) (sort_key default_filled)) Hkeys);
    rewrite ?length_map; auto.
  rewrite !map_nth. unfold sort_key. fold (row i) (row j). congruence.
Qed.

(** Positions are ordered as the keys are. *)
Lemma key_order i j :
  (i < j < List.length df)%nat ->
  RD_SEGMENT_ID (row i) < RD_SEGMENT_ID (row j) \/
  (RD_SEGMENT_ID (row i) = RD_SEGMENT_ID (row j) /\ year (row i) < year (row j)).
Proof.
  intros Hij. pose proof (key_sorted_nth df i j Hsorted Hij) as L. fold (row i) (row j) in L.
  pose proof (key_le_segment _ _ L) as Ls.
  destruct (Z.eq_dec (RD_SEGMENT_ID (row i)) (RD_SEGMENT_ID (row j))) as [E|N]; [right|lia].
  split; [exact E|].
  pose proof (key_le_year _ _ L E) as Ly.
  destruct (Z.eq_dec (year (row i)) (year (row j))) as [Ey|]; [|lia].
  assert (i = j) by (apply key_nth_inj; auto; lia). lia.
Qed.

Lemma first_of_segment i :
  (i < List.length df)%nat ->
  (forall j, (j < List.length df)%nat -> RD_SEGMENT_ID (row j) = RD_SEGMENT_ID (row i) ->
             year (row i) <= year (row j)) ->
  i = 0%nat \/ RD_SEGMENT_ID (row (pred i)) <> RD_SEGMENT_ID (row i).
Proof.
  intros Hi Hmin. destruct i as [|i]; [now left|right]. simpl. intros E.
  destruct (key_order i (S i)) as [L|[_ L]]; [lia|lia|].
  specialize (Hmin i ltac:(lia) E). lia.
Qed.

Lemma previous_of_segment i j :
  (i < List.length df)%nat -> (j < List.length df)%nat ->
  RD_SEGMENT_ID (row j) = RD_SEGMENT_ID (row i) -> year (row j) < year (row i) ->
  (forall k, (k < List.length df)%nat -> RD_SEGMENT_ID (row k) = RD_SEGMENT_ID (row i) ->
             ~ (year (row j) < year (row k) < year (row i))) ->
  i = S j.
Proof.
  intros Hi Hj Es Ey Gap.
  assert (j < i)%nat as Hji.
  { destruct (Nat.lt_trichotomy j i) as [L|[->|L]]; [exact L|lia|].
    destruct (key_order i j) as [X|[_ X]]; lia. }
  destruct (Nat.eq_dec i (S j)) as [E|N]; [exact E|exfalso].
  destruct (key_order j (S j)) as [X|[X1 X2]]; [lia| |];
    destruct (key_order (S j) i) as [Y|[Y1 Y2]]; try lia.
  apply (Gap (S j)); [lia|congruence|lia].
Qed.
End SortedFrame.

(** Every (segment, year) pair with a joined event has its row. *)
Lemma sorted_frame_complete joined roads cjoin k :
  events_of joined k <> [] ->
  exists f, In f (sorted_frame joined roads cjoin) /\ sort_key f = k.
Proof.
  intros NE. unfold events_of in NE.
  destruct (filter (has_key segment_year k) (jrows joined)) as [|e g] eqn:F; [congruence|].
  assert (In e (filter (has_key segment_year k) (jrows joined))) as I by (rewrite F; now left).
  apply filter_In in I. destruct I as [I Hk]. apply has_key_true in Hk.
  assert (In (k, e :: g) (groupby segment_year (jrows joined))) as G.
  { apply groupby_In. split; [exists e; auto|now rewrite F]. }
  apply (in_map (fun kg => (fst kg, Z.of_nat (List.length (snd kg))))) in G.
  rewrite <- (merged_core joined roads cjoin), <- fill_numeric_core in G.
  apply in_map_iff in G.
  destruct G as (f & E & If). exists f. split.
  - apply (Permutation_in _ (Permutation_sym (sorted_frame_perm _ _ _))). exact If.
  - unfold filled_core in E. simpl in E. congruence.
Qed.

(** *** Labels *)

Lemma NoDup_map_inj {T U} (f : T -> U) (l : list T) (a b : T) :
  NoDup (map f l) -> In a l -> In b l -> f a = f b -> a = b.
Proof.
  induction l as [|h t IH]; simpl; intros ND Ia Ib E; [destruct Ia|].
  inversion ND as [|? ? Nin ND']; subst.
  destruct Ia as [->|Ia], Ib as [->|Ib]; auto.
  - exfalso. apply Nin. rewrite E. now apply in_map.
  - exfalso. apply Nin. rewrite <- E. now apply in_map.
Qed.

Lemma labels_In l i v :
  In (i, v) (labels l) <-> exists r, In r l /\ idx (fst r) = i /\ v = label_of l r.
Proof.
  unfold labels. rewrite in_flat_map. split.
  - intros ([y g] & G & I). simpl in I. apply in_map_iff in I.
    destruct I as (r & E & I). injection E as Ei Ev.
    apply groupby_In in G. destruct G as [_ ->].
    pose proof I as I'. apply filter_In in I'. destruct I' as [Il Hk].
    apply has_key_true in Hk. injection Hk as Hy.
    exists r. repeat split; auto. unfold label_of. now rewrite Hy.
  - intros (r & I & Ei & ->).
    exists (year (fst r), filter (has_key year_key (year (fst r))) l). split.
    + apply groupby_In. split; [exists r; split; auto|reflexivity].
    + simpl. apply in_map_iff. exists r. split; [now rewrite Ei|].
      apply filter_In. split; [exact I|]. now apply has_key_true.
Qed.

Lemma series_lookup l r :
  NoDup (map (fun r => idx (fst r)) l) -> In r l ->
  lookup (idx (fst r)) (sort_index (labels l)) = Some (label_of l r).
Proof.
  intros ND I. apply lookup_unique.
  - apply sort_by_In, labels_In. exists r. auto.
  - intros v' I'. apply sort_by_In, labels_In in I'.
    destruct I' as (r' & Ir' & E & ->).
    now rewrite (NoDup_map_inj _ _ _ _ ND Ir' I E).
Qed.

Lemma cohort_totals l y :
  totals (cohort y (high_risk_column l)) =
  map (fun r => collisions_total (fst r)) (filter (has_key year_key y) l).
Proof.
  unfold high_risk_column, totals, cohort.
  generalize (sort_index (labels l)). intros series.
  induction l as [|r t IH]; simpl; [reflexivity|].
  unfold has_key at 1. simpl. rewrite (Z.eqb_sym y).
  destruct (year (fst r) =? y); simpl; now rewrite IH.
Qed.

(** The label of every record of the output, against its own cohort. *)
Lemma high_risk_spec joined roads cjoin r :
  let out := feature_table joined roads cjoin in
  In r out ->
  high_risk r = Some (at_or_above (collisions_total (base r))
                        (quantile (totals (cohort (year (base r)) out)) (4 # 5))).
Proof.
  intros out I. subst out. rewrite feature_table_stages in *.
  set (l := add_lags (sorted_frame joined roads cjoin)) in *.
  rewrite cohort_totals.
  unfold high_risk_column in I. apply in_map_iff in I. destruct I as (a & <- & I). simpl.
  rewrite series_lookup; [reflexivity| |exact I].
  rewrite <- (map_map fst idx). subst l. rewrite add_lags_fst. apply sorted_frame_idx.
Qed.

(** *** The returned table *)

Lemma groupby_nil {A K} `{KeyLaws K} (key : A -> option K) (rows : list A) :
  groupby key rows = [] <-> forall r, In r rows -> key r = None.
Proof.
  split.
  - intros E r I. destruct (key r) as [k|] eqn:Ek; [exfalso|reflexivity].
    assert (In (k, filter (has_key key k) rows) (groupby key rows)) as G
      by (apply groupby_In; eauto).
    rewrite E in G. destruct G.
  - intros Hn. destruct (groupby key rows) as [|[k g] t] eqn:E; [reflexivity|exfalso].
    assert (In (k, g) (groupby key rows)) as G by (rewrite E; now left).
    apply groupby_In in G. destruct G as [(r & I & Ek) _].
    rewrite (Hn r I) in Ek. discriminate.
Qed.

Lemma assign_high_risk_result (df : list (Filled * Lags)) :
  assign_high_risk df =
  match df with
  | [] => Geo.Err (Geo.ValueError "No objects to concatenate")
  | _ => Geo.Ok (high_risk_column df)
  end.
Proof.
  unfold assign_high_risk.
  destruct (groupby (fun r : Filled * Lags => Some (year (fst r))) df) as [|g t] eqn:E.
  - destruct df as [|r l]; [reflexivity|].
    pose proof (proj1 (groupby_nil (fun r : Filled * Lags => Some (year (fst r))) (r :: l)) E
                      r (or_introl eq_refl)) as X.
    discriminate X.
  - destruct df as [|r l]; [discriminate E|reflexivity].
Qed.

(** The builder returns its table unless the frame has no row, where the
    concatenation of the labels raises. *)
Lemma build_features_result joined roads cjoin :
  build_features joined roads cjoin =
  match sorted_frame joined roads cjoin with
  | [] => Geo.Err (Geo.ValueError "No objects to concatenate")
  | _ => Geo.Ok (feature_table joined roads cjoin)
  end.
Proof.
  change (build_features joined roads cjoin)
    with (assign_high_risk (add_lags (sorted_frame joined roads cjoin))).
  rewrite assign_high_risk_result. unfold feature_table.
  pose proof (add_lags_length (sorted_frame joined roads cjoin)) as L.
  destruct (sorted_frame joined roads cjoin), (add_lags _); try discriminate L; reflexivity.
Qed.

Lemma build_features_ok joined roads cjoin out :
  build_features joined roads cjoin = Geo.Ok out -> out = feature_table joined roads cjoin.
Proof.
  rewrite build_features_result. destruct (sorted_frame joined roads cjoin); [discriminate|].
  intros E. now injection E.
Qed.

Lemma build_features_returns joined roads cjoin :
  feature_table joined roads cjoin <> [] ->
  build_features joined roads cjoin = Geo.Ok (feature_table joined roads cjoin).
Proof.
  intros NE. rewrite build_features_result.
  pose proof (feature_table_length joined roads cjoin) as L.
  destruct (sorted_frame joined roads cjoin); [|reflexivity].
  destruct (feature_table joined roads cjoin); [congruence|discriminate L].
Qed.

End BuildFacts.

(** ** The 0.8 quantile over integer totals *)

Module QuantileFacts.
Import Frame FrameFacts Stages.

Lemma quantile_80 (xs : list Z) :
  xs <> [] -> exists t, quantile xs (4 # 5) = Some t /\ (t == thr5 xs # 5)%Q.
Proof.
  intros NE. unfold quantile. destruct xs as [|x0 xs']; [congruence|].
  set (xs := x0 :: xs') in *.
  eexists. split; [reflexivity|].
  unfold thr5, q_a, q_b, q_rem, q_hi, q_lo, q_len, q_sorted.
  set (s := sort_by Z.leb xs). set (n := Z.of_nat (List.length s)).
  unfold Qfloor. cbn [Qmult inject_Z Qnum Qden].
  change (1 * 5)%positive with 5%positive.
  set (lo := (n - 1) * 4 / 5).
  set (a := nth (Z.to_nat lo) s 0). set (b := nth _ s 0).
  unfold Qeq, Qminus, Qplus, Qopp, Qmult. cbn [Qnum Qden].
  unfold inject_Z. cbn [Qnum Qden].
  change (Z.pos (1 * 5 * 1 * 1)) with 5. change (Z.pos (1 * (1 * 5 * 1 * 1))) with 5.
  change (Z.pos (1 * 5)) with 5. change (QDen (lo # 1)) with 1.
  change (QDen (a # 1)) with 1.
  clearbody a b.
  assert ((n - 1) * 4 * 1 + - lo * 5 = ((n - 1) * 4) mod 5) as ->.
  { subst lo. pose proof (Z.div_mod ((n - 1) * 4) 5 ltac:(lia)). lia. }
  generalize (((n - 1) * 4) mod 5). intros r. lia.
Qed.

Lemma threshold_le (t : Q) (T c : Z) :
  (t == T # 5)%Q -> Qle_bool t (inject_Z c) = (T <=? 5 * c).
Proof.
  intros E. apply Bool.eq_iff_eq_true. rewrite Qle_bool_iff, Z.leb_le, E.
  unfold Qle, inject_Z. cbn [Qnum Qden]. lia.
Qed.

Lemma threshold_eq (t : Q) (T c : Z) :
  (t == T # 5)%Q -> Qeq_bool t (inject_Z c) = (T =? 5 * c).
Proof.
  intros E. apply Bool.eq_iff_eq_true. rewrite Qeq_bool_iff, Z.eqb_eq, E.
  unfold Qeq, inject_Z. cbn [Qnum Qden]. lia.
Qed.

Lemma q_sorted_perm xs : Permutation (q_sorted xs) xs.
Proof. apply sort_by_perm. Qed.

Lemma q_sorted_sorted xs : StronglySorted Z.le (q_sorted xs).
Proof.
  assert (StronglySorted (fun a b => Z.leb a b = true) (q_sorted xs)) as S.
  { apply sort_by_sorted; intros *; rewrite !Z.leb_le; lia. }
  induction S as [|h t S IH Fa]; constructor; auto.
  eapply Forall_impl; [|exact Fa]. intros b. apply Z.leb_le.
Qed.

Lemma q_len_pos xs : xs <> [] -> 1 <= q_len xs.
Proof.
  intros NE. unfold q_len, q_sorted. rewrite sort_by_length.
  destruct xs; [congruence|]. simpl List.length. lia.
Qed.

Lemma q_bounds xs :
  xs <> [] ->
  0 <= q_lo xs /\ q_lo xs <= q_hi xs /\ q_hi xs < q_len xs /\
  0 <= q_rem xs <= 4 /\ q_hi xs <= q_lo xs + 1 /\
  (q_lo xs + 1 < q_len xs -> q_hi xs = q_lo xs + 1).
Proof.
  intros NE. pose proof (q_len_pos xs NE) as Hn.
  unfold q_hi, q_rem, q_lo.
  pose proof (Z.div_mod ((q_len xs - 1) * 4) 5 ltac:(lia)) as D.
  pose proof (Z.mod_pos_bound ((q_len xs - 1) * 4) 5 ltac:(lia)) as M.
  lia.
Qed.

Lemma q_sorted_nth_le xs i j :
  (i <= j < List.length (q_sorted xs))%nat ->
  nth i (q_sorted xs) 0 <= nth j (q_sorted xs) 0.
Proof.
  intros Hij. destruct (Nat.eq_dec i j) as [->|N]; [lia|].
  apply (sorted_nth Z.le 0 (q_sorted xs) i j (q_sorted_sorted xs)). lia.
Qed.

Lemma thr5_between xs :
  xs <> [] -> 5 * q_a xs <= thr5 xs <= 5 * q_b xs.
Proof.
  intros NE. pose proof (q_bounds xs NE) as (H0 & H1 & H2 & H3 & _).
  assert (q_a xs <= q_b xs) as Hab.
  { apply q_sorted_nth_le. unfold q_len in H2. lia. }
  unfold thr5. nia.
Qed.

(** The maximum is never below the threshold. *)
Lemma thr5_le_max xs m :
  xs <> [] -> (forall c, In c xs -> c <= m) -> thr5 xs <= 5 * m.
Proof.
  intros NE Hmax. pose proof (thr5_between xs NE) as [_ Hb].
  pose proof (q_bounds xs NE) as (H0 & H1 & H2 & _).
  assert (In (q_b xs) xs) as I.
  { apply (Permutation_in _ (q_sorted_perm xs)). apply nth_In. unfold q_len in H2. lia. }
  specialize (Hmax _ I). lia.
Qed.

Lemma count_perm {T} (p : T -> bool) (l l' : list T) :
  Permutation l l' -> count p l = count p l'.
Proof.
  unfold count. induction 1 as [|a l l' P IH|a b l|l l' l'' P1 IH1 P2 IH2]; simpl.
  - reflexivity.
  - destruct (p a); simpl; now rewrite IH.
  - destruct (p a), (p b); reflexivity.
  - congruence.
Qed.

Lemma count_split {T} (p : T -> bool) (l : list T) (k : nat) :
  count p l = (count p (firstn k l) + count p (skipn k l))%nat.
Proof.
  unfold count. rewrite <- (firstn_skipn k l) at 1. now rewrite filter_app, length_app.
Qed.

Lemma count_all {T} (p : T -> bool) (l : list T) :
  (forall a, In a l -> p a = true) -> count p l = List.length l.
Proof.
  unfold count. induction l as [|h t IH]; simpl; intros Hp; [reflexivity|].
  rewrite (Hp h) by now left. simpl. rewrite IH; auto.
Qed.

Lemma count_none {T} (p : T -> bool) (l : list T) :
  (forall a, In a l -> p a = false) -> count p l = 0%nat.
Proof.
  unfold count. induction l as [|h t IH]; simpl; intros Hp; [reflexivity|].
  rewrite (Hp h) by now left. apply IH; auto.
Qed.

Lemma count_le_length {T} (p : T -> bool) (l : list T) : (count p l <= List.length l)%nat.
Proof. apply filter_length_le. Qed.

Lemma skipn_In_nth {T} (d : T) (l : list T) (k : nat) (a : T) :
  In a (skipn k l) -> exists j, (k <= j < List.length l)%nat /\ nth j l d = a.
Proof.
  revert l. induction k as [|k IH]; intros l I.
  - simpl in I. destruct (In_nth _ _ d I) as (j & Hj & E). exists j. split; [lia|exact E].
  - destruct l as [|h t]; [destruct I|]. simpl in I.
    destruct (IH _ I) as (j & Hj & E). exists (S j). simpl. split; [lia|exact E].
Qed.

Section Counts.
Variable xs : list Z.
Hypothesis NE : xs <> [].

Let k : nat := S (Z.to_nat (q_lo xs)).

Lemma upper_part_at_or_above c :
  In c (skipn k (q_sorted xs)) -> thr5 xs <= 5 * c.
Proof.
  intros I. destruct (skipn_In_nth 0 _ _ _ I) as (j & Hj & <-).
  pose proof (q_bounds xs NE) as (H0 & H1 & H2 & H3 & H4 & H5).
  pose proof (thr5_between xs NE) as [_ Hb].
  assert (q_hi xs = q_lo xs + 1) as Hhi by (apply H5; unfold q_len; subst k; lia).
  assert (q_b xs <= nth j (q_sorted xs) 0); [|lia].
  unfold q_b. apply q_sorted_nth_le. subst k. lia.
Qed.

Lemma lower_part_not_above c :
  In c (firstn k (q_sorted xs)) -> 5 * c <= thr5 xs.
Proof.
  intros I. destruct (BuildFacts.firstn_In_nth 0 _ _ _ I) as (j & Hj & Hl & <-).
  pose proof (q_bounds xs NE) as (H0 & H1 & H2 & _).
  pose proof (thr5_between xs NE) as [Ha _].
  assert (nth j (q_sorted xs) 0 <= q_a xs); [|lia].
  unfold q_a. apply q_sorted_nth_le. subst k. unfold q_len in *. lia.
Qed.

Lemma upper_part_length :
  Z.of_nat (List.length (skipn k (q_sorted xs))) = q_len xs - 1 - q_lo xs.
Proof.
  pose proof (q_bounds xs NE) as (H0 & H1 & H2 & _).
  rewrite length_skipn. subst k. unfold q_len in *. lia.
Qed.

(** At least the records above position [lo] of the sorted cohort reach
    the threshold. *)
Lemma count_ge_lower :
  q_len xs - 1 - q_lo xs <= Z.of_nat (count (fun c => thr5 xs <=? 5 * c) xs).
Proof.
  rewrite <- (count_perm _ _ _ (q_sorted_perm xs)), (count_split _ _ k).
  rewrite (count_all _ (skipn k (q_sorted xs))).
  - rewrite <- upper_part_length. lia.
  - intros c I. apply Z.leb_le. now apply upper_part_at_or_above.
Qed.

(** At most those records are strictly above it. *)
Lemma count_gt_upper :
  Z.of_nat (count (fun c => thr5 xs <? 5 * c) xs) <= q_len xs - 1 - q_lo xs.
Proof.
  rewrite <- (count_perm _ _ _ (q_sorted_perm xs)), (count_split _ _ k).
  rewrite (count_none _ (firstn k (q_sorted xs))).
  - rewrite <- upper_part_length.
    pose proof (count_le_length (fun c => thr5 xs <? 5 * c) (skipn k (q_sorted xs))). lia.
  - intros c I. apply Z.ltb_ge. now apply lower_part_not_above.
Qed.

Lemma q_len_length : q_len xs = Z.of_nat (List.length xs).
Proof. unfold q_len, q_sorted. now rewrite sort_by_length. Qed.

(** The size of the upper part is a fifth of the cohort, rounded. *)
Lemma upper_part_fifth :
  q_len xs - 1 <= 5 * (q_len xs - 1 - q_lo xs) <= q_len xs + 3.
Proof.
  unfold q_lo. pose proof (q_len_pos xs NE).
  pose proof (Z.div_mod ((q_len xs - 1) * 4) 5 ltac:(lia)) as D.
  pose proof (Z.mod_pos_bound ((q_len xs - 1) * 4) 5 ltac:(lia)) as M. lia.
Qed.
End Counts.

Lemma count_ge_gt_eq (T : Z) (l : list Z) :
  count (fun c => T <=? 5 * c) l =
  Nat.add (count (fun c => T <? 5 * c) l) (count (fun c => T =? 5 * c) l).
Proof.
  unfold count. induction l as [|h t IH]; [reflexivity|]. cbn [filter].
  destruct (Z.leb_spec T (5 * h)), (Z.ltb_spec T (5 * h)), (Z.eqb_spec T (5 * h));
    cbn [List.length]; lia.
Qed.

Lemma count_map {T U} (f : T -> U) (p : T -> bool) (q : U -> bool) (l : list T) :
  (forall a, In a l -> p a = q (f a)) -> count p l = count q (map f l).
Proof.
  unfold count. induction l as [|h t IH]; simpl; intros E; [reflexivity|].
  rewrite <- (E h) by now left. destruct (p h); simpl; rewrite IH; auto.
Qed.

End QuantileFacts.

(** ** The segment-year table *)

Module BuildClaims.
Import Frame FrameFacts Build Stages Samples BuildFacts QuantileFacts.

Lemma cohort_In y t r : In r (cohort y t) <-> In r t /\ year (base r) = y.
Proof. unfold cohort. now rewrite filter_In, Z.eqb_eq. Qed.

Lemma totals_nonempty g r : In r g -> totals g <> [].
Proof. unfold totals. destruct g; [intros []|discriminate]. Qed.

(** The label of a record, in integers: five times the total against five
    times the quantile of its cohort. *)
Lemma high_risk_thr5 joined roads cjoin r :
  let out := feature_table joined roads cjoin in
  In r out ->
  high_risk r =
  Some (if thr5 (totals (cohort (year (base r)) out)) <=? 5 * collisions_total (base r)
        then 1 else 0).
Proof.
  intros out I. rewrite (high_risk_spec joined roads cjoin r I). fold out.
  assert (In r (cohort (year (base r)) out)) as Ic by (apply cohort_In; auto).
  destruct (quantile_80 _ (totals_nonempty _ _ Ic)) as (t & -> & E).
  unfold at_or_above. now rewrite (threshold_le _ _ _ E).
Qed.

(** The label of a record against the quantile of its cohort. *)
Lemma table_high_risk_label joined roads cjoin r :
  let out := feature_table joined roads cjoin in
  In r out ->
  exists t,
    quantile (totals (cohort (year (base r)) out)) (4 # 5) = Some t /\
    (high_risk r = Some 1 <-> (t <= inject_Z (collisions_total (base r)))%Q) /\
    (high_risk r = Some 0 <-> ~ (t <= inject_Z (collisions_total (base r)))%Q).
Proof.
  intros out I. rewrite (high_risk_spec joined roads cjoin r I). fold out.
  assert (In r (cohort (year (base r)) out)) as Ic by (apply cohort_In; auto).
  destruct (quantile_80 _ (totals_nonempty _ _ Ic)) as (t & -> & _).
  exists t. split; [reflexivity|]. unfold at_or_above.
  rewrite <- Qle_bool_iff.
  destruct (Qle_bool t (inject_Z (collisions_total (base r)))); split; split;
    intros X; try reflexivity; try discriminate; congruence.
Qed.

(** C1: in the table the feature builder returns, a record is labelled 1
    exactly when its collision total is at or above the 0.8 quantile of the
    collision totals of the records of its own year, and 0 otherwise; the
    threshold is the quantile of that year's records only. *)
Theorem C1_high_risk_label joined roads cjoin out r :
  build_features joined roads cjoin = Geo.Ok out ->
  In r out ->
  exists t,
    quantile (totals (cohort (year (base r)) out)) (4 # 5) = Some t /\
    (high_risk r = Some 1 <-> (t <= inject_Z (collisions_total (base r)))%Q) /\
    (high_risk r = Some 0 <-> ~ (t <= inject_Z (collisions_total (base r)))%Q).
Proof.
  intros E. rewrite (build_features_ok _ _ _ _ E). apply table_high_risk_label.
Qed.

Lemma events_keyed rows k :
  filter (has_key segment_year k) (filter keyed rows) = filter (has_key segment_year k) rows.
Proof.
  induction rows as [|e t IH]; [reflexivity|].
  cbn [filter]. unfold keyed at 1, has_key at 2.
  destruct (segment_year e) eqn:E; cbn [filter].
  - unfold has_key at 1. rewrite E. now rewrite IH.
  - exact IH.
Qed.

Lemma present_keys_keyed rows :
  present_keys segment_year (filter keyed rows) = present_keys segment_year rows.
Proof.
  unfold present_keys. induction rows as [|e t IH]; [reflexivity|].
  cbn [filter flat_map]. unfold keyed at 1.
  destruct (segment_year e) eqn:E; cbn [flat_map]; rewrite ?E, IH; reflexivity.
Qed.

Lemma record_total joined roads cjoin r :
  In r (feature_table joined roads cjoin) ->
  1 <= collisions_total (base r) /\
  collisions_total (base r) =
  Z.of_nat (List.length (events_of joined (RD_SEGMENT_ID (base r), year (base r)))).
Proof.
  intros I. apply (in_map base) in I. rewrite feature_table_base in I.
  destruct (sorted_frame_In _ _ _ _ I) as [E NE]. unfold sort_key in E, NE.
  split; [|exact E]. rewrite E.
  destruct (events_of joined (RD_SEGMENT_ID (base r), year (base r))); [congruence|].
  cbn [List.length]. lia.
Qed.

Lemma record_iff_events joined roads cjoin k :
  (exists r, In r (feature_table joined roads cjoin) /\
             (RD_SEGMENT_ID (base r), year (base r)) = k) <->
  events_of joined k <> [].
Proof.
  split.
  - intros (r & I & <-). apply (in_map base) in I.
    rewrite feature_table_base in I. now apply sorted_frame_In in I.
  - intros NE. destruct (sorted_frame_complete joined roads cjoin k NE) as (f & I & E).
    rewrite <- feature_table_base in I. apply in_map_iff in I.
    destruct I as (r & <- & I). exists r. split; [exact I|exact E].
Qed.

Lemma drop_unkeyed_groups joined :
  groupby segment_year (jrows (drop_unkeyed joined)) = groupby segment_year (jrows joined).
Proof.
  unfold groupby, drop_unkeyed. cbn [jrows]. rewrite present_keys_keyed.
  apply map_ext. intros k. now rewrite events_keyed.
Qed.

Lemma drop_unkeyed_same joined roads cjoin :
  feature_table (drop_unkeyed joined) roads cjoin = feature_table joined roads cjoin.
Proof.
  unfold feature_table, sorted_frame, merged.
  unfold aggregate, add_sums, group_sums. rewrite drop_unkeyed_groups. reflexivity.
Qed.

Lemma drop_unkeyed_result joined roads cjoin :
  build_features (drop_unkeyed joined) roads cjoin = build_features joined roads cjoin.
Proof.
  unfold build_features.
  unfold aggregate, add_sums, group_sums. rewrite drop_unkeyed_groups. reflexivity.
Qed.

(** C9: every record of the table has a collision total of at least 1, the
    number of joined events of its segment and year; events without a
    segment or without a year change nothing, and a (segment, year) pair has
    a record exactly when some event carries it. *)
Theorem C9_collisions_total_positive joined roads cjoin out :
  build_features joined roads cjoin = Geo.Ok out ->
  (forall r, In r out ->
     1 <= collisions_total (base r) /\
     collisions_total (base r) =
     Z.of_nat (List.length (events_of joined (RD_SEGMENT_ID (base r), year (base r))))) /\
  build_features (drop_unkeyed joined) roads cjoin = Geo.Ok out /\
  (forall k, (exists r, In r out /\ (RD_SEGMENT_ID (base r), year (base r)) = k) <->
             events_of joined k <> []).
Proof.
  intros E. split; [|split].
  - rewrite (build_features_ok _ _ _ _ E). apply record_total.
  - now rewrite drop_unkeyed_result.
  - rewrite (build_features_ok _ _ _ _ E). apply record_iff_events.
Qed.

Lemma exists_max {T} (f : T -> Z) (l : list T) :
  l <> [] -> exists m, In m l /\ forall a, In a l -> f a <= f m.
Proof.
  induction l as [|h t IH]; [congruence|]. intros _.
  destruct t as [|h' t'].
  - exists h. split; [now left|]. intros a [<-|[]]. lia.
  - destruct IH as (m & Im & Hm); [discriminate|].
    destruct (Z_le_gt_dec (f h) (f m)).
    + exists m. split; [now right|]. intros a [<-|Ia]; auto.
    + exists h. split; [now left|]. intros a [<-|Ia]; [lia|]. specialize (Hm a Ia). lia.
Qed.

(** A record with the largest total of a cohort is labelled. *)
Lemma table_cohort_has_high_risk joined roads cjoin y :
  let out := feature_table joined roads cjoin in
  cohort y out <> [] ->
  exists r t,
    In r (cohort y out) /\
    (forall r', In r' (cohort y out) ->
                collisions_total (base r') <= collisions_total (base r)) /\
    quantile (totals (cohort y out)) (4 # 5) = Some t /\
    (t <= inject_Z (collisions_total (base r)))%Q /\
    high_risk r = Some 1.
Proof.
  intros out NE.
  destruct (exists_max (fun r => collisions_total (base r)) _ NE) as (m & Im & Hm).
  destruct (quantile_80 _ (totals_nonempty _ _ Im)) as (t & Eq & Et).
  assert (thr5 (totals (cohort y out)) <= 5 * collisions_total (base m)) as Hle.
  { apply thr5_le_max; [now apply (totals_nonempty _ m)|].
    intros c Ic. apply in_map_iff in Ic. destruct Ic as (a & <- & Ia). now apply Hm. }
  exists m, t. repeat split; auto.
  - apply Qle_bool_iff. rewrite (threshold_le _ _ _ Et). now apply Z.leb_le.
  - apply cohort_In in Im. destruct Im as [Io Ey].
    rewrite (high_risk_thr5 joined roads cjoin m Io). fold out. rewrite Ey.
    apply Z.leb_le in Hle. now rewrite Hle.
Qed.

(** C10: every non-empty year cohort of the table holds a record labelled
    high-risk: a record with the cohort's largest collision total is at or
    above the cohort's 0.8-quantile threshold. *)
Theorem C10_cohort_has_high_risk joined roads cjoin out y :
  build_features joined roads cjoin = Geo.Ok out ->
  cohort y out <> [] ->
  exists r t,
    In r (cohort y out) /\
    (forall r', In r' (cohort y out) ->
                collisions_total (base r') <= collisions_total (base r)) /\
    quantile (totals (cohort y out)) (4 # 5) = Some t /\
    (t <= inject_Z (collisions_total (base r)))%Q /\
    high_risk r = Some 1.
Proof.
  intros E. rewrite (build_features_ok _ _ _ _ E). apply table_cohort_has_high_risk.
Qed.

(** The share of a cohort that is labelled, ties at the threshold apart. *)
Lemma table_high_risk_share joined roads cjoin y :
  let g := cohort y (feature_table joined roads cjoin) in
  let n := Z.of_nat (List.length g) in
  let k := Z.of_nat (high_count g) in
  let ties := Z.of_nat (tie_count g) in
  n - 1 <= 5 * k /\ 5 * (k - ties) <= n + 3 /\ ties <= k <= n.
Proof.
  intros g n k ties. subst n k ties.
  assert (Hg : g = cohort y (feature_table joined roads cjoin)) by reflexivity.
  clearbody g.
  assert (g = [] \/ exists r0, In r0 g) as [E|[r0 I0]]
    by (destruct g; [now left|right; eexists; now left]).
  { rewrite E. cbn. lia. }
  set (xs := totals g).
  assert (xs <> []) as NE by (apply (totals_nonempty g r0); exact I0).
  assert (high_count g = count (fun c => thr5 xs <=? 5 * c) xs) as Hk.
  { unfold high_count. apply (count_map (fun r => collisions_total (base r))).
    intros r I. rewrite Hg in I. apply cohort_In in I. destruct I as [Io Ey].
    unfold is_high. rewrite (high_risk_thr5 joined roads cjoin r Io), Ey, <- Hg.
    fold xs. now destruct (thr5 xs <=? 5 * collisions_total (base r)). }
  assert (tie_count g = count (fun c => thr5 xs =? 5 * c) xs) as Ht.
  { unfold tie_count. apply (count_map (fun r => collisions_total (base r))).
    intros r _. unfold tied. fold xs.
    destruct (quantile_80 xs NE) as (t & -> & E). apply threshold_eq, E. }
  pose proof (count_ge_lower xs NE) as L.
  pose proof (count_gt_upper xs NE) as U.
  pose proof (upper_part_fifth xs NE) as F.
  pose proof (count_ge_gt_eq (thr5 xs) xs) as S.
  pose proof (count_le_length (fun c => thr5 xs <=? 5 * c) xs) as B.
  rewrite (q_len_length xs) in *.
  assert (List.length xs = List.length g) as El by apply length_map.
  rewrite Hk, Ht. lia.
Qed.

(** *** Lags *)

Section Lagged.
Variables (joined : Joined) (roads : list RoadRow)
          (cjoin : option (list (option Z * option Z))).

Let out := feature_table joined roads cjoin.
Let df := sorted_frame joined roads cjoin.

Lemma out_position r :
  In r out ->
  exists i, (i < List.length df)%nat /\ base r = nth i df default_filled /\
            lags r = mkLags (lag_at collisions_total df i) (lag_at fatal_major df i)
                            (lag_at injuries_total df i).
Proof.
  intros I. destruct (In_nth _ _ default_row I) as (i & Hi & E).
  exists i. subst out df. rewrite feature_table_length in Hi. split; [exact Hi|].
  rewrite <- E. apply feature_table_nth.
Qed.

Lemma position_out i :
  (i < List.length df)%nat ->
  exists r, In r out /\ base r = nth i df default_filled.
Proof.
  intros Hi. exists (nth i out default_row). split.
  - apply nth_In. subst out df. now rewrite feature_table_length.
  - apply feature_table_nth.
Qed.

Lemma out_sorted i j :
  (i < j < List.length out)%nat ->
  let a := base (nth i out default_row) in
  let b := base (nth j out default_row) in
  RD_SEGMENT_ID a < RD_SEGMENT_ID b \/
  (RD_SEGMENT_ID a = RD_SEGMENT_ID b /\ year a < year b).
Proof.
  intros Hij a b. subst a b out.
  rewrite feature_table_length in Hij.
  rewrite (proj1 (feature_table_nth joined roads cjoin i)),
          (proj1 (feature_table_nth joined roads cjoin j)).
  apply key_order; [apply sorted_frame_sorted|apply sorted_frame_keys|exact Hij].
Qed.

Lemma lags_first r :
  In r out ->
  (forall r', In r' out -> RD_SEGMENT_ID (base r') = RD_SEGMENT_ID (base r) ->
              year (base r) <= year (base r')) ->
  lags r = mkLags 0 0 0.
Proof.
  intros I Hmin. destruct (out_position r I) as (i & Hi & Eb & ->).
  assert (i = 0%nat \/ RD_SEGMENT_ID (nth (pred i) df default_filled) <>
                       RD_SEGMENT_ID (nth i df default_filled)) as F.
  { apply first_of_segment; [apply sorted_frame_sorted|apply sorted_frame_keys|exact Hi|].
    intros j Hj Es. destruct (position_out j Hj) as (r' & I' & Eb').
    rewrite <- Eb, <- Eb' in *. now apply Hmin. }
  rewrite !lag_at_first; auto; apply sorted_frame_sorted.
Qed.

Lemma lags_previous r p :
  In r out -> In p out ->
  RD_SEGMENT_ID (base p) = RD_SEGMENT_ID (base r) -> year (base p) < year (base r) ->
  (forall q, In q out -> RD_SEGMENT_ID (base q) = RD_SEGMENT_ID (base r) ->
             ~ (year (base p) < year (base q) < year (base r))) ->
  lags r = mkLags (collisions_total (base p)) (fatal_major (base p))
                  (injuries_total (base p)).
Proof.
  intros I Ip Es Ey Gap.
  destruct (out_position r I) as (i & Hi & Eb & ->).
  destruct (out_position p Ip) as (j & Hj & Ebp & _).
  assert (i = S j) as ->.
  { apply (previous_of_segment df); auto;
      [apply sorted_frame_sorted|apply sorted_frame_keys|congruence|congruence|].
    intros k Hk Esk. destruct (position_out k Hk) as (q & Iq & Ebq).
    rewrite <- Eb, <- Ebp, <- Ebq in *. now apply Gap. }
  rewrite !lag_at_prev by (auto; congruence). now rewrite <- Ebp.
Qed.
End Lagged.

(** Order and lags of the table. *)
Lemma table_lag_features joined roads cjoin :
  let out := feature_table joined roads cjoin in
  (forall i j, (i < j < List.length out)%nat ->
     let a := base (nth i out default_row) in
     let b := base (nth j out default_row) in
     RD_SEGMENT_ID a < RD_SEGMENT_ID b \/
     (RD_SEGMENT_ID a = RD_SEGMENT_ID b /\ year a < year b)) /\
  (forall r, In r out ->
     (forall r', In r' out -> RD_SEGMENT_ID (base r') = RD_SEGMENT_ID (base r) ->
                 year (base r) <= year (base r')) ->
     collisions_prev_year r = 0 /\ fatal_prev_year r = 0 /\ injuries_prev_year r = 0) /\
  (forall r p, In r out -> In p out ->
     RD_SEGMENT_ID (base p) = RD_SEGMENT_ID (base r) -> year (base p) < year (base r) ->
     (forall q, In q out -> RD_SEGMENT_ID (base q) = RD_SEGMENT_ID (base r) ->
                ~ (year (base p) < year (base q) < year (base r))) ->
     collisions_prev_year r = collisions_total (base p) /\
     fatal_prev_year r = fatal_major (base p) /\
     injuries_prev_year r = injuries_total (base p)) /\
  (forall s y1 y2, y1 < y2 ->
     List.length (events_of joined (s, y1)) = 5%nat ->
     List.length (events_of joined (s, y2)) = 8%nat ->
     (forall y, y1 < y < y2 -> events_of joined (s, y) = []) ->
     exists r, In r out /\ RD_SEGMENT_ID (base r) = s /\ year (base r) = y2 /\
               collisions_total (base r) = 8 /\ collisions_prev_year r = 5).
Proof.
  intros out. split; [|split; [|split]].
  - apply out_sorted.
  - intros r I Hmin. unfold collisions_prev_year, fatal_prev_year, injuries_prev_year.
    now rewrite (lags_first joined roads cjoin r I Hmin).
  - intros r p I Ip Es Ey Gap.
    unfold collisions_prev_year, fatal_prev_year, injuries_prev_year.
    now rewrite (lags_previous joined roads cjoin r p I Ip Es Ey Gap).
  - intros s y1 y2 Hy E1 E2 Gap.
    pose proof (record_total joined roads cjoin) as Hc.
    pose proof (record_iff_events joined roads cjoin) as Hk.
    fold out in Hc, Hk.
    destruct (proj2 (Hk (s, y1))) as (p & Ip & Ekp);
      [destruct (events_of joined (s, y1)); [discriminate|congruence]|].
    destruct (proj2 (Hk (s, y2))) as (r & Ir & Ekr);
      [destruct (events_of joined (s, y2)); [discriminate|congruence]|].
    injection Ekp as Esp Eyp. injection Ekr as Esr Eyr.
    exists r. repeat split; auto.
    + rewrite (proj2 (Hc r Ir)), Esr, Eyr, E2. reflexivity.
    + unfold collisions_prev_year.
      rewrite (lags_previous joined roads cjoin r p Ir Ip); try lia.
      * simpl. rewrite (proj2 (Hc p Ip)), Esp, Eyp, E1. reflexivity.
      * intros q Iq Esq Hq.
        destruct (Hc q Iq) as [Hpos Hcnt].
        rewrite Esq, Esr, (Gap (year (base q))) in Hcnt by lia.
        simpl in Hcnt. lia.
Qed.

(** C2: the returned table is sorted by (segment identifier, year); the
    first record of every segment has the three lag fields equal to zero;
    every other record carries the collision, fatality and injury totals of
    the record just before it in its segment's series, whatever the distance
    in calendar years; so a segment with 5 collisions in one year and 8 in
    its next year has [collisions_prev_year = 5] in the later record. *)
Theorem C2_lag_features joined roads cjoin out :
  build_features joined roads cjoin = Geo.Ok out ->
  (forall i j, (i < j < List.length out)%nat ->
     let a := base (nth i out default_row) in
     let b := base (nth j out default_row) in
     RD_SEGMENT_ID a < RD_SEGMENT_ID b \/
     (RD_SEGMENT_ID a = RD_SEGMENT_ID b /\ year a < year b)) /\
  (forall r, In r out ->
     (forall r', In r' out -> RD_SEGMENT_ID (base r') = RD_SEGMENT_ID (base r) ->
                 year (base r) <= year (base r')) ->
     collisions_prev_year r = 0 /\ fatal_prev_year r = 0 /\ injuries_prev_year r = 0) /\
  (forall r p, In r out -> In p out ->
     RD_SEGMENT_ID (base p) = RD_SEGMENT_ID (base r) -> year (base p) < year (base r) ->
     (forall q, In q out -> RD_SEGMENT_ID (base q) = RD_SEGMENT_ID (base r) ->
                ~ (year (base p) < year (base q) < year (base r))) ->
     collisions_prev_year r = collisions_total (base p) /\
     fatal_prev_year r = fatal_major (base p) /\
     injuries_prev_year r = injuries_total (base p)) /\
  (forall s y1 y2, y1 < y2 ->
     List.length (events_of joined (s, y1)) = 5%nat ->
     List.length (events_of joined (s, y2)) = 8%nat ->
     (forall y, y1 < y < y2 -> events_of joined (s, y) = []) ->
     exists r, In r out /\ RD_SEGMENT_ID (base r) = s /\ year (base r) = y2 /\
               collisions_total (base r) = 8 /\ collisions_prev_year r = 5).
Proof.
  intros E. rewrite (build_features_ok _ _ _ _ E). apply table_lag_features.
Qed.

(** *** A concrete run *)

Example sample_table_keys :
  map (fun r => (RD_SEGMENT_ID (base r), year (base r), collisions_total (base r),
                 collisions_prev_year r, high_risk r)) sample_table =
  [(3, 2020, 2, 0, Some 1); (3, 2023, 1, 2, Some 1); (4, 2020, 1, 0, Some 0);
   (5, 2020, 1, 0, Some 0); (6, 2020, 1, 0, Some 0); (7, 2020, 5, 0, Some 1);
   (7, 2021, 8, 5, Some 1); (9, 2020, 1, 0, Some 0)].
Proof. vm_compute. reflexivity. Qed.

Lemma sample_returned : build_features sample_joined [] None = Geo.Ok sample_table.
Proof. apply build_features_returns. vm_compute. discriminate. Qed.

Lemma sample_record_In : In sample_record sample_table.
Proof. apply nth_In. vm_compute. lia. Qed.

Lemma C1_high_risk_label_witness :
  build_features sample_joined [] None = Geo.Ok sample_table /\
  In sample_record sample_table /\
  exists t,
    quantile (totals (cohort (year (base sample_record)) sample_table)) (4 # 5) = Some t /\
    (high_risk sample_record = Some 1 <->
     (t <= inject_Z (collisions_total (base sample_record)))%Q) /\
    (high_risk sample_record = Some 0 <->
     ~ (t <= inject_Z (collisions_total (base sample_record)))%Q).
Proof.
  split; [exact sample_returned|]. split; [exact sample_record_In|].
  exact (C1_high_risk_label sample_joined [] None sample_table sample_record
                            sample_returned sample_record_In).
Defined.

Lemma sample_cohort_nonempty : cohort 2020 sample_table <> [].
Proof. vm_compute. discriminate. Qed.

Lemma C10_cohort_has_high_risk_witness :
  build_features sample_joined [] None = Geo.Ok sample_table /\
  cohort 2020 sample_table <> [] /\
  exists r t,
    In r (cohort 2020 sample_table) /\
    (forall r', In r' (cohort 2020 sample_table) ->
                collisions_total (base r') <= collisions_total (base r)) /\
    quantile (totals (cohort 2020 sample_table)) (4 # 5) = Some t /\
    (t <= inject_Z (collisions_total (base r)))%Q /\
    high_risk r = Some 1.
Proof.
  split; [exact sample_returned|]. split; [exact sample_cohort_nonempty|].
  exact (C10_cohort_has_high_risk sample_joined [] None sample_table 2020
                                  sample_returned sample_cohort_nonempty).
Defined.

Lemma C9_collisions_total_positive_witness :
  build_features sample_joined [] None = Geo.Ok sample_table /\
  (forall r, In r sample_table ->
     1 <= collisions_total (base r) /\
     collisions_total (base r) =
     Z.of_nat (List.length (events_of sample_joined
                                      (RD_SEGMENT_ID (base r), year (base r))))) /\
  build_features (drop_unkeyed sample_joined) [] None = Geo.Ok sample_table /\
  (forall k, (exists r, In r sample_table /\
                        (RD_SEGMENT_ID (base r), year (base r)) = k) <->
             events_of sample_joined k <> []).
Proof.
  split; [exact sample_returned|].
  exact (C9_collisions_total_positive sample_joined [] None sample_table sample_returned).
Defined.

Lemma C2_lag_features_witness :
  build_features sample_joined [] None = Geo.Ok sample_table /\
  (forall i j, (i < j < List.length sample_table)%nat ->
     let a := base (nth i sample_table default_row) in
     let b := base (nth j sample_table default_row) in
     RD_SEGMENT_ID a < RD_SEGMENT_ID b \/
     (RD_SEGMENT_ID a = RD_SEGMENT_ID b /\ year a < year b)) /\
  (forall r, In r sample_table ->
     (forall r', In r' sample_table -> RD_SEGMENT_ID (base r') = RD_SEGMENT_ID (base r) ->
                 year (base r) <= year (base r')) ->
     collisions_prev_year r = 0 /\ fatal_prev_year r = 0 /\ injuries_prev_year r = 0) /\
  (forall r p, In r sample_table -> In p sample_table ->
     RD_SEGMENT_ID (base p) = RD_SEGMENT_ID (base r) -> year (base p) < year (base r) ->
     (forall q, In q sample_table -> RD_SEGMENT_ID (base q) = RD_SEGMENT_ID (base r) ->
                ~ (year (base p) < year (base q) < year (base r))) ->
     collisions_prev_year r = collisions_total (base p) /\
     fatal_prev_year r = fatal_major (base p) /\
     injuries_prev_year r = injuries_total (base p)) /\
  (forall s y1 y2, y1 < y2 ->
     List.length (events_of sample_joined (s, y1)) = 5%nat ->
     List.length (events_of sample_joined (s, y2)) = 8%nat ->
     (forall y, y1 < y < y2 -> events_of sample_joined (s, y) = []) ->
     exists r, In r sample_table /\ RD_SEGMENT_ID (base r) = s /\ year (base r) = y2 /\
               collisions_total (base r) = 8 /\ collisions_prev_year r = 5).
Proof.
  split; [exact sample_returned|].
  exact (C2_lag_features sample_joined [] None sample_table sample_returned).
Defined.

(** All records of a cohort tie at the threshold: all of them are labelled. *)
Example all_tied_cohort :
  let t := feature_table (mkJoined true true [event 1 2020; event 2 2020; event 3 2020])
                          [] None in
  List.length t = 3%nat /\ high_count (cohort 2020 t) = 3%nat /\
  tie_count (cohort 2020 t) = 3%nat.
Proof. vm_compute. auto. Qed.

(** C7: the claim fails on the code in a year full of ties.  With nine
    segments of one collision and one segment of two, the 0.8 quantile of
    the ten totals is 1, every record is at or above it, and all ten
    records are labelled high-risk: the whole cohort, not about a fifth of
    it. *)
Theorem C7_tied_year_all_high_risk :
  exists out t,
    build_features tied_year [] None = Geo.Ok out /\
    totals (cohort 2020 out) = [1; 1; 1; 1; 1; 1; 1; 1; 1; 2] /\
    quantile (totals (cohort 2020 out)) (4 # 5) = Some t /\ (t == 1)%Q /\
    List.length (cohort 2020 out) = 10%nat /\
    high_count (cohort 2020 out) = 10%nat /\
    tie_count (cohort 2020 out) = 9%nat.
Proof.
  exists (feature_table tied_year [] None). eexists.
  split; [apply build_features_returns; vm_compute; discriminate|].
  split; [vm_compute; reflexivity|].
  split; [vm_compute; reflexivity|].
  split; [reflexivity|].
  split; [vm_compute; reflexivity|].
  split; vm_compute; reflexivity.
Qed.



End BuildClaims.

(** ** The geometry helpers *)

Module GeoClaims.
Import Frame FrameFacts Geo GeoNotions Samples.

Section PointsFacts.
Variable float_of_text : string -> option Q.

Lemma as_coordinate_number (c : cell) (q : Q) :
  as_float c = Some q -> as_coordinate float_of_text c = Ok q.
Proof.
  destruct c; cbn; intros E; try discriminate; now injection E as <-.
Qed.

Lemma as_floats_numbers (f : Row -> cell) (kept : list Row) :
  (forall r, In r kept -> is_number (f r) = true) ->
  exists qs, as_floats float_of_text (map f kept) = Ok qs /\
             Forall2 (fun r q => as_float (f r) = Some q) kept qs.
Proof.
  induction kept as [|r t IH]; intros Hn.
  - exists []. split; [reflexivity|constructor].
  - destruct IH as (qs & E & F); [intros; apply Hn; now right|].
    pose proof (Hn r (or_introl eq_refl)) as N. unfold is_number in N.
    destruct (as_float (f r)) as [q|] eqn:Eq; [|discriminate].
    exists (q :: qs). cbn [map as_floats].
    rewrite (as_coordinate_number _ _ Eq), E. cbn [bind].
    split; [reflexivity|now constructor].
Qed.

Lemma points_of_numbers (f g : Row -> cell) (kept : list Row) (px py : list Q) :
  Forall2 (fun r q => as_float (f r) = Some q) kept px ->
  Forall2 (fun r q => as_float (g r) = Some q) kept py ->
  let pts := map (fun xy => mkPoint (fst xy) (snd xy)) (combine px py) in
  List.length pts = List.length kept /\
  forall r p, In (r, p) (combine kept pts) ->
              as_float (f r) = Some (x p) /\ as_float (g r) = Some (y p).
Proof.
  intros Fx. revert py. induction Fx as [|r q t qs Hq Fx IH]; intros py Fy.
  - inversion Fy; subst. split; [reflexivity|intros ? ? []].
  - inversion Fy as [|r' q' t' qs' Hq' Fy' ]; subst.
    destruct (IH _ Fy') as [L Hp]. cbn zeta in *. cbn [combine map fst snd].
    split; [simpl; now rewrite L|].
    intros r1 p [X|I]; [injection X as <- <-; now split|now apply Hp].
Qed.

Lemma points_from_xy_ok (lon_col lat_col : string) (kept : list Row) :
  (forall r, In r kept -> is_number (r lon_col) = true /\ is_number (r lat_col) = true) ->
  exists pts,
    points_from_xy float_of_text (map (fun r => r lon_col) kept) (map (fun r => r lat_col) kept) = Ok pts /\
    List.length pts = List.length kept /\
    forall r p, In (r, p) (combine kept pts) ->
                as_float (r lon_col) = Some (x p) /\ as_float (r lat_col) = Some (y p).
Proof.
  intros Hn.
  destruct (as_floats_numbers (fun r => r lon_col) kept) as (px & Ex & Fx);
    [intros r I; apply (Hn r I)|].
  destruct (as_floats_numbers (fun r => r lat_col) kept) as (py & Ey & Fy);
    [intros r I; apply (Hn r I)|].
  exists (map (fun xy => mkPoint (fst xy) (snd xy)) (combine px py)).
  split; [|exact (points_of_numbers _ _ kept px py Fx Fy)].
  unfold points_from_xy. unfold Row in *. now rewrite Ex, Ey.
Qed.

Lemma as_coordinate_error (c : cell) (e : error) :
  as_coordinate float_of_text c = Err e -> conversion_error e.
Proof.
  destruct c as [|z|q|s|t]; cbn; intros X; try discriminate;
    try (injection X as <-; right; eexists; reflexivity).
  destruct (float_of_text s) eqn:E; [discriminate|].
  injection X as <-. left. now exists s.
Qed.

Lemma as_floats_error (cs : list cell) (e : error) :
  as_floats float_of_text cs = Err e -> conversion_error e.
Proof.
  induction cs as [|c t IH]; [discriminate|]. cbn [as_floats].
  destruct (as_coordinate float_of_text c) as [q|e'] eqn:E; cbn [bind].
  - destruct (as_floats float_of_text t) as [qs|e''] eqn:E'; cbn [bind]; intros X;
      [discriminate|]. injection X as <-. now apply IH.
  - intros X. injection X as <-. now apply (as_coordinate_error c).
Qed.

Lemma points_from_xy_error xs ys e :
  points_from_xy float_of_text xs ys = Err e -> conversion_error e.
Proof.
  unfold points_from_xy.
  destruct (as_floats float_of_text xs) as [px|e1] eqn:Ex; cbn [bind].
  - destruct (as_floats float_of_text ys) as [py|e2] eqn:Ey; cbn [bind]; intros X;
      [discriminate|]. injection X as <-. now apply (as_floats_error ys).
  - intros X. injection X as <-. now apply (as_floats_error xs).
Qed.

Lemma kept_numeric df lon_col lat_col r :
  numeric_column df lon_col -> numeric_column df lat_col ->
  In r (filter (fun r => negb (missing_coords lon_col lat_col r)) (rows df)) ->
  is_number (r lon_col) = true /\ is_number (r lat_col) = true.
Proof.
  intros Nx Ny I. apply filter_In in I. destruct I as [I M].
  unfold missing_coords in M. apply negb_true_iff, orb_false_iff in M.
  destruct M as [Mx My].
  destruct (Nx r I), (Ny r I); split; congruence.
Qed.

Lemma df_to_points_spec df lon_col lat_col frame :
  has_column df lon_col = true -> has_column df lat_col = true ->
  numeric_column df lon_col -> numeric_column df lat_col ->
  exists gdf,
    df_to_points float_of_text df lon_col lat_col frame = Ok gdf /\
    List.length (grows gdf) =
    (List.length (rows df) - List.length (filter (missing_coords lon_col lat_col) (rows df)))%nat /\
    map fst (grows gdf) = filter (fun r => negb (missing_coords lon_col lat_col r)) (rows df) /\
    (forall r p, In (r, p) (grows gdf) ->
                 missing_coords lon_col lat_col r = false /\
                 as_float (r lon_col) = Some (x p) /\ as_float (r lat_col) = Some (y p)) /\
    crs gdf = Some frame.
Proof.
  intros Hx Hy Nx Ny. unfold df_to_points. rewrite Hx, Hy. cbn [negb].
  set (kept := filter (fun r => negb (missing_coords lon_col lat_col r)) (rows df)).
  destruct (points_from_xy_ok lon_col lat_col kept) as (pts & E & L & Hp).
  { intros r I. now apply (kept_numeric df). }
  rewrite E. cbn [bind]. eexists. split; [reflexivity|]. cbn [grows crs].
  assert (map fst (combine kept pts) = kept) as Hfst.
  { clear - L. revert pts L. induction kept as [|a k IH]; intros [|p pts] L;
      simpl in *; try discriminate; auto. f_equal. apply IH. lia. }
  repeat split.
  - rewrite <- (length_map fst), Hfst. subst kept.
    pose proof (filter_length (missing_coords lon_col lat_col) (rows df)). lia.
  - exact Hfst.
  - assert (In r kept) as I by (rewrite <- Hfst; now apply (in_map fst) in H).
    apply filter_In in I. now apply negb_true_iff.
  - now apply Hp.
  - now apply Hp.
Qed.

(** C3: on a table whose two coordinate columns exist and are numeric,
    [df_to_points] succeeds; its rows are the input rows with both
    coordinates present, in order, so their number is the input row count
    minus the number of rows with a missing longitude or latitude; and every
    point has the longitude and latitude of its row as [x] and [y]. *)
Theorem C3_df_to_points df lon_col lat_col frame :
  has_column df lon_col = true -> has_column df lat_col = true ->
  numeric_column df lon_col -> numeric_column df lat_col ->
  exists gdf,
    df_to_points float_of_text df lon_col lat_col frame = Ok gdf /\
    List.length (grows gdf) =
    (List.length (rows df) - List.length (filter (missing_coords lon_col lat_col) (rows df)))%nat /\
    map fst (grows gdf) = filter (fun r => negb (missing_coords lon_col lat_col r)) (rows df) /\
    (forall r p, In (r, p) (grows gdf) ->
                 missing_coords lon_col lat_col r = false /\
                 as_float (r lon_col) = Some (x p) /\ as_float (r lat_col) = Some (y p)) /\
    crs gdf = Some frame.
Proof. apply df_to_points_spec. Qed.
End PointsFacts.

Lemma sample_coordinates_numeric col :
  col = "Long"%string \/ col = "Lat"%string -> numeric_column sample_coordinates col.
Proof.
  intros [-> | ->] r [<-|[<-|[<-|[]]]]; cbn; auto.
Qed.

Lemma C3_df_to_points_witness :
  has_column sample_coordinates "Long" = true /\
  exists gdf,
    df_to_points sample_float_of_text sample_coordinates "Long" "Lat" WGS84 = Ok gdf /\
    List.length (grows gdf) = 1%nat /\
    geometries gdf = [mkPoint (-757 # 10) (454 # 10)].
Proof.
  split; [reflexivity|].
  destruct (C3_df_to_points sample_float_of_text sample_coordinates "Long" "Lat" WGS84 eq_refl eq_refl
              (sample_coordinates_numeric _ (or_introl eq_refl))
              (sample_coordinates_numeric _ (or_intror eq_refl)))
    as (gdf & E & L & _).
  exists gdf. split; [exact E|]. split; [exact L|].
  revert E. unfold geometries. vm_compute. intros E. injection E as <-. reflexivity.
Defined.

(** *** Reprojection *)

(** C5, the claim as stated fails: the frames differ, the transformation
    moves every point, and the output coordinates equal the input ones. *)
Lemma C5_differing_frames_counterexample :
  crs empty_wgs84 = Some WGS84 /\ WGS84 <> DEFAULT_CRS /\
  (forall p, shift_east WGS84 DEFAULT_CRS p <> p) /\
  exists out, to_projected shift_east empty_wgs84 DEFAULT_CRS = Ok out /\
              geometries out = geometries empty_wgs84.
Proof.
  split; [reflexivity|]. split; [discriminate|]. split.
  - intros [px py] E. unfold shift_east in E. simpl in E. injection E as E.
    assert (px + 1 == px)%Q as Q by (rewrite E; reflexivity).
    revert Q. unfold Qeq, Qplus. simpl. lia.
  - eexists. split; reflexivity.
Qed.

Section Reprojection.
Context {G : Type} (transform : CRS -> CRS -> G -> G).

(** C5 (amended): a table already declared in the target frame is returned
    unchanged, so reprojecting to the same frame is idempotent; a table
    declared in another frame that has at least one row comes back declared
    in the target frame, row for row, each geometry passed through the
    library's transformation between the two frames, which moves it: its
    coordinates differ from the input's. *)
Theorem C5_to_projected (gdf : GeoDataFrame G) (c target : CRS) :
  crs gdf = Some c ->
  (c = target -> to_projected transform gdf target = Ok gdf) /\
  (exists out, to_projected transform gdf target = Ok out /\
               crs out = Some target /\
               to_projected transform out target = Ok out /\
               geometries out =
               (if String.eqb c target then geometries gdf
                else map (transform c target) (geometries gdf))) /\
  (c <> target -> grows gdf <> [] ->
   (forall g, In g (geometries gdf) -> transform c target g <> g) ->
   exists out, to_projected transform gdf target = Ok out /\
               crs out = Some target /\
               map fst (grows out) = map fst (grows gdf) /\
               Forall2 (fun g g' => g' = transform c target g /\ g' <> g)
                       (geometries gdf) (geometries out) /\
               geometries out <> geometries gdf).
Proof.
  intros Hc. unfold to_projected. rewrite Hc. split; [|split].
  - intros ->. now rewrite String.eqb_refl.
  - destruct (String.eqb_spec c target) as [->|N].
    + exists gdf. rewrite Hc, String.eqb_refl. auto.
    + eexists. split; [reflexivity|]. cbn [crs to_crs]. rewrite String.eqb_refl.
      split; [reflexivity|]. split; [reflexivity|].
      unfold geometries, to_crs. cbn [grows]. rewrite !map_map. reflexivity.
  - intros N NE Hm. apply String.eqb_neq in N. rewrite N. eexists. split; [reflexivity|].
    split; [reflexivity|]. unfold geometries in *. cbn [grows to_crs].
    split; [now rewrite map_map|].
    rewrite map_map. cbn [snd]. rewrite <- (map_map snd (transform c target)).
    assert (map snd (grows gdf) <> []) as NEg by (destruct (grows gdf); [congruence|discriminate]).
    revert Hm NEg. generalize (map snd (grows gdf)). intros l Hm NEg. split.
    + induction l as [|g t IH]; cbn [map]; constructor.
      * split; [reflexivity|]. apply Hm. now left.
      * destruct t as [|g' t']; [constructor|].
        apply IH; [intros a I; apply Hm; now right|discriminate].
    + destruct l as [|g t]; [congruence|]. cbn [map]. intros E. injection E as Eg _.
      apply (Hm g); [now left|exact Eg].
Qed.
End Reprojection.

Lemma shift_east_moves (c t : CRS) (p : Point) : shift_east c t p <> p.
Proof.
  destruct p as [px py]. intros E. unfold shift_east in E. simpl in E. injection E as E.
  assert (px + 1 == px)%Q as Q by (rewrite E; reflexivity).
  revert Q. unfold Qeq, Qplus. simpl. lia.
Qed.

Lemma C5_to_projected_witness :
  crs one_point = Some WGS84 /\ WGS84 <> DEFAULT_CRS /\ grows one_point <> [] /\
  (forall g, In g (geometries one_point) -> shift_east WGS84 DEFAULT_CRS g <> g) /\
  exists out, to_projected shift_east one_point DEFAULT_CRS = Ok out /\
              crs out = Some DEFAULT_CRS /\
              geometries out = [mkPoint ((-757 # 10) + 1) (454 # 10)] /\
              geometries out <> geometries one_point.
Proof.
  assert (WGS84 <> DEFAULT_CRS) as N by discriminate.
  assert (grows one_point <> []) as NE by discriminate.
  assert (forall g, In g (geometries one_point) -> shift_east WGS84 DEFAULT_CRS g <> g) as Hm
    by (intros g _; apply shift_east_moves).
  split; [reflexivity|]. split; [exact N|]. split; [exact NE|]. split; [exact Hm|].
  destruct (C5_to_projected shift_east one_point WGS84 DEFAULT_CRS eq_refl)
    as (_ & (out & E & _ & _ & Eg) & Hd).
  destruct (Hd N NE Hm) as (out' & E' & Hcrs & _ & _ & Hne).
  rewrite E in E'. injection E' as <-.
  exists out. split; [exact E|]. split; [exact Hcrs|]. split; [exact Eg|exact Hne].
Defined.

(** *** Buffered join *)

Lemma buffering_applies (b : Q) :
  truthy (Some b) && gt0 (Some b) = true <-> (0 < b)%Q.
Proof.
  unfold truthy, gt0. rewrite andb_true_iff, !negb_true_iff.
  rewrite <- !not_true_iff_false, Qeq_bool_iff, Qle_bool_iff. split.
  - intros [_ N]. now apply Qnot_le_lt.
  - intros L. split.
    + intros E. rewrite E in L. now apply Qlt_irrefl in L.
    + now apply Qlt_not_le.
Qed.

Section JoinFacts.
Context {P G : Type} (intersects : P -> G -> bool).

(** The matched rows of a join are the intersecting pairs, point by point. *)
Lemma match_count_sjoin points lines how :
  match_count (sjoin intersects points lines how) = pair_total intersects points lines.
Proof.
  unfold match_count, sjoin, pair_total. cbn [grows].
  match goal with |- context [flat_map ?f _] => set (F := f) end.
  induction (grows points) as [|pr t IH]; [reflexivity|].
  change (flat_map F (pr :: t)) with (F pr ++ flat_map F t).
  cbn [map fold_right]. rewrite filter_app, length_app. f_equal; [|exact IH].
  subst F. cbv beta.
  destruct (matches intersects (snd pr) lines) as [|m ms].
  - destruct how; reflexivity.
  - generalize (m :: ms). intros l. induction l as [|a l IHl]; [reflexivity|].
    cbn [map filter]. unfold joined_row at 1. cbn [fst String.eqb Ascii.eqb Bool.eqb isna negb].
    cbn [List.length]. now rewrite IHl.
Qed.

Lemma matches_mono (p : P) (rows : list (Row * G)) (f g : G -> G) cols cols' c c' :
  (forall r, In r rows -> intersects p (f (snd r)) = true ->
             intersects p (g (snd r)) = true) ->
  (List.length (matches intersects p
      (mkGeoDataFrame cols (map (fun rg => (fst rg, f (snd rg))) rows) c)) <=
   List.length (matches intersects p
      (mkGeoDataFrame cols' (map (fun rg => (fst rg, g (snd rg))) rows) c')))%nat.
Proof.
  unfold matches. cbn [grows]. rewrite !length_map. generalize 0%nat.
  induction rows as [|r t IH]; intros s Hm; [simpl; lia|].
  cbn [List.length seq map combine filter snd].
  specialize (IH (S s) (fun r I => Hm r (or_intror I))).
  pose proof (Hm r (or_introl eq_refl)) as H0.
  destruct (intersects p (f (snd r))); [rewrite H0 by reflexivity|];
    destruct (intersects p (g (snd r))); cbn [List.length]; lia.
Qed.

Lemma pair_total_mono points lines lines' :
  (forall p, (List.length (matches intersects p lines) <=
              List.length (matches intersects p lines'))%nat) ->
  (pair_total intersects points lines <= pair_total intersects points lines')%nat.
Proof.
  intros Hm. unfold pair_total. induction (grows points) as [|pr t IH]; [simpl; lia|].
  cbn [map fold_right]. specialize (Hm (snd pr)). lia.
Qed.
End JoinFacts.

Lemma same_table {G} (lines : GeoDataFrame G) :
  lines = mkGeoDataFrame (gcolumns lines) (map (fun rg => (fst rg, id (snd rg))) (grows lines))
                         (crs lines).
Proof.
  destruct lines as [cols rows c]. cbn. f_equal.
  induction rows as [|[r g] t IH]; [reflexivity|]. cbn. now rewrite <- IH.
Qed.

Section BufferedJoin.
Context {P G : Type} (intersects : P -> G -> bool) (buffer : G -> Q -> G).

(** What the join needs of the geometry engine: a buffer by a positive
    distance contains the geometry, and grows with the distance. *)
Hypothesis buffer_extensive :
  forall p g b, (0 < b)%Q -> intersects p g = true -> intersects p (buffer g b) = true.
Hypothesis buffer_monotone :
  forall p g b1 b2, (0 < b1)%Q -> (b1 <= b2)%Q ->
                    intersects p (buffer g b1) = true -> intersects p (buffer g b2) = true.

Lemma effective_lines_mono lines b1 b2 p :
  (b1 <= b2)%Q ->
  (List.length (matches intersects p (effective_lines buffer lines b1)) <=
   List.length (matches intersects p (effective_lines buffer lines b2)))%nat.
Proof.
  intros Hb. unfold effective_lines.
  destruct (truthy (Some b1) && gt0 (Some b1)) eqn:T1;
    destruct (truthy (Some b2) && gt0 (Some b2)) eqn:T2.
  - apply buffering_applies in T1. unfold buffer_lines.
    apply (matches_mono intersects p (grows lines)
                        (fun g => buffer g b1) (fun g => buffer g b2)).
    intros r _. now apply buffer_monotone.
  - apply buffering_applies in T1. exfalso.
    assert (0 < b2)%Q as L by (eapply Qlt_le_trans; eauto).
    apply buffering_applies in L. congruence.
  - apply buffering_applies in T2. unfold buffer_lines.
    replace (matches intersects p lines)
      with (matches intersects p
              (mkGeoDataFrame (gcolumns lines)
                 (map (fun rg => (fst rg, id (snd rg))) (grows lines)) (crs lines)))
      by (now rewrite <- same_table).
    apply (matches_mono intersects p (grows lines) id (fun g => buffer g b2)).
    intros r _. now apply buffer_extensive.
  - lia.
Qed.

(** C4: for point and line tables that share a frame, a buffer distance of
    zero (or none) gives the join on the unbuffered lines, that is the
    exact-intersection matches; and for distances [b1 <= b2] the join at
    [b2] has at least as many matched (point, line) pairs as at [b1]. *)
Theorem C4_buffered_join (points : GeoDataFrame P) (lines : GeoDataFrame G)
        (how : join_how) :
  crs_eqb (crs points) (crs lines) = true ->
  (forall b, (b == 0)%Q ->
     spatial_join_points_to_lines intersects buffer points lines (Some b) how =
     Ok (sjoin intersects points lines how)) /\
  spatial_join_points_to_lines intersects buffer points lines None how =
  Ok (sjoin intersects points lines how) /\
  (forall b1 b2, (b1 <= b2)%Q ->
     exists o1 o2,
       spatial_join_points_to_lines intersects buffer points lines (Some b1) how = Ok o1 /\
       spatial_join_points_to_lines intersects buffer points lines (Some b2) how = Ok o2 /\
       (match_count o1 <= match_count o2)%nat).
Proof.
  intros Hc. unfold spatial_join_points_to_lines. rewrite Hc. cbn [negb].
  split; [|split].
  - intros b E.
    assert (truthy (Some b) && gt0 (Some b) = false) as ->; [|reflexivity].
    apply not_true_iff_false. rewrite buffering_applies, E. apply Qlt_irrefl.
  - reflexivity.
  - intros b1 b2 Hb. do 2 eexists. split; [reflexivity|]. split; [reflexivity|].
    cbn [fillna]. fold (effective_lines buffer lines b1) (effective_lines buffer lines b2).
    rewrite !match_count_sjoin. apply pair_total_mono.
    intros p. now apply effective_lines_mono.
Qed.
End BufferedJoin.

Lemma widen_extensive p g b :
  (0 < b)%Q -> on_interval p g = true -> on_interval p (widen g b) = true.
Proof.
  unfold on_interval, widen. cbn [fst snd].
  rewrite !andb_true_iff, !Qle_bool_iff. intros L [A B]. split; lra.
Qed.

Lemma widen_monotone p g b1 b2 :
  (0 < b1)%Q -> (b1 <= b2)%Q ->
  on_interval p (widen g b1) = true -> on_interval p (widen g b2) = true.
Proof.
  unfold on_interval, widen. cbn [fst snd].
  rewrite !andb_true_iff, !Qle_bool_iff. intros L1 L2 [A B]. split; lra.
Qed.

Lemma C4_buffered_join_witness :
  crs_eqb (crs sample_points) (crs sample_lines) = true /\
  exists o1 o2,
    spatial_join_points_to_lines on_interval widen sample_points sample_lines
                                 (Some 1%Q) how_left = Ok o1 /\
    spatial_join_points_to_lines on_interval widen sample_points sample_lines
                                 (Some 5%Q) how_left = Ok o2 /\
    (match_count o1 <= match_count o2)%nat.
Proof.
  split; [reflexivity|].
  destruct (C4_buffered_join on_interval widen widen_extensive widen_monotone
                             sample_points sample_lines how_left eq_refl) as (_ & _ & M).
  apply (M 1%Q 5%Q). unfold Qle. simpl. lia.
Defined.

(** The sample join at distances 0, 1 and 5: one exact match, then the
    near misses come in. *)
Example sample_join_counts :
  map (fun b => match spatial_join_points_to_lines on_interval widen sample_points
                        sample_lines b how_left with
                | Ok out => Some (match_count out, List.length (grows out))
                | Err _ => None
                end) [None; Some 0%Q; Some (-3)%Q; Some 1%Q; Some 5%Q] =
  [Some (1, 3); Some (1, 3); Some (1, 3); Some (1, 3); Some (3, 4)]%nat.
Proof. vm_compute. reflexivity. Qed.

End GeoClaims.

(** ** The cleaners *)

Module CleanClaims.
Import Frame FrameFacts Geo Clean GeoNotions CleanNotions Samples GeoClaims.

Lemma find_first {T} (p : T -> bool) (l : list T) (a : T) :
  find p l = Some a ->
  exists pre post, l = pre ++ a :: post /\ p a = true /\ forall b, In b pre -> p b = false.
Proof.
  induction l as [|h t IH]; [discriminate|]. cbn [find].
  destruct (p h) eqn:E.
  - intros X; injection X as <-. exists [], t. repeat split; auto. intros ? [].
  - intros F. destruct (IH F) as (pre & post & -> & Pa & Hpre).
    exists (h :: pre), post. repeat split; auto. intros b [<-|I]; auto.
Qed.

Lemma find_absent {T} (p : T -> bool) (l : list T) :
  find p l = None <-> forall a, In a l -> p a = false.
Proof.
  split; [apply find_none|].
  induction l as [|h t IH]; [reflexivity|]. intros Hp. cbn [find].
  rewrite (Hp h) by now left. apply IH. intros; apply Hp; now right.
Qed.

Section Construction.
Variable to_datetime : cell -> option Timestamp.
Variable transform : CRS -> CRS -> Point -> Point.
Variable float_of_text : string -> option Q.

Lemma parsed_start_columns df : columns (parsed_start to_datetime df) = columns df.
Proof.
  unfold parsed_start. destruct (has_column df "TARGETED_START") eqn:E; [|reflexivity].
  unfold set_column. cbn [columns]. now rewrite E.
Qed.

Lemma parsed_start_first df candidates :
  first_present (parsed_start to_datetime df) candidates = first_present df candidates.
Proof.
  unfold first_present, has_column. rewrite parsed_start_columns. reflexivity.
Qed.

Lemma points_not_missing_coordinates df lon_col lat_col :
  (gdf <- df_to_points float_of_text df lon_col lat_col WGS84 ;; to_projected transform gdf DEFAULT_CRS)
  <> Err MissingCoordinates.
Proof.
  unfold df_to_points.
  destruct (negb (has_column df lon_col)); [discriminate|].
  destruct (negb (has_column df lat_col)); [discriminate|].
  destruct (points_from_xy _ _ _) as [pts|e] eqn:E; cbn [bind].
  - discriminate.
  - destruct (points_from_xy_error _ _ _ _ E) as [(s & ->)|(msg & ->)]; discriminate.
Qed.

(** C6: the construction cleaner fails with MissingCoordinates exactly
    when no longitude candidate or no latitude candidate is a column of the
    table, in particular when none of the recognised names is; otherwise
    each coordinate column is the first candidate of its ordered list that
    the table has, and the result is the point conversion on those two
    columns followed by the reprojection. *)
Theorem C6_missing_coordinates (df : DataFrame) :
  ((forall c, In c (lon_candidates ++ lat_candidates) -> has_column df c = false) ->
   clean_construction to_datetime transform float_of_text df = Err MissingCoordinates) /\
  (clean_construction to_datetime transform float_of_text df = Err MissingCoordinates <->
   (forall c, In c lon_candidates -> has_column df c = false) \/
   (forall c, In c lat_candidates -> has_column df c = false)) /\
  (forall lon lat,
     In lon lon_candidates -> In lat lat_candidates ->
     has_column df lon = true -> has_column df lat = true ->
     exists lon_col lat_col pre_lon post_lon pre_lat post_lat,
       lon_candidates = pre_lon ++ lon_col :: post_lon /\
       has_column df lon_col = true /\
       (forall c, In c pre_lon -> has_column df c = false) /\
       lat_candidates = pre_lat ++ lat_col :: post_lat /\
       has_column df lat_col = true /\
       (forall c, In c pre_lat -> has_column df c = false) /\
       clean_construction to_datetime transform float_of_text df =
       (gdf <- df_to_points float_of_text (parsed_start to_datetime df) lon_col lat_col WGS84 ;;
        to_projected transform gdf DEFAULT_CRS) /\
       clean_construction to_datetime transform float_of_text df <> Err MissingCoordinates).
Proof.
  assert (clean_construction to_datetime transform float_of_text df =
          match first_present df lon_candidates, first_present df lat_candidates with
          | Some lon_col, Some lat_col =>
              gdf <- df_to_points float_of_text (parsed_start to_datetime df) lon_col lat_col WGS84 ;;
              to_projected transform gdf DEFAULT_CRS
          | _, _ => Err MissingCoordinates
          end) as Hc.
  { unfold clean_construction. fold (parsed_start to_datetime df). now rewrite !parsed_start_first. }
  assert (clean_construction to_datetime transform float_of_text df = Err MissingCoordinates <->
          (forall c, In c lon_candidates -> has_column df c = false) \/
          (forall c, In c lat_candidates -> has_column df c = false)) as Hiff.
  { rewrite Hc. unfold first_present. rewrite <- !find_absent.
    destruct (find (has_column df) lon_candidates) as [lon_col|];
      destruct (find (has_column df) lat_candidates) as [lat_col|]; split; auto.
    - intros E. now apply points_not_missing_coordinates in E.
    - intros [X|X]; discriminate. }
  split; [|split; [exact Hiff|]].
  - intros Hn. apply Hiff. left. intros c I. apply Hn, in_or_app. now left.
  - intros lon lat Ilon Ilat Hlon Hlat.
    destruct (first_present df lon_candidates) as [lon_col|] eqn:Flon.
    2:{ unfold first_present in Flon. rewrite find_absent in Flon.
        rewrite (Flon lon Ilon) in Hlon. discriminate. }
    destruct (first_present df lat_candidates) as [lat_col|] eqn:Flat.
    2:{ unfold first_present in Flat. rewrite find_absent in Flat.
        rewrite (Flat lat Ilat) in Hlat. discriminate. }
    destruct (find_first _ _ _ Flon) as (pre_lon & post_lon & E1 & P1 & N1).
    destruct (find_first _ _ _ Flat) as (pre_lat & post_lat & E2 & P2 & N2).
    exists lon_col, lat_col, pre_lon, post_lon, pre_lat, post_lat.
    repeat split; auto.
    rewrite Hc. apply points_not_missing_coordinates.
Qed.
End Construction.

Example construction_without_coordinates :
  clean_construction sample_to_datetime shift_east sample_float_of_text
    (mkDataFrame ["NAME"; "TARGETED_START"]%string [fun _ => Str "x"]) =
  Err MissingCoordinates.
Proof. reflexivity. Qed.

(** [Longitude] comes before [LONG] in the candidate list and wins. *)
Example construction_mixed_names :
  let df := mkDataFrame ["LONG"; "Longitude"; "Y"]%string
              [fun c => if String.eqb c "Longitude" then Float (-757 # 10)
                        else if String.eqb c "LONG" then Float 0
                        else if String.eqb c "Y" then Float (454 # 10) else NA] in
  first_present df lon_candidates = Some "Longitude"%string /\
  first_present df lat_candidates = Some "Y"%string /\
  exists out, clean_construction sample_to_datetime shift_east sample_float_of_text df = Ok out /\
              geometries out = [mkPoint ((-757 # 10) + 1) (454 # 10)] /\
              crs out = Some DEFAULT_CRS.
Proof.
  cbv zeta. split; [reflexivity|]. split; [reflexivity|].
  eexists. split; [reflexivity|]. split; reflexivity.
Qed.

(** *** Collision cleaner *)

Lemma keeps_refl cols df : keeps cols df df.
Proof. split; [auto|]. exists (fun r => r). split; [now rewrite map_id|auto]. Qed.

Lemma keeps_trans cols df1 df2 df3 :
  keeps cols df1 df2 -> keeps cols df2 df3 -> keeps cols df1 df3.
Proof.
  intros [C1 (F1 & R1 & K1)] [C2 (F2 & R2 & K2)]. split; [auto|].
  exists (fun r => F2 (F1 r)). split.
  - now rewrite R2, R1, map_map.
  - intros r c I. now rewrite K2, K1.
Qed.

Lemma has_column_set_column df c f c' :
  has_column (set_column df c f) c' = has_column df c' || String.eqb c' c.
Proof.
  unfold set_column, has_column. cbn [columns].
  destruct (mem c (columns df)) eqn:E.
  - destruct (String.eqb_spec c' c) as [->|N]; [now rewrite E|now rewrite orb_false_r].
  - unfold mem. rewrite existsb_app. cbn [existsb]. now rewrite orb_false_r.
Qed.

Lemma set_column_keeps cols df c f :
  ~ In c cols -> keeps cols df (set_column df c f).
Proof.
  intros N. split.
  - intros c' H. rewrite has_column_set_column, H. reflexivity.
  - exists (fun r => set_cell r c (f r)). split; [reflexivity|].
    intros r c' I. unfold set_cell.
    destruct (String.eqb_spec c' c) as [->|_]; [contradiction|reflexivity].
Qed.

Section Collisions.
Variable to_datetime : cell -> option Timestamp.
Variable dayofweek : Timestamp -> Z.
Variable parse_number : string -> cell.
Variable strip_upper : cell -> cell.
Variable transform : CRS -> CRS -> Point -> Point.
Variable float_of_text : string -> option Q.

Let cleaned := clean_collisions to_datetime dayofweek parse_number strip_upper transform float_of_text.

Lemma clean_collisions_stages df :
  has_column df "Accident_Date" = true ->
  cleaned df =
  (gdf <- df_to_points float_of_text (counted parse_number strip_upper (stamped to_datetime dayofweek parse_number df)) "Long" "Lat" WGS84 ;;
   to_projected transform gdf DEFAULT_CRS).
Proof. intros H. subst cleaned. unfold clean_collisions. rewrite H. reflexivity. Qed.

Lemma stamped_columns df c :
  has_column df c = true -> has_column (stamped to_datetime dayofweek parse_number df) c = true.
Proof.
  intros H. unfold stamped.
  destruct (has_column _ "Hour"); rewrite !has_column_set_column, H; reflexivity.
Qed.

Lemma stamped_rows df :
  rows (stamped to_datetime dayofweek parse_number df) = map (stamp_row to_datetime dayofweek parse_number (has_column df "Hour")) (rows df).
Proof.
  unfold stamped. rewrite !has_column_set_column. cbn [String.eqb Ascii.eqb Bool.eqb].
  rewrite !orb_false_r.
  destruct (has_column df "Hour"); unfold set_column; cbn [rows];
    rewrite !map_map; reflexivity.
Qed.

Lemma normalize_keeps df col :
  ~ In col dated_columns -> keeps dated_columns df (normalize_if_present strip_upper df col).
Proof.
  intros N. unfold normalize_if_present.
  destruct (has_column df col); [now apply set_column_keeps|apply keeps_refl].
Qed.

Lemma resolve_count_keeps df target candidates :
  ~ In target dated_columns ->
  keeps dated_columns df (resolve_count parse_number df target candidates).
Proof.
  intros N. unfold resolve_count.
  destruct (has_column df target); [apply keeps_refl|].
  destruct (first_present df candidates); now apply set_column_keeps.
Qed.

Lemma counted_keeps df : keeps dated_columns df (counted parse_number strip_upper df).
Proof.
  unfold counted. cbn [fold_left].
  assert (forall c, In c ["Light"; "Traffic_Control"; "Classification_Of_Accident";
                          "num_of_fatal"; "num_of_injuries"]%string ->
                    ~ In c dated_columns) as Hn.
  { intros c I X. unfold dated_columns in X. cbn [In] in I, X.
    repeat (destruct I as [<-|I]; [repeat (destruct X as [X|X]; [discriminate X|]);
                                   exact X|]). exact I. }
  repeat (eapply keeps_trans;
          [|first [apply resolve_count_keeps|apply normalize_keeps];
            apply Hn; cbn [In]; tauto]).
  apply keeps_refl.
Qed.

Lemma stamp_row_fields hour_col r : date_fields to_datetime dayofweek parse_number hour_col r (stamp_row to_datetime dayofweek parse_number hour_col r).
Proof.
  unfold date_fields, stamp_row, set_cell, datetime_cell, dt.
  cbn [String.eqb Ascii.eqb Bool.eqb].
  destruct (to_datetime (r "Accident_Date"%string)); repeat split; reflexivity.
Qed.

Lemma date_fields_ext hour_col r r1 r2 :
  (forall c, In c dated_columns -> r2 c = r1 c) ->
  date_fields to_datetime dayofweek parse_number hour_col r r1 -> date_fields to_datetime dayofweek parse_number hour_col r r2.
Proof.
  intros E. unfold date_fields.
  rewrite !E by (unfold dated_columns; cbn [In]; tauto). auto.
Qed.
Lemma filter_map_comm {T U} (f : T -> U) (p : U -> bool) (q : T -> bool) (l : list T) :
  (forall a, p (f a) = q a) -> filter p (map f l) = map f (filter q l).
Proof.
  intros E. induction l as [|h t IH]; [reflexivity|]. cbn [map filter].
  rewrite E. destruct (q h); cbn [map]; now rewrite IH.
Qed.

Lemma Forall2_map_right {T U} (R : T -> U -> Prop) (f : T -> U) (l : list T) :
  (forall a, R a (f a)) -> Forall2 R l (map f l).
Proof. intros H. induction l; constructor; auto. Qed.

(** C8 (amended): on a table with an accident date and numeric
    coordinates the collision cleaner succeeds whatever the dates are; a
    record keeps the parsed date, or a missing one when it does not parse,
    and its year, month and day of week are read from that parsed date
    (missing when it is); its hour is the number read from the separate
    [Hour] column, missing when the table has no such column. *)
Theorem C8_collision_date_fields (df : DataFrame) :
  has_column df "Accident_Date" = true ->
  has_column df "Long" = true -> has_column df "Lat" = true ->
  numeric_column df "Long" -> numeric_column df "Lat" ->
  exists out,
    cleaned df = Ok out /\
    Forall2 (date_fields to_datetime dayofweek parse_number (has_column df "Hour"))
            (filter (fun r => negb (missing_coords "Long" "Lat" r)) (rows df))
            (map fst (grows out)).
Proof.
  intros Hd Hx Hy Nx Ny. rewrite (clean_collisions_stages df Hd).
  destruct (counted_keeps (stamped to_datetime dayofweek parse_number df)) as [Hcols (F & HR & HK)].
  set (final := counted parse_number strip_upper (stamped to_datetime dayofweek parse_number df)) in *.
  set (T := fun r => F (stamp_row to_datetime dayofweek parse_number (has_column df "Hour") r)).
  assert (rows final = map T (rows df)) as Hrows
    by (now rewrite HR, stamped_rows, map_map).
  assert (forall r c, In c dated_columns ->
                      T r c = stamp_row to_datetime dayofweek parse_number (has_column df "Hour") r c) as HT
    by (intros; subst T; now apply HK).
  assert (forall r, T r "Long"%string = r "Long"%string /\
                    T r "Lat"%string = r "Lat"%string) as Hcoord.
  { intros r. rewrite !HT by (unfold dated_columns; cbn [In]; tauto).
    split; reflexivity. }
  assert (forall col, col = "Long"%string \/ col = "Lat"%string ->
                      numeric_column df col -> numeric_column final col) as Hnum.
  { intros col Hcol N r' I. rewrite Hrows in I. apply in_map_iff in I.
    destruct I as (r & <- & I). destruct (Hcoord r) as [E1 E2].
    destruct Hcol as [->| ->]; rewrite ?E1, ?E2; now apply N. }
  destruct (df_to_points_spec float_of_text final "Long" "Lat" WGS84) as (gdf & E & _ & Hfst & _ & Hcrs);
    auto using stamped_columns.
  rewrite E. cbn [bind]. unfold to_projected. rewrite Hcrs.
  change (String.eqb WGS84 DEFAULT_CRS) with false. cbv iota.
  eexists. split; [reflexivity|].
  unfold to_crs. cbn [grows]. rewrite map_map. cbn [fst].
  change (fun x : Row * Point => fst x) with (@fst Row Point).
  rewrite Hfst, Hrows.
  rewrite (filter_map_comm T _ (fun r => negb (missing_coords "Long" "Lat" r))).
  - apply Forall2_map_right. intros r.
    apply (date_fields_ext _ r (stamp_row to_datetime dayofweek parse_number (has_column df "Hour") r)).
    + intros c I. now apply HT.
    + apply stamp_row_fields.
  - intros r. unfold missing_coords. destruct (Hcoord r) as [-> ->]. reflexivity.
Qed.
End Collisions.

(** C8, the claim as stated fails: the date of the record parses to an
    hour of 15, and the record's hour field is 7, the value of the [Hour]
    column. *)
Lemma C8_hour_counterexample :
  exists out r t,
    sample_clean sample_collisions = Ok out /\
    In r (map fst (grows out)) /\
    r "Accident_Date"%string = Stamp t /\ ts_hour t = 15 /\
    r "hour"%string = Int 7 /\ r "hour"%string <> Int (ts_hour t).
Proof.
  do 3 eexists. split; [reflexivity|]. split; [left; reflexivity|].
  split; [reflexivity|]. split; [reflexivity|]. split; [reflexivity|]. discriminate.
Qed.

Lemma C8_collision_date_fields_witness :
  has_column sample_collisions "Accident_Date" = true /\
  exists out,
    sample_clean sample_collisions = Ok out /\
    Forall2 (date_fields sample_to_datetime sample_dayofweek (fun _ => NA)
                         (has_column sample_collisions "Hour"))
            (filter (fun r => negb (missing_coords "Long" "Lat" r)) (rows sample_collisions))
            (map fst (grows out)).
Proof.
  split; [reflexivity|].
  apply (C8_collision_date_fields sample_to_datetime sample_dayofweek (fun _ => NA)
                                  (fun c => c) shift_east sample_float_of_text
                                  sample_collisions);
    try reflexivity; intros r [<-|[<-|[]]]; right; reflexivity.
Defined.

End CleanClaims.

(** ** Further properties of the feature builder *)

Module BuildMore.
Import Frame FrameFacts Build Stages BuildNotions Samples MoreSamples BuildFacts QuantileFacts
       BuildClaims.

Lemma find_by_key {K V} `{KeyLaws K} (l : list (K * V)) (k : K) (v : V) :
  NoDup (map fst l) -> In (k, v) l -> find (fun s => keqb k (fst s)) l = Some (k, v).
Proof.
  induction l as [|[k' v'] t IH]; intros ND I; [destruct I|].
  inversion ND as [|? ? Nin ND']; subst. cbn [find fst].
  destruct I as [E|I].
  - injection E as -> ->. now rewrite keqb_refl.
  - destruct (keqb k k') eqn:E; [|auto].
    apply keqb_eq in E; subst. exfalso. apply Nin.
    change k' with (fst (k', v)). now apply in_map.
Qed.

Lemma find_no_key {K V} `{KeyLaws K} (l : list (K * V)) (k : K) :
  ~ In k (map fst l) -> find (fun s => keqb k (fst s)) l = None.
Proof.
  induction l as [|[k' v'] t IH]; intros N; [reflexivity|]. cbn [find fst].
  destruct (keqb k k') eqn:E.
  - apply keqb_eq in E; subst. exfalso. apply N. now left.
  - apply IH. intros I. apply N. now right.
Qed.

Lemma add_sums_map present src set joined agg :
  add_sums present src set joined agg =
  map (fun a => set a (if present
                       then option_map snd (find (on_key a) (group_sums src joined))
                       else Some 0)) agg.
Proof.
  unfold add_sums. destruct present; [|reflexivity].
  rewrite merge_left_map; [reflexivity|].
  intros a _. apply (filter_unique fst _ (a_key a)).
  - unfold group_sums. rewrite map_map. simpl.
    change (fun x : Z * Z * list JoinedRow => fst x) with (@fst (Z * Z) (list JoinedRow)).
    apply groupby_NoDup.
  - intros s _ E. unfold on_key in E. apply keqb_eq in E. now symmetry.
Qed.

Lemma merge_roads_map agg roads :
  merge_roads agg roads =
  map (fun a => set_attrs a (match find (on_segment a) (drop_duplicates r_RD_SEGMENT_ID roads)
                             with Some r => r_attrs r | None => no_attrs end)) agg.
Proof.
  unfold merge_roads. rewrite merge_left_map; [reflexivity|].
  intros a _. apply (filter_unique r_RD_SEGMENT_ID _ (Some (fst (a_key a)))).
  - apply drop_duplicates_NoDup.
  - intros r _ E. unfold on_segment in E.
    destruct (r_RD_SEGMENT_ID r); [|discriminate].
    apply keqb_eq in E. now subst.
Qed.

Lemma merge_construction_map df cjoin :
  merge_construction df (option_map construction_flags cjoin) =
  map (fun a => set_flag a
                  (match cjoin with
                   | Some cj => option_map snd
                                  (find (fun f => keqb (fst (a_key a)) (fst f))
                                        (construction_flags cj))
                   | None => Some 0
                   end)) df.
Proof.
  destruct cjoin as [cj|]; [|reflexivity]. cbn [option_map merge_construction].
  rewrite merge_left_map; [reflexivity|].
  intros a _. apply (filter_unique fst _ (fst (a_key a))).
  - unfold construction_flags. rewrite map_map. simpl.
    change (fun x : Z * list (option Z * option Z) => fst x)
      with (@fst Z (list (option Z * option Z))).
    apply groupby_NoDup.
  - intros s _ E. apply keqb_eq in E. now symmetry.
Qed.

Lemma find_filter_keep {T} (p q : T -> bool) (l : list T) :
  (forall a, p a = true -> q a = true) -> find p (filter q l) = find p l.
Proof.
  intros Hpq. induction l as [|h t IH]; [reflexivity|]. cbn [filter find].
  destruct (p h) eqn:Ep.
  - rewrite (Hpq h Ep). cbn [find]. now rewrite Ep.
  - destruct (q h); cbn [find]; rewrite ?Ep; exact IH.
Qed.

(** Deduplication keeps, for every segment, the first road row that has it. *)
Lemma find_drop_duplicates roads s :
  find (is_segment s) (drop_duplicates r_RD_SEGMENT_ID roads) = road_of roads s.
Proof.
  unfold road_of. induction roads as [|h t IH]; [reflexivity|].
  cbn [drop_duplicates find]. destruct (is_segment s h) eqn:E; [reflexivity|].
  rewrite find_filter_keep; [exact IH|].
  intros r Hr. unfold is_segment in E, Hr. apply negb_true_iff.
  destruct (r_RD_SEGMENT_ID r) as [sr|]; [|discriminate].
  apply Z.eqb_eq in Hr; subst sr.
  destruct (r_RD_SEGMENT_ID h) as [sh|]; [|reflexivity]. cbn. 
  rewrite Z.eqb_sym. exact E.
Qed.

Lemma group_sum_found src joined k g :
  In (k, g) (groupby segment_year (jrows joined)) ->
  find (fun s => keqb k (fst s)) (group_sums src joined) =
  Some (k, sum_skipna (map src (events_of joined k))).
Proof.
  intros I. apply find_by_key.
  - unfold group_sums. rewrite map_map. simpl.
    change (fun x : Z * Z * list JoinedRow => fst x) with (@fst (Z * Z) (list JoinedRow)).
    apply groupby_NoDup.
  - unfold group_sums. apply in_map_iff. exists (k, g). split; [|exact I].
    cbn [fst snd]. apply groupby_In in I. destruct I as [_ ->]. reflexivity.
Qed.

Lemma flag_found cj s :
  fillna 0 (option_map snd (find (fun f => keqb s (fst f)) (construction_flags cj))) =
  fillna 0 (max_skipna (markers_of cj s)).
Proof.
  destruct (in_dec Z.eq_dec s (map fst (groupby fst cj))) as [I|N].
  - apply in_map_iff in I. destruct I as ([s' g] & E & I). cbn in E. subst s'.
    rewrite (find_by_key (construction_flags cj) s (fillna 0 (max_skipna (map snd g)))).
    + cbn [option_map snd fillna]. apply groupby_In in I. destruct I as [_ ->]. reflexivity.
    + unfold construction_flags. rewrite map_map. simpl.
      change (fun x : Z * list (option Z * option Z) => fst x)
        with (@fst Z (list (option Z * option Z))).
      apply groupby_NoDup.
    + unfold construction_flags. apply in_map_iff. exists (s, g). split; [reflexivity|exact I].
  - rewrite find_no_key.
    + cbn [option_map fillna]. unfold markers_of.
      destruct (filter (has_key fst s) cj) as [|r t] eqn:F; [reflexivity|exfalso].
      assert (In r (filter (has_key fst s) cj)) as I by (rewrite F; now left).
      apply filter_In in I. destruct I as [I Hk]. apply has_key_true in Hk.
      apply N. change s with (fst (s, filter (has_key fst s) cj)). apply in_map.
      apply groupby_In. split; [exists r; auto|reflexivity].
    + unfold construction_flags. rewrite map_map. simpl.
      change (fun x : Z * list (option Z * option Z) => fst x)
        with (@fst Z (list (option Z * option Z))). exact N.
Qed.

(** Every row of the merged aggregate, once filled, holds what the joined
    events, the first road row of its segment and the construction join
    say. *)
Lemma merged_rows joined roads cjoin a i :
  In a (merged joined roads cjoin) ->
  record_matches joined roads cjoin (filled_of i a).
Proof.
  unfold merged. rewrite merge_construction_map, merge_roads_map, !add_sums_map.
  unfold aggregate. rewrite !map_map. intros I. apply in_map_iff in I.
  destruct I as ([k g] & <- & I).
  pose proof (group_nonempty _ _ _ _ I) as NE.
  pose proof I as I'. apply groupby_In in I'. destruct I' as [_ Eg].
  unfold record_matches, filled_of, set_flag, set_attrs, set_injuries, set_fatal.
  cbn [a_key a_collisions_total a_fatal_major a_injuries_total a_attrs a_construction_flag
       RD_SEGMENT_ID year collisions_total fatal_major injuries_total attrs construction_flag
       fst snd].
  unfold on_key. cbn [a_key].
  rewrite !(group_sum_found _ joined k g I). rewrite sum_ones.
  replace (k) with (fst k, snd k) at 1 by now destruct k.
  destruct k as [s y]. cbn [fst snd].
  unfold events_of at 1 2. rewrite <- Eg.
  repeat split; auto.
  - unfold severity. now destruct (has_num_of_fatal joined).
  - unfold severity. now destruct (has_num_of_injuries joined).
  - unfold attrs_of.
    replace (find _ (drop_duplicates r_RD_SEGMENT_ID roads)) with (road_of roads s);
      [reflexivity|]. symmetry. apply find_drop_duplicates.
  - unfold flag_of. destruct cjoin as [cj|]; [|reflexivity]. apply flag_found.
Qed.

Lemma fill_numeric_filled df :
  fill_numeric df = map (fun ia => filled_of (fst ia) (snd ia))
                        (combine (seq 0 (List.length df)) df).
Proof. reflexivity. Qed.

Lemma out_records joined roads cjoin r :
  In r (feature_table joined roads cjoin) ->
  record_matches joined roads cjoin (base r).
Proof.
  intros I. apply (in_map base) in I. rewrite feature_table_base in I.
  apply (Permutation_in _ (sorted_frame_perm _ _ _)) in I.
  rewrite fill_numeric_filled in I. apply in_map_iff in I.
  destruct I as ([i a] & <- & I). apply in_combine_r in I. now apply merged_rows.
Qed.

Lemma table_severity_totals joined roads cjoin :
  Forall (fun r =>
            let k := (RD_SEGMENT_ID (base r), year (base r)) in
            fatal_major (base r) =
            (if has_num_of_fatal joined
             then sum_skipna (map num_of_fatal (events_of joined k)) else 0) /\
            injuries_total (base r) =
            (if has_num_of_injuries joined
             then sum_skipna (map num_of_injuries (events_of joined k)) else 0))
         (feature_table joined roads cjoin).
Proof.
  apply Forall_forall. intros r I.
  destruct (out_records joined roads cjoin r I) as (_ & _ & F & J & _). split; assumption.
Qed.

(** X2: in every record, the fatality and injury totals are the sums of the
    source columns over the joined events of the record's segment and year,
    missing cells counting as zero; a total is zero when its source column
    does not exist. *)
Theorem X2_severity_totals joined roads cjoin out :
  build_features joined roads cjoin = Geo.Ok out ->
  Forall (fun r =>
            let k := (RD_SEGMENT_ID (base r), year (base r)) in
            fatal_major (base r) =
            (if has_num_of_fatal joined
             then sum_skipna (map num_of_fatal (events_of joined k)) else 0) /\
            injuries_total (base r) =
            (if has_num_of_injuries joined
             then sum_skipna (map num_of_injuries (events_of joined k)) else 0))
         out.
Proof.
  intros E. rewrite (build_features_ok _ _ _ _ E). apply table_severity_totals.
Qed.

Lemma table_road_attributes joined roads cjoin :
  let out := feature_table joined roads cjoin in
  Forall (fun r =>
            match road_of roads (RD_SEGMENT_ID (base r)) with
            | Some rd =>
                r_RD_SEGMENT_ID rd = Some (RD_SEGMENT_ID (base r)) /\
                attrs (base r) = filled_attrs (r_attrs rd)
            | None =>
                (forall rd, In rd roads -> r_RD_SEGMENT_ID rd <> Some (RD_SEGMENT_ID (base r))) /\
                attrs (base r) = mkRoadAttrs (Some 0%Q) None None None None None
            end) out /\
  (forall r r', In r out -> In r' out ->
                RD_SEGMENT_ID (base r) = RD_SEGMENT_ID (base r') ->
                attrs (base r) = attrs (base r')).
Proof.
  intros out. split.
  - apply Forall_forall. intros r I.
    destruct (out_records joined roads cjoin r I) as (_ & _ & _ & _ & A & _).
    rewrite A. unfold attrs_of, road_of.
    destruct (find (is_segment (RD_SEGMENT_ID (base r))) roads) as [rd|] eqn:F.
    + split; [|reflexivity]. apply find_some in F. destruct F as [_ F].
      unfold is_segment in F. destruct (r_RD_SEGMENT_ID rd); [|discriminate].
      apply Z.eqb_eq in F. now subst.
    + split; [|reflexivity]. intros rd Ird E.
      pose proof (find_none _ _ F rd Ird) as N. unfold is_segment in N.
      rewrite E, Z.eqb_refl in N. discriminate.
  - intros r r' I I' E.
    destruct (out_records joined roads cjoin r I) as (_ & _ & _ & _ & A & _).
    destruct (out_records joined roads cjoin r' I') as (_ & _ & _ & _ & A' & _).
    now rewrite A, A', E.
Qed.


Lemma max_markers (l : list (option Z)) :
  (forall m, In m l -> m = None \/ m = Some 1) ->
  fillna 0 (max_skipna l) =
  if existsb (fun m => match m with Some _ => true | None => false end) l then 1 else 0.
Proof.
  induction l as [|m t IH]; intros Hm; [reflexivity|].
  specialize (IH (fun m I => Hm m (or_intror I))).
  cbn [max_skipna fold_right existsb]. fold (max_skipna t).
  destruct (Hm m (or_introl eq_refl)) as [-> | ->]; cbn [orb]; [exact IH|].
  destruct (max_skipna t) as [v|]; [|reflexivity]. cbn [fillna] in *.
  destruct (existsb _ t); subst; reflexivity.
Qed.

Lemma markers_present cj s :
  existsb (fun m : option Z => match m with Some _ => true | None => false end)
          (map snd (filter (has_key fst s) cj)) =
  existsb (has_marker s) cj.
Proof.
  induction cj as [|row t IH]; [reflexivity|].
  cbn [filter existsb]. unfold has_marker at 1.
  destruct (has_key fst s row); cbn [map existsb andb orb]; now rewrite IH.
Qed.

Lemma table_construction_flag joined roads cjoin :
  let out := feature_table joined roads cjoin in
  Forall (fun r => construction_flag (base r) = flag_of cjoin (RD_SEGMENT_ID (base r))) out /\
  (cjoin = None -> Forall (fun r => construction_flag (base r) = 0) out) /\
  (forall cj, cjoin = Some cj ->
     (forall row, In row cj -> snd row = None \/ snd row = Some 1) ->
     Forall (fun r => construction_flag (base r) =
                      if existsb (has_marker (RD_SEGMENT_ID (base r))) cj then 1 else 0) out).
Proof.
  intros out.
  assert (Forall (fun r => construction_flag (base r) = flag_of cjoin (RD_SEGMENT_ID (base r)))
                 out) as H.
  { apply Forall_forall. intros r I.
    now destruct (out_records joined roads cjoin r I) as (_ & _ & _ & _ & _ & C). }
  split; [exact H|]. split.
  - intros ->. exact H.
  - intros cj -> Hm. eapply Forall_impl; [|exact H]. intros r ->. cbn [flag_of].
    unfold markers_of. rewrite max_markers.
    + now rewrite markers_present.
    + intros m I. apply in_map_iff in I. destruct I as (row & <- & I).
      apply filter_In in I. now apply Hm.
Qed.

(** *** Conservation of events *)

Section GroupSizes.
Context {A K : Type} `{KeyLaws K} (key : A -> option K).

Lemma list_sum_step (n : nat) (l : list nat) : list_sum (n :: l) = (n + list_sum l)%nat.
Proof. reflexivity. Qed.

Lemma indicator_out (ks : list K) (k0 : K) :
  ~ In k0 ks -> list_sum (map (fun k => if keqb k k0 then 1%nat else 0%nat) ks) = 0%nat.
Proof.
  induction ks as [|a t IH]; intros N; [reflexivity|]. cbn [map]. rewrite !list_sum_step.
  destruct (keqb a k0) eqn:E; [apply keqb_eq in E; subst; exfalso; apply N; now left|].
  apply IH. intros I. apply N. now right.
Qed.

Lemma indicator_in (ks : list K) (k0 : K) :
  NoDup ks -> In k0 ks ->
  list_sum (map (fun k => if keqb k k0 then 1%nat else 0%nat) ks) = 1%nat.
Proof.
  induction ks as [|k t IH]; intros ND I; [destruct I|].
  inversion ND as [|? ? Nin ND']; subst. cbn [map]. rewrite !list_sum_step.
  destruct (keqb k k0) eqn:E.
  - apply keqb_eq in E. rewrite E in Nin. now rewrite (indicator_out t k0 Nin).
  - destruct I as [->|I]; [rewrite keqb_refl in E; discriminate|]. now rewrite IH.
Qed.

Lemma list_sum_add {T} (f g : T -> nat) (l : list T) :
  list_sum (map (fun a => (f a + g a)%nat) l) = (list_sum (map f l) + list_sum (map g l))%nat.
Proof. induction l as [|h t IH]; [reflexivity|]. cbn [map]. rewrite !list_sum_step. rewrite IH. lia. Qed.

Lemma list_sum_zero {T} (l : list T) : list_sum (map (fun _ => 0%nat) l) = 0%nat.
Proof. induction l; auto. Qed.

(** The groups of a table partition its keyed rows. *)
Lemma group_sizes (ks : list K) (rows : list A) :
  NoDup ks ->
  (forall r k, In r rows -> key r = Some k -> In k ks) ->
  list_sum (map (fun k => List.length (filter (has_key key k) rows)) ks) =
  List.length (filter (fun r => match key r with Some _ => true | None => false end) rows).
Proof.
  intros ND. induction rows as [|r t IH]; intros Hk.
  - cbn [filter List.length]. apply list_sum_zero.
  - specialize (IH (fun r k I => Hk r k (or_intror I))).
    transitivity (list_sum (map (fun k => ((if has_key key k r then 1 else 0) +
                                           List.length (filter (has_key key k) t))%nat) ks)).
    { f_equal. apply map_ext. intros k. cbn [filter]. now destruct (has_key key k r). }
    rewrite list_sum_add, IH. cbn [filter]. unfold has_key.
    destruct (key r) as [k0|] eqn:E.
    + rewrite indicator_in; [reflexivity|exact ND|]. apply (Hk r k0); auto. now left.
    + now rewrite list_sum_zero.
Qed.
End GroupSizes.

Lemma sum_Z_perm (l l' : list Z) : Permutation l l' -> sum_Z l = sum_Z l'.
Proof.
  unfold sum_Z. induction 1; cbn [fold_right]; lia.
Qed.

Lemma sum_Z_of_nat {T} (f : T -> nat) (l : list T) :
  sum_Z (map (fun a => Z.of_nat (f a)) l) = Z.of_nat (list_sum (map f l)).
Proof.
  unfold sum_Z. induction l as [|h t IH]; [reflexivity|].
  cbn [map fold_right]. rewrite !list_sum_step, IH. lia.
Qed.

Lemma table_events_conserved joined roads cjoin :
  sum_Z (totals (feature_table joined roads cjoin)) =
  Z.of_nat (List.length (filter keyed (jrows joined))).
Proof.
  unfold totals. rewrite <- (map_map base collisions_total), feature_table_base.
  rewrite (sum_Z_perm _ _ (Permutation_map collisions_total (sorted_frame_perm _ _ _))).
  change collisions_total with (fun f => snd (filled_core f)).
  rewrite <- (map_map filled_core snd), fill_numeric_core, merged_core, map_map.
  cbn [snd]. unfold groupby. rewrite map_map. cbn [snd].
  rewrite (sum_Z_of_nat (fun k => List.length (filter (has_key segment_year k) (jrows joined)))).
  f_equal. rewrite (group_sizes segment_year).
  - reflexivity.
  - eapply Permutation_NoDup; [symmetry; apply sort_by_perm|apply distinct_NoDup].
  - intros r k I E. apply (sort_by_In kleb), distinct_In, present_keys_In. eauto.
Qed.


(** *** Labels of a year depend on that year's events only *)

Lemma sorted_lt_unique (l1 l2 : list Z) :
  StronglySorted Z.lt l1 -> StronglySorted Z.lt l2 ->
  (forall a, In a l1 <-> In a l2) -> l1 = l2.
Proof.
  intros S1. revert l2. induction S1 as [|a t1 S1 IH F1]; intros l2 S2 Hin.
  - destruct l2 as [|b t2]; [reflexivity|]. exfalso. apply (Hin b). now left.
  - destruct S2 as [|b t2 S2 F2]; [exfalso; apply (Hin a); now left|].
    rewrite Forall_forall in F1, F2.
    assert (a = b) as ->.
    { destruct (proj1 (Hin a) (or_introl eq_refl)) as [E|Ia]; [now symmetry|].
      destruct (proj2 (Hin b) (or_introl eq_refl)) as [E|Ib]; [exact E|].
      specialize (F1 b Ib). specialize (F2 a Ia). lia. }
    f_equal. apply IH; [exact S2|]. intros c. split; intros I.
    + destruct (proj1 (Hin c) (or_intror I)) as [E|I']; [|exact I'].
      specialize (F1 c I). lia.
    + destruct (proj2 (Hin c) (or_intror I)) as [E|I']; [|exact I'].
      specialize (F2 c I). lia.
Qed.

(** The segments of a year cohort of a frame sorted by distinct keys are
    strictly increasing. *)
Lemma cohort_segments_sorted (df : list Filled) (y : Z) :
  key_sorted df -> NoDup (map sort_key df) ->
  StronglySorted Z.lt (map RD_SEGMENT_ID (filter (fun f => year f =? y) df)).
Proof.
  intros S. induction S as [|h t S IH F]; intros ND; [constructor|].
  inversion ND as [|? ? Nin ND']; subst. cbn [filter].
  destruct (Z.eqb_spec (year h) y) as [Ey|_]; [|now apply IH].
  cbn [map]. constructor; [now apply IH|].
  rewrite Forall_forall in *. intros s Is. apply in_map_iff in Is.
  destruct Is as (f & <- & If). apply filter_In in If. destruct If as [If Ef].
  apply Z.eqb_eq in Ef. pose proof (F f If) as L.
  pose proof (key_le_segment _ _ L) as Ls.
  destruct (Z.eq_dec (RD_SEGMENT_ID h) (RD_SEGMENT_ID f)) as [E|N]; [|lia].
  exfalso. apply Nin. apply in_map_iff. exists f. split; [|exact If].
  unfold sort_key. congruence.
Qed.

Lemma map_filter_base (p : Filled -> bool) (out : list SegYear) :
  map base (filter (fun r => p (base r)) out) = filter p (map base out).
Proof.
  induction out as [|r t IH]; [reflexivity|]. cbn [filter map].
  destruct (p (base r)); cbn [map]; now rewrite IH.
Qed.


Lemma cohort_segments joined roads cjoin y s :
  In s (map (fun r => RD_SEGMENT_ID (base r)) (cohort y (feature_table joined roads cjoin)))
  <-> events_of joined (s, y) <> [].
Proof.
  rewrite <- record_iff_events. rewrite in_map_iff. split.
  - intros (r & <- & I). apply cohort_In in I. destruct I as [I <-]. eauto.
  - intros (r & I & E). injection E as <- <-. exists r. split; [reflexivity|].
    apply cohort_In. auto.
Qed.

Lemma cohort_totals_by_segment joined roads cjoin y :
  let g := cohort y (feature_table joined roads cjoin) in
  totals g = map (fun s => Z.of_nat (List.length (events_of joined (s, y))))
                 (map (fun r => RD_SEGMENT_ID (base r)) g).
Proof.
  intros g. unfold totals. rewrite map_map. apply map_ext_in. intros r I.
  apply cohort_In in I. destruct I as [I <-]. now apply record_total in I.
Qed.

Lemma cohort_view_by_segment joined roads cjoin y :
  let g := cohort y (feature_table joined roads cjoin) in
  cohort_view y (feature_table joined roads cjoin) =
  map (fun s => let c := Z.of_nat (List.length (events_of joined (s, y))) in
                (s, c, Some (if thr5 (totals g) <=? 5 * c then 1 else 0)))
      (map (fun r => RD_SEGMENT_ID (base r)) g).
Proof.
  intros g. unfold cohort_view. fold g. rewrite map_map. apply map_ext_in. intros r I.
  apply cohort_In in I. destruct I as [I Ey].
  rewrite (high_risk_thr5 joined roads cjoin r I), Ey. fold g.
  destruct (record_total joined roads cjoin r I) as [_ Ec]. rewrite Ey in Ec.
  cbv zeta. now rewrite <- Ec.
Qed.

Lemma table_labels_of_a_year joined1 roads1 cjoin1 joined2 roads2 cjoin2 y :
  (forall s, List.length (events_of joined1 (s, y)) = List.length (events_of joined2 (s, y))) ->
  cohort_view y (feature_table joined1 roads1 cjoin1) =
  cohort_view y (feature_table joined2 roads2 cjoin2).
Proof.
  intros H.
  set (g1 := cohort y (feature_table joined1 roads1 cjoin1)).
  set (g2 := cohort y (feature_table joined2 roads2 cjoin2)).
  assert (map (fun r => RD_SEGMENT_ID (base r)) g1 = map (fun r => RD_SEGMENT_ID (base r)) g2)
    as Hs.
  { subst g1 g2. unfold cohort.
    rewrite <- !(map_map base RD_SEGMENT_ID), !(map_filter_base (fun f => year f =? y)),
            !feature_table_base.
    apply sorted_lt_unique;
      try (apply cohort_segments_sorted; [apply sorted_frame_sorted|apply sorted_frame_keys]).
    intros s.
    pose proof (cohort_segments joined1 roads1 cjoin1 y s) as C1.
    pose proof (cohort_segments joined2 roads2 cjoin2 y s) as C2.
    unfold cohort in C1, C2.
    rewrite <- !(map_map base RD_SEGMENT_ID), !(map_filter_base (fun f => year f =? y)),
            !feature_table_base in C1, C2.
    rewrite C1, C2.
    assert (forall (T : Type) (l : list T), l <> [] <-> List.length l <> 0%nat) as Hl
      by (intros T [|? ?]; cbn; split; intros; congruence).
    now rewrite !Hl, H. }
  assert (totals g1 = totals g2) as Ht.
  { pose proof (cohort_totals_by_segment joined1 roads1 cjoin1 y) as T1.
    pose proof (cohort_totals_by_segment joined2 roads2 cjoin2 y) as T2.
    cbv zeta in T1, T2. fold g1 in T1. fold g2 in T2. rewrite T1, T2, Hs.
    apply map_ext. intros s. now rewrite H. }
  pose proof (cohort_view_by_segment joined1 roads1 cjoin1 y) as V1.
  pose proof (cohort_view_by_segment joined2 roads2 cjoin2 y) as V2.
  cbv zeta in V1, V2. fold g1 in V1. fold g2 in V2. rewrite V1, V2, Hs, Ht.
  apply map_ext. intros s. now rewrite H.
Qed.

Lemma sample_2022_same_2020 s :
  List.length (events_of sample_joined (s, 2020)) =
  List.length (events_of sample_joined_2022 (s, 2020)).
Proof.
  unfold events_of, sample_joined_2022. cbn [jrows filter].
  unfold has_key at 2. cbn [segment_year event j_RD_SEGMENT_ID j_year keqb Key_pair Key_Z fst snd].
  replace (2020 =? 2022) with false by reflexivity. now rewrite andb_false_r.
Qed.

Lemma sample_2022_returned :
  build_features sample_joined_2022 sample_roads (Some sample_cjoin) =
  Geo.Ok sample_table_2022.
Proof. apply build_features_returns. vm_compute. discriminate. Qed.

(** X1: the collision totals of the returned table add up to the number of
    joined events that have both a segment and a year: no event is counted
    twice and none is lost by the grouping and the merges. *)
Theorem X1_events_conserved joined roads cjoin out :
  build_features joined roads cjoin = Geo.Ok out ->
  sum_Z (totals out) = Z.of_nat (List.length (filter keyed (jrows joined))).
Proof.
  intros E. rewrite (build_features_ok _ _ _ _ E). apply table_events_conserved.
Qed.

Lemma X1_events_conserved_witness :
  build_features sample_joined [] None = Geo.Ok sample_table /\
  List.length (jrows sample_joined) = 22%nat /\
  sum_Z (totals sample_table) = 20 /\
  sum_Z (totals sample_table) =
  Z.of_nat (List.length (filter keyed (jrows sample_joined))).
Proof.
  split; [exact sample_returned|]. split; [reflexivity|]. split; [vm_compute; reflexivity|].
  exact (X1_events_conserved sample_joined [] None sample_table sample_returned).
Defined.

Lemma X2_severity_totals_witness :
  build_features sample_joined [] None = Geo.Ok sample_table /\
  Forall (fun r =>
            let k := (RD_SEGMENT_ID (base r), year (base r)) in
            fatal_major (base r) =
            (if has_num_of_fatal sample_joined
             then sum_skipna (map num_of_fatal (events_of sample_joined k)) else 0) /\
            injuries_total (base r) =
            (if has_num_of_injuries sample_joined
             then sum_skipna (map num_of_injuries (events_of sample_joined k)) else 0))
         sample_table.
Proof.
  split; [exact sample_returned|].
  exact (X2_severity_totals sample_joined [] None sample_table sample_returned).
Defined.

(** X3: a record carries the attributes of the first road row that has its
    segment identifier, later duplicates being ignored, with a missing
    length filled by zero; when no road row has the identifier the
    categorical attributes are missing and the length is zero; records of
    one segment carry the same attributes. *)
Theorem X3_road_attributes joined roads cjoin out :
  build_features joined roads cjoin = Geo.Ok out ->
  Forall (fun r =>
            match road_of roads (RD_SEGMENT_ID (base r)) with
            | Some rd =>
                r_RD_SEGMENT_ID rd = Some (RD_SEGMENT_ID (base r)) /\
                attrs (base r) = filled_attrs (r_attrs rd)
            | None =>
                (forall rd, In rd roads -> r_RD_SEGMENT_ID rd <> Some (RD_SEGMENT_ID (base r))) /\
                attrs (base r) = mkRoadAttrs (Some 0%Q) None None None None None
            end) out /\
  (forall r r', In r out -> In r' out ->
                RD_SEGMENT_ID (base r) = RD_SEGMENT_ID (base r') ->
                attrs (base r) = attrs (base r')).
Proof.
  intros E. rewrite (build_features_ok _ _ _ _ E). apply table_road_attributes.
Qed.

Lemma X3_road_attributes_witness :
  build_features sample_joined_2022 sample_roads (Some sample_cjoin) =
    Geo.Ok sample_table_2022 /\
  Forall (fun r =>
            match road_of sample_roads (RD_SEGMENT_ID (base r)) with
            | Some rd =>
                r_RD_SEGMENT_ID rd = Some (RD_SEGMENT_ID (base r)) /\
                attrs (base r) = filled_attrs (r_attrs rd)
            | None =>
                (forall rd, In rd sample_roads ->
                            r_RD_SEGMENT_ID rd <> Some (RD_SEGMENT_ID (base r))) /\
                attrs (base r) = mkRoadAttrs (Some 0%Q) None None None None None
            end) sample_table_2022 /\
  (forall r r', In r sample_table_2022 -> In r' sample_table_2022 ->
                RD_SEGMENT_ID (base r) = RD_SEGMENT_ID (base r') ->
                attrs (base r) = attrs (base r')).
Proof.
  split; [exact sample_2022_returned|].
  exact (X3_road_attributes sample_joined_2022 sample_roads (Some sample_cjoin)
                            sample_table_2022 sample_2022_returned).
Defined.

(** X4: the construction flag of a record depends on its segment only,
    not on its year: it is the largest marker joined to the segment, zero
    without any; it is zero everywhere when no construction input is given;
    and with markers that are 1 or missing it is 1 exactly for the segments
    that have a marker. *)
Theorem X4_construction_flag joined roads cjoin out :
  build_features joined roads cjoin = Geo.Ok out ->
  Forall (fun r => construction_flag (base r) = flag_of cjoin (RD_SEGMENT_ID (base r))) out /\
  (cjoin = None -> Forall (fun r => construction_flag (base r) = 0) out) /\
  (forall cj, cjoin = Some cj ->
     (forall row, In row cj -> snd row = None \/ snd row = Some 1) ->
     Forall (fun r => construction_flag (base r) =
                      if existsb (has_marker (RD_SEGMENT_ID (base r))) cj then 1 else 0) out).
Proof.
  intros E. rewrite (build_features_ok _ _ _ _ E). apply table_construction_flag.
Qed.

Lemma X4_construction_flag_witness :
  build_features sample_joined_2022 sample_roads (Some sample_cjoin) =
    Geo.Ok sample_table_2022 /\
  Forall (fun r => construction_flag (base r) =
                   flag_of (Some sample_cjoin) (RD_SEGMENT_ID (base r))) sample_table_2022 /\
  (Some sample_cjoin = None ->
   Forall (fun r => construction_flag (base r) = 0) sample_table_2022) /\
  (forall cj, Some sample_cjoin = Some cj ->
     (forall row, In row cj -> snd row = None \/ snd row = Some 1) ->
     Forall (fun r => construction_flag (base r) =
                      if existsb (has_marker (RD_SEGMENT_ID (base r))) cj then 1 else 0)
            sample_table_2022).
Proof.
  split; [exact sample_2022_returned|].
  exact (X4_construction_flag sample_joined_2022 sample_roads (Some sample_cjoin)
                              sample_table_2022 sample_2022_returned).
Defined.

(** X6: the labelled cohort of a year (segments, totals and labels, in
    table order) is the same for any two runs whose joined events of that
    year agree segment by segment, whatever the events of other years, the
    roads and the construction input are. *)
Theorem X6_labels_of_a_year joined1 roads1 cjoin1 out1 joined2 roads2 cjoin2 out2 y :
  build_features joined1 roads1 cjoin1 = Geo.Ok out1 ->
  build_features joined2 roads2 cjoin2 = Geo.Ok out2 ->
  (forall s, List.length (events_of joined1 (s, y)) = List.length (events_of joined2 (s, y))) ->
  cohort_view y out1 = cohort_view y out2.
Proof.
  intros E1 E2. rewrite (build_features_ok _ _ _ _ E1), (build_features_ok _ _ _ _ E2).
  apply table_labels_of_a_year.
Qed.

Lemma X6_labels_of_a_year_witness :
  build_features sample_joined [] None = Geo.Ok sample_table /\
  build_features sample_joined_2022 sample_roads (Some sample_cjoin) =
    Geo.Ok sample_table_2022 /\
  (forall s, List.length (events_of sample_joined (s, 2020)) =
             List.length (events_of sample_joined_2022 (s, 2020))) /\
  cohort_view 2020 sample_table = cohort_view 2020 sample_table_2022.
Proof.
  split; [exact sample_returned|]. split; [exact sample_2022_returned|].
  split; [exact sample_2022_same_2020|].
  exact (X6_labels_of_a_year sample_joined [] None sample_table
                             sample_joined_2022 sample_roads (Some sample_cjoin)
                             sample_table_2022 2020
                             sample_returned sample_2022_returned sample_2022_same_2020).
Defined.

(** The records of the run with roads and construction. *)
Example sample_table_attributes :
  map (fun r => (RD_SEGMENT_ID (base r), year (base r), fatal_major (base r),
                 injuries_total (base r), length_m (attrs (base r)),
                 SUBTYPE_TEXT (attrs (base r)), construction_flag (base r)))
      (feature_table sample_joined_2022 sample_roads (Some sample_cjoin)) =
  [(3, 2020, 0, 2, Some 0%Q, Some "LANE"%string, 0);
   (3, 2023, 0, 1, Some 0%Q, Some "LANE"%string, 0);
   (4, 2020, 0, 1, Some 0%Q, None, 0);
   (5, 2020, 0, 1, Some 0%Q, None, 0);
   (6, 2020, 0, 1, Some 0%Q, None, 0);
   (7, 2020, 0, 5, Some (120 # 1), Some "ROAD"%string, 1);
   (7, 2021, 0, 8, Some (120 # 1), Some "ROAD"%string, 1);
   (9, 2020, 0, 1, Some 0%Q, None, 0);
   (9, 2022, 0, 1, Some 0%Q, None, 0)].
Proof. vm_compute. reflexivity. Qed.

Lemma latest_before {T} (key : T -> Z) (p : T -> bool) (l : list T) :
  (forall a, In a l -> p a = false) \/
  (exists m, In m l /\ p m = true /\ forall a, In a l -> p a = true -> key a <= key m).
Proof.
  induction l as [|h t IH]; [left; intros a []|].
  destruct (p h) eqn:Ph.
  - right. destruct IH as [Hn|(m & Im & Pm & Hm)].
    + exists h. split; [now left|]. split; [exact Ph|].
      intros a [<-|I] Pa; [lia|]. rewrite (Hn a I) in Pa. discriminate.
    + destruct (Z_le_gt_dec (key h) (key m)) as [L|L].
      * exists m. split; [now right|]. split; [exact Pm|].
        intros a [<-|I] Pa; [exact L|now apply Hm].
      * exists h. split; [now left|]. split; [exact Ph|].
        intros a [<-|I] Pa; [lia|]. specialize (Hm a I Pa). lia.
  - destruct IH as [Hn|(m & Im & Pm & Hm)].
    + left. intros a [<-|I]; auto.
    + right. exists m. split; [now right|]. split; [exact Pm|].
      intros a [<-|I] Pa; [congruence|now apply Hm].
Qed.

Lemma history_record joined roads cjoin r :
  In r (feature_table joined roads cjoin) ->
  history joined (RD_SEGMENT_ID (base r), year (base r)) =
  (collisions_total (base r), fatal_major (base r), injuries_total (base r)) /\
  fst (fst (history joined (RD_SEGMENT_ID (base r), year (base r)))) <> 0.
Proof.
  intros I. destruct (out_records joined roads cjoin r I) as (NE & C & F & J & _).
  unfold history. rewrite <- C, <- F, <- J. split; [reflexivity|]. cbn [fst]. rewrite C.
  destruct (events_of joined (RD_SEGMENT_ID (base r), year (base r))); [congruence|].
  cbn [List.length]. lia.
Qed.

Lemma history_events joined k :
  fst (fst (history joined k)) <> 0 <-> events_of joined k <> [].
Proof.
  unfold history. cbn [fst]. destruct (events_of joined k) as [|e t]; cbn [List.length].
  - split; intros X; now elim X.
  - split; intros _; [discriminate|lia].
Qed.

(** A record of a (segment, year) pair exists in one run when it exists in
    another with the same history there. *)
Lemma record_transfer joined1 roads1 cjoin1 joined2 roads2 cjoin2 q k :
  In q (feature_table joined1 roads1 cjoin1) ->
  (RD_SEGMENT_ID (base q), year (base q)) = k ->
  history joined1 k = history joined2 k ->
  exists q', In q' (feature_table joined2 roads2 cjoin2) /\
             (RD_SEGMENT_ID (base q'), year (base q')) = k /\
             (collisions_total (base q'), fatal_major (base q'), injuries_total (base q')) =
             (collisions_total (base q), fatal_major (base q), injuries_total (base q)).
Proof.
  intros I Ek H. destruct (history_record _ _ _ q I) as [Hq Hn]. rewrite Ek in Hq, Hn.
  rewrite H in Hn. apply history_events in Hn.
  destruct (proj2 (record_iff_events joined2 roads2 cjoin2 k) Hn) as (q' & I' & Ek').
  exists q'. split; [exact I'|]. split; [exact Ek'|].
  destruct (history_record _ _ _ q' I') as [Hq' _]. rewrite Ek' in Hq'. congruence.
Qed.

Section Past.
Variables (joined1 joined2 : Joined) (roads1 roads2 : list RoadRow).
Variables (cjoin1 cjoin2 : option (list (option Z * option Z))).
Variables (r1 r2 : SegYear).
Let out1 := feature_table joined1 roads1 cjoin1.
Let out2 := feature_table joined2 roads2 cjoin2.
Hypothesis in1 : In r1 out1.
Hypothesis in2 : In r2 out2.
Hypothesis same_segment : RD_SEGMENT_ID (base r1) = RD_SEGMENT_ID (base r2).
Hypothesis same_year : year (base r1) = year (base r2).
Hypothesis same_past :
  forall y, y < year (base r1) ->
            history joined1 (RD_SEGMENT_ID (base r1), y) =
            history joined2 (RD_SEGMENT_ID (base r1), y).

Lemma lags_same_past : lags r1 = lags r2.
Proof.
  set (s := RD_SEGMENT_ID (base r1)) in *. set (y := year (base r1)) in *.
  set (earlier := fun q : SegYear => (RD_SEGMENT_ID (base q) =? s) && (year (base q) <? y)).
  assert (forall q, earlier q = true <-> RD_SEGMENT_ID (base q) = s /\ year (base q) < y) as He.
  { intros q. unfold earlier. now rewrite andb_true_iff, Z.eqb_eq, Z.ltb_lt. }
  assert (forall q, In q out2 -> RD_SEGMENT_ID (base q) = s -> year (base q) < y ->
            exists q', In q' out1 /\ RD_SEGMENT_ID (base q') = s /\
                       year (base q') = year (base q)) as Back.
  { intros q I Es Ey.
    destruct (record_transfer joined2 roads2 cjoin2 joined1 roads1 cjoin1 q
                (s, year (base q)) I) as (q' & I' & Ek & _).
    - now rewrite Es.
    - symmetry. now apply same_past.
    - injection Ek as A B. eauto. }
  destruct (latest_before (fun q => year (base q)) earlier out1) as [Hn|(p1 & Ip & Pp & Hmax)].
  - rewrite (lags_first joined1 roads1 cjoin1 r1 in1).
    + rewrite (lags_first joined2 roads2 cjoin2 r2 in2); [reflexivity|].
      intros q I Es. rewrite <- same_year. fold y.
      destruct (Z_le_gt_dec y (year (base q))) as [L|L]; [exact L|exfalso].
      destruct (Back q I) as (q' & I' & Es' & Ey'); [congruence|lia|].
      assert (earlier q' = true) as X by (apply He; split; [exact Es'|lia]).
      rewrite (Hn q' I') in X. discriminate.
    + intros q I Es. fold y.
      destruct (Z_le_gt_dec y (year (base q))) as [L|L]; [exact L|exfalso].
      assert (earlier q = true) as X by (apply He; split; [exact Es|lia]).
      rewrite (Hn q I) in X. discriminate.
  - apply He in Pp. destruct Pp as [Esp Eyp].
    destruct (record_transfer joined1 roads1 cjoin1 joined2 roads2 cjoin2 p1
                (s, year (base p1)) Ip) as (p2 & Ip2 & Ek & Et).
    { now rewrite Esp. }
    { now apply same_past. }
    injection Ek as Es2 Ey2. injection Et as Ec Ef Ej.
    rewrite (lags_previous joined1 roads1 cjoin1 r1 p1 in1 Ip); [|exact Esp|exact Eyp|].
    + rewrite (lags_previous joined2 roads2 cjoin2 r2 p2 in2 Ip2).
      * now rewrite Ec, Ef, Ej.
      * congruence.
      * rewrite Ey2, <- same_year. exact Eyp.
      * intros q I Es [A B]. rewrite <- same_year in B. fold y in B.
        destruct (Back q I) as (q' & I' & Es' & Ey'); [congruence|exact B|].
        assert (earlier q' = true) as X by (apply He; split; [exact Es'|lia]).
        specialize (Hmax q' I' X). cbv beta in Hmax. lia.
    + intros q I Es [A B]. fold y in B.
      assert (earlier q = true) as X by (apply He; split; [exact Es|exact B]).
      specialize (Hmax q I X). cbv beta in Hmax. lia.
Qed.
End Past.


Lemma sample_later_returned :
  build_features sample_joined_later [] None = Geo.Ok sample_table_later.
Proof. apply build_features_returns. vm_compute. discriminate. Qed.

Lemma sample_later_In :
  In (nth 6 sample_table default_row) sample_table /\
  In (nth 6 sample_table_later default_row) sample_table_later.
Proof. split; apply nth_In; vm_compute; lia. Qed.

Lemma sample_later_same_past y :
  y < 2021 -> history sample_joined (7, y) = history sample_joined_later (7, y).
Proof.
  intros L. unfold history, severity, events_of, sample_joined_later.
  cbn [jrows filter has_num_of_fatal has_num_of_injuries].
  assert (has_key segment_year (7, y) (event 7 2022) = false) as ->.
  { unfold has_key. cbn [segment_year event j_RD_SEGMENT_ID j_year keqb Key_pair Key_Z fst snd].
    replace (y =? 2022) with false by (symmetry; apply Z.eqb_neq; lia). apply andb_false_r. }
  assert (has_key segment_year (7, y) (event 9 2022) = false) as ->; [|reflexivity].
  unfold has_key. cbn [segment_year event j_RD_SEGMENT_ID j_year keqb Key_pair Key_Z fst snd].
  reflexivity.
Qed.


Lemma sorted_frame_nil joined roads cjoin :
  sorted_frame joined roads cjoin = [] <-> forall e, In e (jrows joined) -> keyed e = false.
Proof.
  split.
  - intros E e I. unfold keyed. destruct (segment_year e) as [k|] eqn:Ek; [exfalso|reflexivity].
    destruct (sorted_frame_complete joined roads cjoin k) as (f & If & _).
    + unfold events_of. intros X.
      assert (In e (filter (has_key segment_year k) (jrows joined))) as Ie.
      { apply filter_In. split; [exact I|]. now apply has_key_true. }
      rewrite X in Ie. destruct Ie.
    + rewrite E in If. destruct If.
  - intros Hn. destruct (sorted_frame joined roads cjoin) as [|f t] eqn:E; [reflexivity|exfalso].
    assert (In f (sorted_frame joined roads cjoin)) as If by (rewrite E; now left).
    apply sorted_frame_In in If. destruct If as [_ NE]. unfold events_of in NE.
    destruct (filter (has_key segment_year (sort_key f)) (jrows joined)) as [|e g] eqn:F;
      [congruence|].
    assert (In e (filter (has_key segment_year (sort_key f)) (jrows joined))) as Ie
      by (rewrite F; now left).
    apply filter_In in Ie. destruct Ie as [Ie Hk]. apply has_key_true in Hk.
    specialize (Hn e Ie). unfold keyed in Hn. rewrite Hk in Hn. discriminate.
Qed.


Example empty_join_raises :
  build_features (mkJoined true true []) sample_roads None =
    Geo.Err (Geo.ValueError "No objects to concatenate") /\
  build_features (mkJoined true true [mkJoinedRow None (Some 2020) None None]) [] None =
    Geo.Err (Geo.ValueError "No objects to concatenate").
Proof. split; reflexivity. Qed.

End BuildMore.

(** ** The segment join, [src/data/spatial_join.py] and [src/utils/geo.py] *)

Module GeoMore.
Import Frame FrameFacts Geo SpatialJoin GeoNotions JoinNotions Samples GeoClaims.

Lemma combine_seq_In {T} (l : list T) (s i : nat) (a : T) :
  In (i, a) (combine (seq s (List.length l)) l) <->
  (s <= i)%nat /\ nth_error l (i - s) = Some a.
Proof.
  revert s. induction l as [|h t IH]; intros s.
  - cbn. split; [intros []|]. intros [_ E]. destruct (i - s)%nat; discriminate.
  - cbn [List.length seq combine In]. rewrite IH. split.
    + intros [E|[L E]].
      * injection E as <- <-. rewrite Nat.sub_diag. split; [lia|reflexivity].
      * split; [lia|]. replace (i - s)%nat with (S (i - S s)) by lia. exact E.
    + intros [L E]. destruct (Nat.eq_dec s i) as [->|N].
      * left. rewrite Nat.sub_diag in E. cbn in E. congruence.
      * right. split; [lia|]. replace (i - s)%nat with (S (i - S s)) in E by lia. exact E.
Qed.

Section JoinRows.
Context {P G : Type} (intersects : P -> G -> bool).

Lemma matches_In (p : P) (lines : GeoDataFrame G) (i : nat) (row : Row) (g : G) :
  In (i, (row, g)) (matches intersects p lines) <->
  nth_error (grows lines) i = Some (row, g) /\ intersects p g = true.
Proof.
  unfold matches. rewrite filter_In, combine_seq_In, Nat.sub_0_r. cbn [snd]. intuition lia.
Qed.

(** The rows of a join, one by one. *)
Lemma sjoin_In (points : GeoDataFrame P) (lines : GeoDataFrame G) (how : join_how)
      (r' : Row) (g : P) :
  In (r', g) (grows (sjoin intersects points lines how)) <->
  exists l, In (l, g) (grows points) /\
    ((how = how_left /\ matches intersects g lines = [] /\
      r' = joined_row (gcolumns lines) l None) \/
     exists i row geom,
       nth_error (grows lines) i = Some (row, geom) /\ intersects g geom = true /\
       r' = joined_row (gcolumns lines) l (Some (i, row))).
Proof.
  unfold sjoin. cbn [grows]. rewrite in_flat_map. split.
  - intros ([l g0] & I & Hr). cbn [fst snd] in Hr. exists l.
    destruct (matches intersects g0 lines) as [|m ms] eqn:M.
    + destruct how; [|destruct Hr]. destruct Hr as [E|[]]. injection E as <- <-.
      split; [exact I|]. left. auto.
    + rewrite <- M in Hr. apply in_map_iff in Hr.
      destruct Hr as ([i [row geom]] & E & Im). cbn [fst snd] in E. injection E as <- <-.
      split; [exact I|]. right. apply matches_In in Im. destruct Im as [N X].
      exists i, row, geom. auto.
  - intros (l & I & [(-> & M & ->)|(i & row & geom & N & X & ->)]).
    + exists (l, g). split; [exact I|]. cbn [fst snd]. rewrite M. now left.
    + exists (l, g). split; [exact I|]. cbn [fst snd].
      assert (In (i, (row, geom)) (matches intersects g lines)) as Im
        by (apply matches_In; auto).
      destruct (matches intersects g lines) as [|m ms] eqn:M; [destruct Im|].
      rewrite <- M. apply in_map_iff. exists (i, (row, geom)). split; [reflexivity|].
      now rewrite M.
Qed.

Lemma joined_row_left rcols l m road_id :
  rcols = [road_id] -> left_columns_kept road_id l (joined_row rcols l m).
Proof.
  intros -> c N1 N2. unfold joined_row. apply String.eqb_neq in N1, N2.
  rewrite N1. unfold mem. cbn [existsb]. rewrite N2. reflexivity.
Qed.
End JoinRows.

Lemma nth_error_map_iff {A B : Type} (f : A -> B) (l : list A) i y :
  nth_error (map f l) i = Some y <-> exists x, nth_error l i = Some x /\ y = f x.
Proof.
  revert i. induction l as [|h t IH]; intros [|i]; cbn [map nth_error].
  - split; [discriminate|]. intros (x & E & _). discriminate E.
  - split; [discriminate|]. intros (x & E & _). discriminate E.
  - split.
    + intros E. injection E as <-. eauto.
    + intros (x & E & ->). injection E as ->. reflexivity.
  - apply IH.
Qed.

Section ToSegments.
Context {P G : Type} (intersects : P -> G -> bool) (buffer : G -> Q -> G).

Lemma collisions_to_segments_ok collisions roads road_id buffer_m :
  mem road_id (gcolumns roads) = true ->
  crs_eqb (crs collisions) (crs roads) = true ->
  collisions_to_segments intersects buffer collisions roads road_id buffer_m =
  Ok (sjoin intersects collisions (joined_lines buffer roads road_id buffer_m) how_left).
Proof.
  intros Hm Hc. unfold collisions_to_segments, select_id. rewrite Hm. cbn [negb bind].
  unfold spatial_join_points_to_lines. cbn [crs]. rewrite Hc. cbn [negb].
  f_equal. f_equal. unfold joined_lines, reach, buffer_lines.
  destruct (truthy buffer_m && gt0 buffer_m); cbn [gcolumns grows crs]; [|reflexivity].
  now rewrite map_map.
Qed.

Lemma joined_lines_nth roads road_id buffer_m i row' geom' :
  nth_error (grows (joined_lines buffer roads road_id buffer_m)) i = Some (row', geom') <->
  exists rd geom, nth_error (grows roads) i = Some (rd, geom) /\
                  row' = (fun c => if String.eqb c road_id then rd c else NA) /\
                  geom' = reach buffer buffer_m geom.
Proof.
  unfold joined_lines. cbn [grows]. rewrite nth_error_map_iff. split.
  - intros ([rd geom] & N & E). cbn [fst snd] in E. injection E as -> ->.
    exists rd, geom. auto.
  - intros (rd & geom & N & -> & ->). exists (rd, geom). auto.
Qed.

Lemma joined_row_matched road_id l i rd :
  road_id <> "index_right"%string ->
  let r' := joined_row [road_id] l
              (Some (i, fun c => if String.eqb c road_id then rd c else NA)) in
  r' "index_right"%string = Int (Z.of_nat i) /\ r' road_id = rd road_id.
Proof.
  intros N. cbv zeta. unfold joined_row. cbn [String.eqb Ascii.eqb Bool.eqb].
  split; [reflexivity|]. apply String.eqb_neq in N. rewrite N.
  unfold mem. cbn [existsb]. now rewrite String.eqb_refl.
Qed.

Lemma joined_row_unmatched road_id l :
  road_id <> "index_right"%string ->
  let r' := joined_row [road_id] l None in
  r' "index_right"%string = NA /\ r' road_id = NA.
Proof.
  intros N. cbv zeta. unfold joined_row. cbn [String.eqb Ascii.eqb Bool.eqb].
  split; [reflexivity|]. apply String.eqb_neq in N. rewrite N.
  unfold mem. cbn [existsb]. now rewrite String.eqb_refl.
Qed.

(** X7: [collisions_to_segments] stops with a KeyError when the roads have
    no identifier column and with the CRS error when the frames differ;
    otherwise every collision is kept, with its own columns; a row is either
    unmatched (no road reaches the point, identifier missing) or carries the
    index and identifier of a road that reaches it; and every (collision,
    road) pair in reach has its row. *)
Theorem X7_collisions_to_segments collisions roads road_id buffer_m :
  let result := collisions_to_segments intersects buffer collisions roads road_id buffer_m in
  let reaches (g : P) (geom : G) := intersects g (reach buffer buffer_m geom) in
  (mem road_id (gcolumns roads) = false -> result = Err (KeyError road_id)) /\
  (mem road_id (gcolumns roads) = true -> crs_eqb (crs collisions) (crs roads) = false ->
   result = Err (ValueError "points and lines must share CRS before joining")) /\
  (mem road_id (gcolumns roads) = true -> crs_eqb (crs collisions) (crs roads) = true ->
   road_id <> "index_right"%string ->
   exists out,
     result = Ok out /\ crs out = crs collisions /\
     (forall l g, In (l, g) (grows collisions) ->
        exists r', In (r', g) (grows out) /\ left_columns_kept road_id l r') /\
     (forall r' g, In (r', g) (grows out) ->
        exists l, In (l, g) (grows collisions) /\ left_columns_kept road_id l r' /\
          ((r' "index_right"%string = NA /\ r' road_id = NA /\
            forall i rd geom, nth_error (grows roads) i = Some (rd, geom) ->
                              reaches g geom = false) \/
           (exists i rd geom,
              nth_error (grows roads) i = Some (rd, geom) /\ reaches g geom = true /\
              r' "index_right"%string = Int (Z.of_nat i) /\ r' road_id = rd road_id))) /\
     (forall l g i rd geom,
        In (l, g) (grows collisions) -> nth_error (grows roads) i = Some (rd, geom) ->
        reaches g geom = true ->
        exists r', In (r', g) (grows out) /\ left_columns_kept road_id l r' /\
                   r' "index_right"%string = Int (Z.of_nat i) /\ r' road_id = rd road_id)).
Proof.
  intros result reaches. subst result. split; [|split].
  - intros Hm. unfold collisions_to_segments, select_id. now rewrite Hm.
  - intros Hm Hc. unfold collisions_to_segments, select_id. rewrite Hm. cbn [negb bind].
    unfold spatial_join_points_to_lines. cbn [crs]. now rewrite Hc.
  - intros Hm Hc Nid. rewrite (collisions_to_segments_ok _ _ _ _ Hm Hc).
    set (lines := joined_lines buffer roads road_id buffer_m).
    eexists. split; [reflexivity|]. split; [reflexivity|].
    assert (forall (l : Row) g, In (l, g) (grows collisions) ->
              matches intersects g lines = [] ->
              (forall i rd geom, nth_error (grows roads) i = Some (rd, geom) ->
                                 reaches g geom = false)) as Hnone.
    { intros l g _ M i rd geom N. unfold reaches.
      destruct (intersects g (reach buffer buffer_m geom)) eqn:X; [exfalso|reflexivity].
      assert (In (i, ((fun c => if String.eqb c road_id then rd c else NA),
                      reach buffer buffer_m geom)) (matches intersects g lines)) as Im.
      { apply matches_In. split; [|exact X]. apply joined_lines_nth. eauto. }
      rewrite M in Im. exact (in_nil Im). }
    split; [|split].
    + intros l g I.
      destruct (matches intersects g lines) as [|[i [row geom']] ms] eqn:M.
      * exists (joined_row [road_id] l None). split; [|now apply joined_row_left].
        apply sjoin_In. exists l. split; [exact I|]. left. auto.
      * assert (In (i, (row, geom')) (matches intersects g lines)) as Im
          by (rewrite M; now left).
        apply matches_In in Im. destruct Im as [N X].
        exists (joined_row [road_id] l (Some (i, row))). split; [|now apply joined_row_left].
        apply sjoin_In. exists l. split; [exact I|]. right. exists i, row, geom'. auto.
    + intros r' g I. apply sjoin_In in I.
      destruct I as (l & I & [(_ & M & ->)|(i & row & geom' & N & X & ->)]);
        exists l; (split; [exact I|]); (split; [now apply joined_row_left|]).
      * left. destruct (joined_row_unmatched road_id l Nid) as [E1 E2].
        split; [exact E1|]. split; [exact E2|]. now apply (Hnone l g).
      * right. apply joined_lines_nth in N. destruct N as (rd & geom & N & -> & ->).
        destruct (joined_row_matched road_id l i rd Nid) as [E1 E2].
        exists i, rd, geom. auto.
    + intros l g i rd geom I N X.
      exists (joined_row [road_id] l
                (Some (i, fun c => if String.eqb c road_id then rd c else NA))).
      destruct (joined_row_matched road_id l i rd Nid) as [E1 E2].
      split; [|split; [now apply joined_row_left|auto]].
      apply sjoin_In. exists l. split; [exact I|]. right.
      exists i, (fun c => if String.eqb c road_id then rd c else NA),
             (reach buffer buffer_m geom).
      split; [|split; [exact X|reflexivity]]. apply joined_lines_nth. eauto.
Qed.
End ToSegments.

Section LeftInner.
Context {P G : Type} (intersects : P -> G -> bool) (buffer : G -> Q -> G).

Lemma matched_rows_all (l : Row) (p : P) cols (ms : list (nat * (Row * G))) :
  filter matched_row
    (map (fun il => (joined_row cols l (Some (fst il, fst (snd il))), p)) ms) =
  map (fun il => (joined_row cols l (Some (fst il, fst (snd il))), p)) ms.
Proof.
  induction ms as [|m ms IH]; [reflexivity|].
  cbn [map filter]. unfold matched_row at 1, joined_row at 1.
  cbn [fst String.eqb Ascii.eqb Bool.eqb isna negb]. now rewrite IH.
Qed.

Lemma sjoin_inner_of_left points lines :
  grows (sjoin intersects points lines how_inner) =
  filter matched_row (grows (sjoin intersects points lines how_left)).
Proof.
  unfold sjoin. cbn [grows].
  induction (grows points) as [|pr t IH]; [reflexivity|].
  cbn [flat_map]. rewrite filter_app, <- IH. f_equal.
  destruct (matches intersects (snd pr) lines) as [|m ms]; [reflexivity|].
  symmetry. apply matched_rows_all.
Qed.

Lemma sjoin_left_length points lines :
  List.length (grows (sjoin intersects points lines how_left)) =
  (List.length (grows (sjoin intersects points lines how_inner)) +
   List.length (unreached intersects points lines))%nat.
Proof.
  unfold sjoin, unreached. cbn [grows].
  induction (grows points) as [|pr t IH]; [reflexivity|].
  cbn [flat_map filter]. rewrite !length_app, IH.
  destruct (matches intersects (snd pr) lines) as [|m ms]; cbn [List.length]; lia.
Qed.

Lemma sjoin_left_keeps points lines :
  (List.length (grows points) <=
   List.length (grows (sjoin intersects points lines how_left)))%nat.
Proof.
  unfold sjoin. cbn [grows].
  match goal with |- context [flat_map ?f _] => set (F := f) end.
  induction (grows points) as [|pr t IH]; [reflexivity|].
  change (flat_map F (pr :: t)) with (F pr ++ flat_map F t).
  rewrite length_app. cbn [List.length]. subst F. cbv beta.
  destruct (matches intersects (snd pr) lines) as [|m ms]; [cbn [List.length]; lia|].
  rewrite length_map. cbn [List.length]. lia.
Qed.

Lemma sjoin_left_geometries points lines :
  forall g, In g (map snd (grows points)) <->
            In g (map snd (grows (sjoin intersects points lines how_left))).
Proof.
  intros g. rewrite !in_map_iff. split.
  - intros ([l g'] & <- & I). cbn [snd].
    destruct (matches intersects g' lines) as [|[i [row geom]] ms] eqn:M.
    + exists (joined_row (gcolumns lines) l None, g'). split; [reflexivity|].
      apply sjoin_In. exists l. split; [exact I|]. left. auto.
    + assert (In (i, (row, geom)) (matches intersects g' lines)) as Im
        by (rewrite M; now left).
      apply matches_In in Im. destruct Im as [N X].
      exists (joined_row (gcolumns lines) l (Some (i, row)), g'). split; [reflexivity|].
      apply sjoin_In. exists l. split; [exact I|]. right. exists i, row, geom. auto.
  - intros ([r' g'] & <- & I). cbn [snd]. apply sjoin_In in I.
    destruct I as (l & I & _). exists (l, g'). auto.
Qed.

(** X8: a left and an inner join of the same tables fail alike (on
    differing frames); otherwise the inner join is the left join without
    its unmatched rows, the left join has one more row for every point no
    line reaches, and it has at least as many rows as there are points. *)
Theorem X8_left_and_inner_join (points : GeoDataFrame P) (lines : GeoDataFrame G)
        (buffer_m : option Q) :
  let left := spatial_join_points_to_lines intersects buffer points lines buffer_m how_left in
  let inner := spatial_join_points_to_lines intersects buffer points lines buffer_m how_inner in
  (exists e, left = Err e /\ inner = Err e /\
             crs_eqb (crs points) (crs lines) = false) \/
  (exists l i,
     left = Ok l /\ inner = Ok i /\ crs_eqb (crs points) (crs lines) = true /\
     gcolumns i = gcolumns l /\ crs i = crs l /\
     grows i = filter matched_row (grows l) /\
     List.length (grows l) =
       (List.length (grows i) +
        List.length (unreached intersects points
                       (lines_in_effect buffer lines buffer_m)))%nat /\
     (List.length (grows points) <= List.length (grows l))%nat /\
     (forall g, In g (map snd (grows points)) <-> In g (map snd (grows l)))).
Proof.
  cbv zeta. unfold spatial_join_points_to_lines.
  destruct (crs_eqb (crs points) (crs lines)) eqn:C; cbn [negb].
  - right. eexists. eexists. split; [reflexivity|]. split; [reflexivity|].
    split; [reflexivity|].
    assert ((if truthy buffer_m && gt0 buffer_m
             then buffer_lines buffer lines (fillna 0%Q buffer_m) else lines) =
            lines_in_effect buffer lines buffer_m) as ->.
    { destruct buffer_m as [b|]; [reflexivity|]. reflexivity. }
    split; [reflexivity|]. split; [reflexivity|].
    split; [apply sjoin_inner_of_left|].
    split; [apply sjoin_left_length|].
    split; [apply sjoin_left_keeps|apply sjoin_left_geometries].
  - left. eexists. split; [reflexivity|]. split; reflexivity.
Qed.
End LeftInner.

End GeoMore.

(** ** The cleaners, [src/data/clean.py] *)

Module CleanMore.
Import Frame FrameFacts Geo Clean CleanRoads GeoNotions CleanNotions CleanerNotions Samples
       GeoClaims CleanClaims.

Section PointsOf.
Variable float_of_text : string -> option Q.

Lemma as_floats_inv (f : Row -> cell) (l : list Row) (qs : list Q) :
  as_floats float_of_text (map f l) = Ok qs ->
  Forall2 (fun r q => as_coordinate float_of_text (f r) = Ok q) l qs.
Proof.
  revert qs. induction l as [|r t IH]; intros qs; cbn [map as_floats].
  - intros E. injection E as <-. constructor.
  - destruct (as_coordinate float_of_text (f r)) as [q|e] eqn:Eq; cbn [bind]; [|discriminate].
    destruct (as_floats float_of_text (map f t)) as [qt|e] eqn:E; cbn [bind]; [|discriminate].
    intros X. injection X as <-. constructor; [exact Eq|now apply IH].
Qed.

Lemma points_from_xy_inv (fx fy : Row -> cell) (l : list Row) pts :
  points_from_xy float_of_text (map fx l) (map fy l) = Ok pts ->
  List.length pts = List.length l /\
  Forall2 (fun r p => as_coordinate float_of_text (fx r) = Ok (x p) /\
                      as_coordinate float_of_text (fy r) = Ok (y p)) l pts.
Proof.
  unfold points_from_xy.
  destruct (as_floats float_of_text (map fx l)) as [px|e] eqn:Ex; cbn [bind]; [|discriminate].
  destruct (as_floats float_of_text (map fy l)) as [py|e] eqn:Ey; cbn [bind]; [|discriminate].
  intros X. injection X as <-.
  apply as_floats_inv in Ex. apply as_floats_inv in Ey.
  revert py Ey. induction Ex as [|r q t qs Hq Fx IH]; intros py Fy.
  - inversion Fy; subst. split; [reflexivity|constructor].
  - inversion Fy as [|r' q' t' qs' Hq' Fy']; subst.
    destruct (IH _ Fy') as [L F]. cbn [combine map fst snd].
    split; [cbn [List.length]; now rewrite L|]. constructor; [now split|exact F].
Qed.

Lemma combine_fst {T U} (l : list T) (m : list U) :
  List.length m = List.length l -> map fst (combine l m) = l.
Proof.
  revert m. induction l as [|a l IH]; intros [|b m] L; simpl in *; try discriminate; auto.
  f_equal. apply IH. lia.
Qed.

Lemma combine_snd {T U} (l : list T) (m : list U) :
  List.length m = List.length l -> map snd (combine l m) = m.
Proof.
  revert m. induction l as [|a l IH]; intros [|b m] L; simpl in *; try discriminate; auto.
  f_equal. apply IH. lia.
Qed.

(** What a successful point conversion returned. *)
Lemma df_to_points_inv df lon_col lat_col frame gdf :
  df_to_points float_of_text df lon_col lat_col frame = Ok gdf ->
  has_column df lon_col = true /\ has_column df lat_col = true /\
  gcolumns gdf = columns df /\ crs gdf = Some frame /\
  map fst (grows gdf) = with_coordinates lon_col lat_col df /\
  Forall2 (located float_of_text lon_col lat_col) (with_coordinates lon_col lat_col df)
          (geometries gdf).
Proof.
  unfold df_to_points.
  destruct (has_column df lon_col); cbn [negb]; [|discriminate].
  destruct (has_column df lat_col); cbn [negb]; [|discriminate].
  fold (with_coordinates lon_col lat_col df).
  destruct (points_from_xy _ _ _) as [pts|e] eqn:E; cbn [bind]; [|discriminate].
  intros X. injection X as <-. cbn [gcolumns crs grows]. unfold geometries. cbn [grows].
  destruct (points_from_xy_inv (fun r => r lon_col) (fun r => r lat_col) _ _ E) as [L F].
  rewrite combine_fst, combine_snd by exact L. repeat split; auto.
Qed.
End PointsOf.

Lemma to_projected_wgs84 (transform : CRS -> CRS -> Point -> Point) gdf :
  crs gdf = Some WGS84 ->
  to_projected transform gdf DEFAULT_CRS = Ok (to_crs transform WGS84 gdf DEFAULT_CRS).
Proof. intros E. unfold to_projected. rewrite E. reflexivity. Qed.

Lemma set_cell_same r k v : set_cell r k v k = v.
Proof. unfold set_cell. now rewrite String.eqb_refl. Qed.

Lemma set_cell_other r k v c : c <> k -> set_cell r k v c = r c.
Proof. intros N. unfold set_cell. apply String.eqb_neq in N. now rewrite N. Qed.

Lemma find_same_on {T} (p q : T -> bool) (l : list T) :
  (forall a, In a l -> p a = q a) -> find p l = find q l.
Proof.
  induction l as [|h t IH]; intros E; [reflexivity|]. cbn [find].
  rewrite (E h) by now left. destruct (q h); [reflexivity|].
  apply IH. intros; apply E; now right.
Qed.

Section CollisionRows.
Variable to_datetime : cell -> option Timestamp.
Variable dayofweek : Timestamp -> Z.
Variable parse_number : string -> cell.
Variable strip_upper : cell -> cell.
Variable transform : CRS -> CRS -> Point -> Point.
Variable float_of_text : string -> option Q.

Let cleaned := clean_collisions to_datetime dayofweek parse_number strip_upper transform float_of_text.
Let stamp := stamped to_datetime dayofweek parse_number.
Let row_of := clean_row to_datetime dayofweek parse_number strip_upper.

Lemma has_column_normalize df col c :
  has_column (normalize_if_present strip_upper df col) c = has_column df c.
Proof.
  unfold normalize_if_present. destruct (has_column df col) eqn:E; [|reflexivity].
  rewrite has_column_set_column.
  destruct (String.eqb_spec c col) as [->|_]; [now rewrite E|apply orb_false_r].
Qed.

Lemma has_column_resolve df target candidates c :
  has_column (resolve_count parse_number df target candidates) c =
  has_column df c || String.eqb c target.
Proof.
  unfold resolve_count. destruct (has_column df target) eqn:E.
  - destruct (String.eqb_spec c target) as [->|_]; [now rewrite E|now rewrite orb_false_r].
  - destruct (first_present df candidates); apply has_column_set_column.
Qed.

Lemma has_column_stamped df c :
  has_column (stamp df) c =
  has_column df c || String.eqb c "Accident_Date" || String.eqb c "year" ||
  String.eqb c "month" || String.eqb c "dow" || String.eqb c "hour".
Proof.
  unfold stamp. unfold stamped.
  destruct (has_column _ "Hour"); now rewrite !has_column_set_column.
Qed.

Lemma has_column_counted df c :
  has_column (counted parse_number strip_upper df) c =
  has_column df c || String.eqb c "num_of_fatal" || String.eqb c "num_of_injuries".
Proof.
  unfold counted. cbn [fold_left].
  now rewrite !has_column_resolve, !has_column_normalize.
Qed.

Lemma normalize_rows df' df col :
  has_column df' col = has_column df col ->
  rows (normalize_if_present strip_upper df' col) =
  map (normalize_row strip_upper df col) (rows df').
Proof.
  intros E. unfold normalize_if_present, normalize_row. rewrite E.
  destruct (has_column df col); [reflexivity|now rewrite map_id].
Qed.

Lemma resolve_rows df' df target candidates :
  has_column df' target = has_column df target ->
  first_present df' candidates = first_present df candidates ->
  rows (resolve_count parse_number df' target candidates) =
  map (resolve_row parse_number df target candidates) (rows df').
Proof.
  intros E F. unfold resolve_count, resolve_row. rewrite E, F.
  destruct (has_column df target); [now rewrite map_id|].
  destruct (first_present df candidates); reflexivity.
Qed.

(** Every column test of the cleaner gives what it gives on the input
    table: the rows of the table handed to the point conversion are the
    input rows through [clean_row]. *)
Lemma counted_stamped_rows df :
  rows (counted parse_number strip_upper (stamp df)) = map (row_of df) (rows df).
Proof.
  unfold row_of. unfold counted, clean_row. cbn [fold_left].
  rewrite (resolve_rows _ df), (resolve_rows _ df).
  - rewrite !(normalize_rows _ df).
    + unfold stamp. rewrite stamped_rows, !map_map. reflexivity.
    + now rewrite has_column_stamped; cbn; rewrite !orb_false_r.
    + rewrite has_column_normalize, has_column_stamped; cbn; now rewrite !orb_false_r.
    + rewrite !has_column_normalize, has_column_stamped; cbn; now rewrite !orb_false_r.
  - rewrite !has_column_normalize, has_column_stamped; cbn; now rewrite !orb_false_r.
  - unfold first_present. apply find_same_on. intros c I.
    rewrite !has_column_normalize, has_column_stamped.
    unfold fatal_candidates in I. cbn [In] in I.
    repeat (destruct I as [<-|I]; [cbn; now rewrite !orb_false_r|]). destruct I.
  - rewrite has_column_resolve, !has_column_normalize, has_column_stamped; cbn;
      now rewrite !orb_false_r.
  - unfold first_present. apply find_same_on. intros c I.
    rewrite has_column_resolve, !has_column_normalize, has_column_stamped.
    unfold injury_candidates in I. cbn [In] in I.
    repeat (destruct I as [<-|I]; [cbn; now rewrite !orb_false_r|]). destruct I.
Qed.
Lemma stamp_row_other h r c :
  ~ In c ["Accident_Date"; "year"; "month"; "dow"; "hour"]%string ->
  stamp_row to_datetime dayofweek parse_number h r c = r c.
Proof.
  intros N. unfold stamp_row. cbv zeta.
  rewrite !set_cell_other; [reflexivity|..]; intros ->; apply N; cbn [In]; tauto.
Qed.

Lemma normalize_row_other df col r c :
  c <> col -> normalize_row strip_upper df col r c = r c.
Proof.
  intros N. unfold normalize_row. destruct (has_column df col); [|reflexivity].
  now apply set_cell_other.
Qed.

Lemma normalize_row_same df col r :
  normalize_row strip_upper df col r col =
  if has_column df col then strip_upper (r col) else r col.
Proof.
  unfold normalize_row. destruct (has_column df col); [apply set_cell_same|reflexivity].
Qed.

Lemma resolve_row_other df target candidates r c :
  c <> target -> resolve_row parse_number df target candidates r c = r c.
Proof.
  intros N. unfold resolve_row. destruct (has_column df target); [reflexivity|].
  destruct (first_present df candidates); now apply set_cell_other.
Qed.

Lemma resolve_row_same df target candidates r :
  resolve_row parse_number df target candidates r target =
  count_cell parse_number df target candidates r.
Proof.
  unfold resolve_row, count_cell. destruct (has_column df target); [reflexivity|].
  destruct (first_present df candidates); apply set_cell_same.
Qed.

Lemma first_present_without df target candidates :
  has_column df target = false ->
  first_present df candidates =
  first_present df (filter (fun c => negb (String.eqb c target)) candidates).
Proof.
  intros H. unfold first_present.
  induction candidates as [|c t IH]; [reflexivity|]. cbn [find filter].
  destruct (String.eqb_spec c target) as [->|N]; cbn [negb].
  - rewrite H. exact IH.
  - cbn [find]. destruct (has_column df c); [reflexivity|exact IH].
Qed.

(** A count read under another name is the cell of the input row. *)
Lemma count_cell_ext df target names (r r' : Row) :
  r' target = r target -> (forall c, In c names -> r' c = r c) ->
  count_cell parse_number df target names r' = count_cell parse_number df target names r.
Proof.
  intros Et En. unfold count_cell. destruct (has_column df target); [exact Et|].
  destruct (first_present df names) as [found|] eqn:F; [|reflexivity].
  unfold first_present in F. apply find_some in F. now rewrite (En found (proj1 F)).
Qed.

Lemma count_cell_names df target candidates r :
  count_cell parse_number df target candidates r =
  count_cell parse_number df target
    (filter (fun c => negb (String.eqb c target)) candidates) r.
Proof.
  unfold count_cell. destruct (has_column df target) eqn:H; [reflexivity|].
  now rewrite <- first_present_without.
Qed.

Ltac other_column :=
  let X := fresh in
  first [ discriminate
        | intros X; cbn [In] in X;
          repeat (destruct X as [X|X]; [discriminate X|]); exact X ].

Lemma row_of_fatal df r :
  row_of df r "num_of_fatal"%string =
  count_cell parse_number df "num_of_fatal" fatal_names r.
Proof.
  unfold row_of. unfold clean_row.
  rewrite resolve_row_other by discriminate. rewrite resolve_row_same.
  rewrite count_cell_names. change (filter _ fatal_candidates) with fatal_names.
  apply count_cell_ext.
  - rewrite !normalize_row_other by discriminate. apply stamp_row_other. other_column.
  - intros c I. unfold fatal_names in I. cbn [In] in I.
    repeat (destruct I as [<-|I];
            [rewrite !normalize_row_other by discriminate;
             apply stamp_row_other; other_column|]).
    destruct I.
Qed.

Lemma row_of_injuries df r :
  row_of df r "num_of_injuries"%string =
  count_cell parse_number df "num_of_injuries" injury_names r.
Proof.
  unfold row_of. unfold clean_row. rewrite resolve_row_same.
  rewrite count_cell_names. change (filter _ injury_candidates) with injury_names.
  apply count_cell_ext.
  - rewrite resolve_row_other by discriminate.
    rewrite !normalize_row_other by discriminate. apply stamp_row_other. other_column.
  - intros c I. unfold injury_names in I. cbn [In] in I.
    repeat (destruct I as [<-|I];
            [rewrite resolve_row_other by discriminate;
             rewrite !normalize_row_other by discriminate;
             apply stamp_row_other; other_column|]).
    destruct I.
Qed.

Lemma row_of_categorical df r col :
  In col categoricals ->
  row_of df r col = if has_column df col then strip_upper (r col) else r col.
Proof.
  intros I. unfold row_of. unfold clean_row. unfold categoricals in I. cbn [In] in I.
  destruct I as [<-|[<-|[<-|[]]]]; rewrite !resolve_row_other by discriminate.
  - rewrite !normalize_row_other by discriminate. rewrite normalize_row_same.
    now rewrite stamp_row_other by other_column.
  - rewrite normalize_row_other by discriminate. rewrite normalize_row_same.
    rewrite normalize_row_other by discriminate.
    now rewrite stamp_row_other by other_column.
  - rewrite normalize_row_same. rewrite !normalize_row_other by discriminate.
    now rewrite stamp_row_other by other_column.
Qed.

Lemma row_of_other df r c : ~ In c written_columns -> row_of df r c = r c.
Proof.
  intros N. unfold row_of. unfold clean_row.
  assert (forall k, In k written_columns -> c <> k) as Hn by (intros k I ->; auto).
  rewrite !resolve_row_other, !normalize_row_other;
    try (apply Hn; unfold written_columns; cbn [In]; tauto).
  apply stamp_row_other. intros I. apply N. unfold written_columns.
  cbn [In] in *. tauto.
Qed.

Lemma fillna0_int_numeric c :
  numeric_parser parse_number -> exists z, fillna0_int (to_numeric parse_number c) = Int z.
Proof.
  intros Hp. destruct c as [|z|q|s|t]; cbn [to_numeric fillna0_int]; eauto.
  destruct (Hp s) as [->|N]; [cbn; eauto|].
  unfold is_number in N. destruct (parse_number s); cbn in N |- *; eauto; discriminate.
Qed.

Lemma count_cell_integer df target names r :
  numeric_parser parse_number -> has_column df target = false ->
  exists z, count_cell parse_number df target names r = Int z.
Proof.
  intros Hp H. unfold count_cell. rewrite H.
  destruct (first_present df names); [now apply fillna0_int_numeric|eauto].
Qed.

(** What a successful run of the collision cleaner returned. *)
Lemma cleaned_inv df out :
  cleaned df = Ok out ->
  has_column df "Accident_Date" = true /\
  has_column df "Long" = true /\ has_column df "Lat" = true /\
  crs out = Some DEFAULT_CRS /\
  (forall c, mem c (gcolumns out) = has_column df c || mem c added_columns) /\
  map fst (grows out) = map (row_of df) (with_coordinates "Long" "Lat" df) /\
  Forall2 (fun r p => exists q, located float_of_text "Long" "Lat" r q /\
                                p = transform WGS84 DEFAULT_CRS q)
          (with_coordinates "Long" "Lat" df) (geometries out).
Proof.
  intros E. unfold cleaned in E. destruct (has_column df "Accident_Date") eqn:Hd.
  2:{ unfold clean_collisions in E. rewrite Hd in E. discriminate E. }
  rewrite (clean_collisions_stages _ _ _ _ _ _ df Hd) in E. fold stamp in E.
  destruct (df_to_points _ _ _ _ _) as [gdf|e] eqn:Ep; cbn [bind] in E; [|discriminate E].
  apply df_to_points_inv in Ep. destruct Ep as (Hx & Hy & Hc & Hcrs & Hr & Hg).
  rewrite (to_projected_wgs84 _ _ Hcrs) in E. injection E as <-.
  rewrite has_column_counted, has_column_stamped in Hx, Hy. cbn in Hx, Hy.
  rewrite !orb_false_r in Hx, Hy.
  assert (with_coordinates "Long" "Lat" (counted parse_number strip_upper (stamp df)) =
          map (row_of df) (with_coordinates "Long" "Lat" df)) as Hw.
  { unfold with_coordinates. rewrite counted_stamped_rows.
    apply filter_map_comm. intros r. unfold missing_coords.
    now rewrite !row_of_other by other_column. }
  split; [reflexivity|]. split; [exact Hx|]. split; [exact Hy|]. split; [reflexivity|].
  split; [|split].
  - intros c. unfold to_crs. cbn [gcolumns]. rewrite Hc.
    change (mem c (columns ?d)) with (has_column d c).
    rewrite has_column_counted, has_column_stamped. unfold added_columns, mem.
    cbn [existsb]. unfold has_column in Hd.
    destruct (String.eqb_spec c "Accident_Date") as [->|_].
    + unfold has_column. rewrite Hd. reflexivity.
    + destruct (has_column df c), (String.eqb c "year"), (String.eqb c "month"),
        (String.eqb c "dow"), (String.eqb c "hour"), (String.eqb c "num_of_fatal"),
        (String.eqb c "num_of_injuries"); reflexivity.
  - unfold to_crs. cbn [grows]. rewrite map_map. cbn [fst].
    change (fun x : Row * Point => fst x) with (@fst Row Point). now rewrite Hr.
  - unfold geometries, to_crs. cbn [grows]. rewrite map_map. cbn [snd].
    rewrite Hw in Hg. clear Hw. unfold geometries in Hg.
    rewrite <- (map_map snd (transform WGS84 DEFAULT_CRS)).
    revert Hg. generalize (map snd (grows gdf)).
    induction (with_coordinates "Long" "Lat" df) as [|r t IH]; intros l F;
      inversion F as [|a b la lb Hab Ft]; subst; cbn [map]; constructor.
    + exists b. split; [|reflexivity]. destruct Hab as [A B].
      rewrite !row_of_other in A, B by other_column. now split.
    + now apply IH.
Qed.

Lemma Forall2_map_fun {T U} (R : T -> U -> Prop) (f : T -> U) (l : list T) :
  (forall a, R a (f a)) -> Forall2 R l (map f l).
Proof. intros H. induction l; constructor; auto. Qed.

(** X9: in every record the collision cleaner returns, [num_of_fatal] and
    [num_of_injuries] are the table's own column of that name when it has
    one; else the first of the alternative names the table has, read as a
    number, missing counted as zero and made an integer; else zero.  The
    target's own name in the candidate list plays no part, and with a parser
    that gives numbers or nothing a resolved count is always an integer. *)
Theorem X9_severity_counts df out :
  cleaned df = Ok out ->
  Forall2 (fun r r' =>
             r' "num_of_fatal"%string =
               count_cell parse_number df "num_of_fatal" fatal_names r /\
             r' "num_of_injuries"%string =
               count_cell parse_number df "num_of_injuries" injury_names r /\
             (numeric_parser parse_number ->
              (has_column df "num_of_fatal" = false ->
               exists z, r' "num_of_fatal"%string = Int z) /\
              (has_column df "num_of_injuries" = false ->
               exists z, r' "num_of_injuries"%string = Int z)))
          (with_coordinates "Long" "Lat" df) (map fst (grows out)).
Proof.
  intros E. destruct (cleaned_inv df out E) as (_ & _ & _ & _ & _ & -> & _).
  apply Forall2_map_fun. intros r. rewrite row_of_fatal, row_of_injuries.
  split; [reflexivity|]. split; [reflexivity|].
  intros Hp. split; intros H; now apply count_cell_integer.
Qed.

(** X10: the cleaner replaces each of [Light], [Traffic_Control] and
    [Classification_Of_Accident] the table has by its trimmed upper-case
    text, and leaves every column it does not write as it was in the input
    row. *)
Theorem X10_categoricals_and_other_columns df out :
  cleaned df = Ok out ->
  Forall2 (fun r r' =>
             (forall col, In col categoricals ->
                r' col = if has_column df col then strip_upper (r col) else r col) /\
             (forall c, ~ In c written_columns -> r' c = r c))
          (with_coordinates "Long" "Lat" df) (map fst (grows out)).
Proof.
  intros E. destruct (cleaned_inv df out E) as (_ & _ & _ & _ & _ & -> & _).
  apply Forall2_map_fun. intros r. split.
  - intros col I. now apply row_of_categorical.
  - intros c N. now apply row_of_other.
Qed.

Lemma coordinate_columns df c :
  c = "Long"%string \/ c = "Lat"%string ->
  has_column (counted parse_number strip_upper (stamp df)) c = has_column df c.
Proof.
  intros [-> | ->]; rewrite has_column_counted, has_column_stamped;
    cbn [String.eqb Ascii.eqb Bool.eqb]; now rewrite !orb_false_r.
Qed.

Lemma cleaned_no_date df :
  has_column df "Accident_Date" = false -> cleaned df = Err (KeyError "Accident_Date").
Proof. intros Hd. unfold cleaned, clean_collisions. now rewrite Hd. Qed.

Lemma cleaned_points df :
  has_column df "Accident_Date" = true ->
  cleaned df =
  (if negb (has_column df "Long") then Err (KeyError "Long")
   else if negb (has_column df "Lat") then Err (KeyError "Lat")
   else
     let kept := with_coordinates "Long" "Lat" (counted parse_number strip_upper (stamp df)) in
     geometry <- points_from_xy float_of_text (map (fun r : Row => r "Long"%string) kept)
                                (map (fun r : Row => r "Lat"%string) kept) ;;
     to_projected transform
       {| gcolumns := columns (counted parse_number strip_upper (stamp df));
          grows := combine kept geometry; crs := Some WGS84 |} DEFAULT_CRS).
Proof.
  intros Hd. unfold cleaned. rewrite (clean_collisions_stages _ _ _ _ _ _ df Hd).
  fold stamp. unfold df_to_points.
  rewrite !coordinate_columns by auto.
  destruct (has_column df "Long"); [|reflexivity].
  destruct (has_column df "Lat"); [|reflexivity].
  cbn [negb]. cbv zeta. unfold with_coordinates.
  destruct (points_from_xy _ _ _); reflexivity.
Qed.

(** X11: the collision cleaner fails with a KeyError on the first of
    [Accident_Date], [Long], [Lat] the table lacks; a table it returns is
    in the project frame, so that projecting it again changes nothing, has
    the input columns and the six new ones, one record per input row with
    both coordinates, in order, and every record lies at the reprojection
    of its (longitude, latitude). *)
Theorem X11_clean_collisions_result df :
  (has_column df "Accident_Date" = false -> cleaned df = Err (KeyError "Accident_Date")) /\
  (has_column df "Accident_Date" = true -> has_column df "Long" = false ->
   cleaned df = Err (KeyError "Long")) /\
  (has_column df "Accident_Date" = true -> has_column df "Long" = true ->
   has_column df "Lat" = false -> cleaned df = Err (KeyError "Lat")) /\
  (forall out, cleaned df = Ok out ->
     crs out = Some DEFAULT_CRS /\
     to_projected transform out DEFAULT_CRS = Ok out /\
     (forall c, mem c (gcolumns out) = has_column df c || mem c added_columns) /\
     List.length (grows out) = List.length (with_coordinates "Long" "Lat" df) /\
     Forall2 (fun r p => exists q, located float_of_text "Long" "Lat" r q /\
                                   p = transform WGS84 DEFAULT_CRS q)
             (with_coordinates "Long" "Lat" df) (geometries out)).
Proof.
  split; [|split; [|split]].
  - apply cleaned_no_date.
  - intros Hd Hx. rewrite (cleaned_points df Hd), Hx. reflexivity.
  - intros Hd Hx Hy. rewrite (cleaned_points df Hd), Hx, Hy. reflexivity.
  - intros out E. destruct (cleaned_inv df out E) as (_ & _ & _ & Hc & Hm & Hr & Hg).
    split; [exact Hc|]. split.
    { unfold to_projected. rewrite Hc, String.eqb_refl. reflexivity. }
    split; [exact Hm|]. split; [|exact Hg].
    now rewrite <- (length_map fst), Hr, length_map.
Qed.
End CollisionRows.

Lemma X9_severity_counts_witness :
  exists out,
    clean_collisions sample_to_datetime sample_dayofweek (fun _ => NA) sample_upper
                     shift_east sample_float_of_text sample_severity = Ok out /\
    map (fun r : Row => (r "num_of_fatal"%string, r "num_of_injuries"%string))
        (map fst (grows out)) = [(Int 1, Int 0); (Int 0, Int 0)] /\
    Forall2 (fun r r' =>
               r' "num_of_fatal"%string =
                 count_cell (fun _ => NA) sample_severity "num_of_fatal" fatal_names r /\
               r' "num_of_injuries"%string =
                 count_cell (fun _ => NA) sample_severity "num_of_injuries" injury_names r /\
               (numeric_parser (fun _ => NA) ->
                (has_column sample_severity "num_of_fatal" = false ->
                 exists z, r' "num_of_fatal"%string = Int z) /\
                (has_column sample_severity "num_of_injuries" = false ->
                 exists z, r' "num_of_injuries"%string = Int z)))
            (with_coordinates "Long" "Lat" sample_severity) (map fst (grows out)).
Proof.
  eexists. split; [reflexivity|]. split; [reflexivity|].
  exact (X9_severity_counts sample_to_datetime sample_dayofweek (fun _ => NA) sample_upper
                            shift_east sample_float_of_text sample_severity _ eq_refl).
Defined.

Lemma X10_categoricals_and_other_columns_witness :
  exists out,
    clean_collisions sample_to_datetime sample_dayofweek (fun _ => NA) sample_upper
                     shift_east sample_float_of_text sample_severity = Ok out /\
    map (fun r : Row => (r "Light"%string, r "NUM_FATAL"%string)) (map fst (grows out)) =
      [(Str "DARK", Float (3 # 2)); (Str "DAY", NA)] /\
    Forall2 (fun r r' =>
               (forall col, In col categoricals ->
                  r' col = if has_column sample_severity col
                           then sample_upper (r col) else r col) /\
               (forall c, ~ In c written_columns -> r' c = r c))
            (with_coordinates "Long" "Lat" sample_severity) (map fst (grows out)).
Proof.
  eexists. split; [reflexivity|]. split; [reflexivity|].
  exact (X10_categoricals_and_other_columns sample_to_datetime sample_dayofweek
           (fun _ => NA) sample_upper shift_east sample_float_of_text sample_severity _
           eq_refl).
Defined.

(** The run on the sample table: the row without a latitude is dropped,
    the others are reprojected. *)
Example sample_severity_clean :
  exists out,
    clean_collisions sample_to_datetime sample_dayofweek (fun _ => NA) sample_upper
                     shift_east sample_float_of_text sample_severity = Ok out /\
    crs out = Some DEFAULT_CRS /\
    geometries out = [mkPoint ((-757 # 10) + 1) (454 # 10);
                      mkPoint ((-757 # 10) + 1) (455 # 10)] /\
    clean_collisions sample_to_datetime sample_dayofweek (fun _ => NA) sample_upper
                     shift_east sample_float_of_text (mkDataFrame ["Accident_Date"; "Lat"]%string []) =
    Err (KeyError "Long").
Proof. eexists. repeat split; reflexivity. Qed.

Section ConstructionRows.
Variable to_datetime : cell -> option Timestamp.
Variable transform : CRS -> CRS -> Point -> Point.
Variable float_of_text : string -> option Q.

Let cleaned := clean_construction to_datetime transform float_of_text.

Lemma parsed_start_rows df :
  rows (parsed_start to_datetime df) = map (start_row to_datetime df) (rows df).
Proof.
  unfold parsed_start, start_row. destruct (has_column df "TARGETED_START").
  - reflexivity.
  - now rewrite map_id.
Qed.

Lemma start_row_other df r c :
  c <> "TARGETED_START"%string -> start_row to_datetime df r c = r c.
Proof.
  intros N. unfold start_row. destruct (has_column df "TARGETED_START"); [|reflexivity].
  now apply set_cell_other.
Qed.

Lemma start_row_same df r :
  start_row to_datetime df r "TARGETED_START"%string =
  if has_column df "TARGETED_START"
  then datetime_cell to_datetime (r "TARGETED_START"%string)
  else r "TARGETED_START"%string.
Proof.
  unfold start_row. destruct (has_column df "TARGETED_START"); [|reflexivity].
  apply set_cell_same.
Qed.

Lemma cleaned_construction df :
  cleaned df =
  match first_present df lon_candidates, first_present df lat_candidates with
  | Some lon_col, Some lat_col =>
      gdf <- df_to_points float_of_text (parsed_start to_datetime df) lon_col lat_col WGS84 ;;
      to_projected transform gdf DEFAULT_CRS
  | _, _ => Err MissingCoordinates
  end.
Proof.
  unfold cleaned, clean_construction. fold (parsed_start to_datetime df).
  now rewrite !parsed_start_first.
Qed.

Lemma candidate_not_start df candidates c :
  candidates = lon_candidates \/ candidates = lat_candidates ->
  first_present df candidates = Some c ->
  has_column df c = true /\ c <> "TARGETED_START"%string.
Proof.
  intros Hc F. unfold first_present in F. apply find_some in F. destruct F as [I H].
  split; [exact H|]. intros ->.
  destruct Hc as [-> | ->]; cbn [In lon_candidates lat_candidates] in I;
    repeat (destruct I as [I|I]; [discriminate I|]); exact I.
Qed.

Lemma Forall2_map_left {T U V} (R : U -> V -> Prop) (f : T -> U) (l : list T) (m : list V) :
  Forall2 R (map f l) m <-> Forall2 (fun a b => R (f a) b) l m.
Proof.
  revert m. induction l as [|a l IH]; intros m; cbn [map]; split; intros F;
    inversion F; subst; constructor; auto; now apply IH.
Qed.

Lemma Forall2_map_right_iff {T U V} (R : T -> V -> Prop) (f : U -> V) (l : list T)
      (m : list U) :
  Forall2 R l (map f m) <-> Forall2 (fun a b => R a (f b)) l m.
Proof.
  revert m. induction l as [|a l IH]; intros [|b m]; cbn [map]; split; intros F;
    inversion F; subst; constructor; auto; now apply IH.
Qed.

(** What a successful run of the construction cleaner returned. *)
Lemma cleaned_construction_inv df out :
  cleaned df = Ok out ->
  exists lon_col lat_col,
    first_present df lon_candidates = Some lon_col /\
    first_present df lat_candidates = Some lat_col /\
    crs out = Some DEFAULT_CRS /\ gcolumns out = columns df /\
    map fst (grows out) =
      map (start_row to_datetime df) (with_coordinates lon_col lat_col df) /\
    Forall2 (fun r p => exists q, located float_of_text lon_col lat_col r q /\
                                  p = transform WGS84 DEFAULT_CRS q)
            (with_coordinates lon_col lat_col df) (geometries out).
Proof.
  rewrite cleaned_construction.
  destruct (first_present df lon_candidates) as [lon_col|] eqn:Flon; [|discriminate].
  destruct (first_present df lat_candidates) as [lat_col|] eqn:Flat; [|discriminate].
  destruct (candidate_not_start df _ _ (or_introl eq_refl) Flon) as [_ Nlon].
  destruct (candidate_not_start df _ _ (or_intror eq_refl) Flat) as [_ Nlat].
  destruct (df_to_points _ _ _ _ _) as [gdf|e] eqn:Ep; cbn [bind]; [|discriminate].
  apply df_to_points_inv in Ep. destruct Ep as (_ & _ & Hc & Hcrs & Hr & Hg).
  rewrite (to_projected_wgs84 _ _ Hcrs). intros E. injection E as <-.
  assert (with_coordinates lon_col lat_col (parsed_start to_datetime df) =
          map (start_row to_datetime df) (with_coordinates lon_col lat_col df)) as Hw.
  { unfold with_coordinates. rewrite parsed_start_rows. apply filter_map_comm.
    intros r. unfold missing_coords. now rewrite !start_row_other. }
  exists lon_col, lat_col. split; [reflexivity|]. split; [reflexivity|].
  split; [reflexivity|]. split; [|split].
  - unfold to_crs. cbn [gcolumns]. rewrite Hc. apply parsed_start_columns.
  - unfold to_crs. cbn [grows]. rewrite map_map. cbn [fst].
    change (fun x : Row * Point => fst x) with (@fst Row Point). now rewrite Hr.
  - rewrite Hw in Hg. clear Hw.
    apply (Forall2_map_left (located float_of_text lon_col lat_col) (start_row to_datetime df)) in Hg.
    unfold geometries, to_crs. cbn [grows]. rewrite map_map. cbn [snd].
    rewrite <- (map_map snd (transform WGS84 DEFAULT_CRS)).
    apply Forall2_map_right_iff. eapply Forall2_impl; [|exact Hg].
    intros r p [A B]. exists p. split; [|reflexivity].
    rewrite !start_row_other in A, B by assumption. now split.
Qed.

End ConstructionRows.

(** The run on the sample sites: [Longitude] and [Latitude] are found, in
    whatever order the table has them; the row without a longitude is
    dropped. *)
Example sample_sites_clean :
  exists out,
    clean_construction sample_to_datetime shift_east sample_float_of_text sample_sites = Ok out /\
    geometries out = [mkPoint ((-757 # 10) + 1) (454 # 10);
                      mkPoint (inject_Z (-76) + 1) (inject_Z 45)] /\
    map (fun r : Row => r "TARGETED_START"%string) (map fst (grows out)) =
      [Stamp (mkTimestamp 2021 3 4 15 30 0); NA].
Proof. eexists. repeat split; reflexivity. Qed.

Lemma mem_In c cols : mem c cols = true <-> In c cols.
Proof.
  unfold mem. rewrite existsb_exists. split.
  - intros (x & I & E). apply String.eqb_eq in E. now subst.
  - intros I. exists c. split; [exact I|apply String.eqb_refl].
Qed.

Lemma mem_false c cols : mem c cols = false <-> ~ In c cols.
Proof.
  rewrite <- mem_In. destruct (mem c cols).
  - split; [discriminate|]. intros N. exfalso. now apply N.
  - split; [intros _ X; discriminate X|reflexivity].
Qed.

(** *** Renaming *)

Lemma new_name_not_key rename x :
  ~ In x (map fst rename) -> new_name rename x = x.
Proof.
  intros N. unfold new_name.
  destruct (find (fun kv => String.eqb (fst kv) x) rename) as [kv|] eqn:F; [|reflexivity].
  apply find_some in F. destruct F as [I E]. apply String.eqb_eq in E.
  exfalso. apply N. rewrite <- E. now apply in_map.
Qed.

Lemma new_name_key rename k v :
  NoDup (map fst rename) -> In (k, v) rename -> new_name rename k = v.
Proof.
  intros D I. unfold new_name. induction rename as [|[k' v'] t IH]; [destruct I|].
  cbn [find fst]. cbn [map fst] in D. inversion D as [|? ? Nk Dt]; subst.
  destruct (String.eqb_spec k' k) as [->|N].
  - destruct I as [E|I]; [now injection E|].
    exfalso. apply Nk. now apply (in_map fst) in I.
  - destruct I as [E|I]; [injection E as -> _; contradiction|]. now apply IH.
Qed.

Lemma new_name_value rename x :
  In x (map fst rename) -> In (new_name rename x) (map snd rename).
Proof.
  intros I. unfold new_name.
  destruct (find (fun kv => String.eqb (fst kv) x) rename) as [kv|] eqn:F.
  - apply find_some in F. now apply in_map.
  - exfalso. apply in_map_iff in I. destruct I as (kv & <- & I).
    apply (find_none _ _ F) in I. now rewrite String.eqb_refl in I.
Qed.

Section Renamed.
Variable rename : list (string * string).
Hypothesis keys_distinct : NoDup (map fst rename).
Hypothesis values_distinct : NoDup (map snd rename).
Hypothesis no_key_is_value : forall c, In c (map fst rename) -> ~ In c (map snd rename).

Lemma mem_renamed_other cols c :
  ~ In c (map fst rename) -> ~ In c (map snd rename) ->
  mem c (map (new_name rename) cols) = mem c cols.
Proof.
  intros Nk Nv. unfold mem. induction cols as [|x t IH]; [reflexivity|].
  cbn [map existsb]. rewrite IH. f_equal.
  destruct (in_dec string_dec x (map fst rename)) as [I|N].
  - pose proof (new_name_value rename x I) as V.
    destruct (String.eqb_spec c (new_name rename x)) as [->|_]; [contradiction|].
    destruct (String.eqb_spec c x) as [->|_]; [contradiction|reflexivity].
  - now rewrite new_name_not_key.
Qed.

Lemma mem_renamed_value cols k v :
  In (k, v) rename -> mem k cols = true -> mem v (map (new_name rename) cols) = true.
Proof.
  intros I H. apply mem_In. apply mem_In in H. apply in_map_iff.
  exists k. split; [now apply new_name_key|exact H].
Qed.

Lemma mem_renamed_key cols k :
  In k (map fst rename) -> mem k (map (new_name rename) cols) = false.
Proof.
  intros I. apply mem_false. intros X. apply in_map_iff in X. destruct X as (x & E & _).
  destruct (in_dec string_dec x (map fst rename)) as [Ix|N].
  - apply (no_key_is_value k I). rewrite <- E. now apply new_name_value.
  - rewrite new_name_not_key in E by exact N. now subst.
Qed.

Lemma rename_row_value r k v : In (k, v) rename -> rename_row rename r v = r k.
Proof.
  intros I. unfold rename_row.
  assert (find (fun kv => String.eqb (snd kv) v) rename = Some (k, v)) as ->; [|reflexivity].
  clear keys_distinct no_key_is_value.
  induction rename as [|[k' v'] t IH]; [destruct I|].
  cbn [find snd]. cbn [map snd] in values_distinct.
  inversion values_distinct as [|? ? Nv Dt]; subst.
  destruct (String.eqb_spec v' v) as [->|N].
  - destruct I as [E|I]; [now injection E as ->|].
    exfalso. apply Nv. now apply (in_map snd) in I.
  - destruct I as [E|I]; [injection E as _ ->; contradiction|]. now apply IH.
Qed.

Lemma rename_row_other r c :
  ~ In c (map fst rename) -> ~ In c (map snd rename) -> rename_row rename r c = r c.
Proof.
  intros Nk Nv. unfold rename_row.
  destruct (find (fun kv => String.eqb (snd kv) c) rename) as [kv|] eqn:F.
  - apply find_some in F. destruct F as [I E]. apply String.eqb_eq in E.
    exfalso. apply Nv. rewrite <- E. now apply in_map.
  - destruct (existsb (fun kv => String.eqb (fst kv) c) rename) eqn:X; [|reflexivity].
    apply existsb_exists in X. destruct X as (kv & I & E). apply String.eqb_eq in E.
    exfalso. apply Nk. rewrite <- E. now apply in_map.
Qed.
End Renamed.

Lemma NoDup_map_filter {T U} (f : T -> U) (p : T -> bool) (l : list T) :
  NoDup (map f l) -> NoDup (map f (filter p l)).
Proof.
  induction l as [|a l IH]; [auto|]. cbn [map filter]. intros D.
  inversion D as [|? ? N Dl]; subst. destruct (p a); [|auto].
  cbn [map]. constructor; [|auto]. intros I. apply N.
  apply in_map_iff in I. destruct I as (b & E & I). apply filter_In in I.
  rewrite <- E. apply in_map. tauto.
Qed.

Lemma road_keys_distinct : NoDup (map fst _ROAD_COL_RENAME).
Proof.
  cbn. repeat constructor; cbn; intros X;
    repeat (destruct X as [X|X]; [discriminate X|]); exact X.
Qed.

Lemma road_values_distinct : NoDup (map snd _ROAD_COL_RENAME).
Proof.
  cbn. repeat constructor; cbn; intros X;
    repeat (destruct X as [X|X]; [discriminate X|]); exact X.
Qed.

Lemma road_no_key_is_value c :
  In c (map fst _ROAD_COL_RENAME) -> ~ In c (map snd _ROAD_COL_RENAME).
Proof.
  cbn. intros I X.
  repeat (destruct I as [<-|I];
          [repeat (destruct X as [X|X]; [discriminate X|]); exact X|]).
  exact I.
Qed.

Lemma rename_of_In cols k v :
  In (k, v) (rename_of cols) <->
  In (k, v) _ROAD_COL_RENAME /\ mem k cols = true /\ mem v cols = false.
Proof.
  unfold rename_of. rewrite filter_In. cbn [fst snd].
  rewrite andb_true_iff, negb_true_iff. tauto.
Qed.

Lemma rename_of_keys cols c :
  In c (map fst (rename_of cols)) -> In c (map fst _ROAD_COL_RENAME).
Proof.
  intros I. apply in_map_iff in I. destruct I as ([k v] & <- & I).
  apply rename_of_In in I. destruct I as [I _]. now apply (in_map fst) in I.
Qed.

Lemma rename_of_values cols c :
  In c (map snd (rename_of cols)) -> In c (map snd _ROAD_COL_RENAME).
Proof.
  intros I. apply in_map_iff in I. destruct I as ([k v] & <- & I).
  apply rename_of_In in I. destruct I as [I _]. now apply (in_map snd) in I.
Qed.

Lemma rename_of_keys_distinct cols : NoDup (map fst (rename_of cols)).
Proof. apply NoDup_map_filter, road_keys_distinct. Qed.

Lemma rename_of_values_distinct cols : NoDup (map snd (rename_of cols)).
Proof. apply NoDup_map_filter, road_values_distinct. Qed.

Lemma rename_of_no_key_is_value cols c :
  In c (map fst (rename_of cols)) -> ~ In c (map snd (rename_of cols)).
Proof.
  intros I X. apply (road_no_key_is_value c); eauto using rename_of_keys, rename_of_values.
Qed.

(** A pair of the rename table, seen from its two names. *)
Lemma road_pair_names k v k' v' :
  In (k, v) _ROAD_COL_RENAME -> In (k', v') _ROAD_COL_RENAME ->
  (k = k' -> v = v') /\ (v = v' -> k = k') /\ k <> v'.
Proof.
  cbn. intros I I'.
  repeat (destruct I as [E|I]; [injection E as <- <-|]); [..|destruct I];
    (repeat (destruct I' as [E'|I']; [injection E' as <- <-|]); [..|destruct I']);
    repeat split; congruence.
Qed.

Lemma rename_of_key_iff cols k v :
  In (k, v) _ROAD_COL_RENAME ->
  (In k (map fst (rename_of cols)) <-> mem k cols = true /\ mem v cols = false) /\
  (In v (map snd (rename_of cols)) <-> mem k cols = true /\ mem v cols = false).
Proof.
  intros I. split; split.
  - intros X. apply in_map_iff in X. destruct X as ([k' v'] & E & X). cbn [fst] in E.
    subst k'. apply rename_of_In in X. destruct X as (I' & H).
    destruct (road_pair_names _ _ _ _ I I') as (E & _). now rewrite (E eq_refl).
  - intros H. apply in_map_iff. exists (k, v). split; [reflexivity|].
    apply rename_of_In. tauto.
  - intros X. apply in_map_iff in X. destruct X as ([k' v'] & E & X). cbn [snd] in E.
    subst v'. apply rename_of_In in X. destruct X as (I' & H).
    destruct (road_pair_names _ _ _ _ I I') as (_ & E & _). now rewrite (E eq_refl).
  - intros H. apply in_map_iff. exists (k, v). split; [reflexivity|].
    apply rename_of_In. tauto.
Qed.

(** The columns after the renaming: a canonical name is a column when it
    or its truncated form was; a truncated name stays only beside its
    canonical name. *)
Lemma renamed_pair cols k v :
  In (k, v) _ROAD_COL_RENAME ->
  mem v (map (new_name (rename_of cols)) cols) = mem v cols || mem k cols /\
  mem k (map (new_name (rename_of cols)) cols) = mem k cols && mem v cols.
Proof.
  intros I. destruct (rename_of_key_iff cols k v I) as [Hk Hv].
  assert (~ In v (map fst (rename_of cols))) as Nvk.
  { intros X. apply rename_of_keys in X. apply (road_no_key_is_value v X).
    now apply (in_map snd) in I. }
  assert (~ In k (map snd (rename_of cols))) as Nkv.
  { intros X. apply rename_of_values in X. apply (in_map fst) in I.
    now apply (road_no_key_is_value k I). }
  destruct (mem k cols) eqn:Ek, (mem v cols) eqn:Ev; cbn [orb andb].
  - assert (~ In k (map fst (rename_of cols))) as Nk by (rewrite Hk; intros [_ X]; discriminate).
    assert (~ In v (map snd (rename_of cols))) as Nv by (rewrite Hv; intros [_ X]; discriminate).
    rewrite !mem_renamed_other by assumption. now rewrite Ek, Ev.
  - split.
    + apply mem_renamed_value with (k := k);
        [apply rename_of_keys_distinct|apply rename_of_In; tauto|exact Ek].
    + apply mem_renamed_key; [apply rename_of_no_key_is_value|]. apply Hk. tauto.
  - assert (~ In k (map fst (rename_of cols))) as Nk by (rewrite Hk; intros [X _]; discriminate).
    assert (~ In v (map snd (rename_of cols))) as Nv by (rewrite Hv; intros [X _]; discriminate).
    rewrite !mem_renamed_other by assumption. now rewrite Ek, Ev.
  - assert (~ In k (map fst (rename_of cols))) as Nk by (rewrite Hk; intros [X _]; discriminate).
    assert (~ In v (map snd (rename_of cols))) as Nv by (rewrite Hv; intros [X _]; discriminate).
    rewrite !mem_renamed_other by assumption. now rewrite Ek, Ev.
Qed.

Lemma renamed_other cols c :
  (forall kv, In kv _ROAD_COL_RENAME -> c <> fst kv /\ c <> snd kv) ->
  mem c (map (new_name (rename_of cols)) cols) = mem c cols.
Proof.
  intros N. apply mem_renamed_other.
  - intros X. apply rename_of_keys, in_map_iff in X. destruct X as (kv & E & I).
    destruct (N kv I) as [A _]. congruence.
  - intros X. apply rename_of_values, in_map_iff in X. destruct X as (kv & E & I).
    destruct (N kv I) as [_ A]. congruence.
Qed.

Lemma renamed_row_pair cols r k v :
  In (k, v) _ROAD_COL_RENAME ->
  rename_row (rename_of cols) r v =
  if mem v cols then r v else if mem k cols then r k else r v.
Proof.
  intros I. destruct (rename_of_key_iff cols k v I) as [Hk Hv].
  assert (~ In v (map fst (rename_of cols))) as Nvk.
  { intros X. apply rename_of_keys in X. apply (road_no_key_is_value v X).
    now apply (in_map snd) in I. }
  destruct (mem v cols) eqn:Ev.
  - apply rename_row_other; [exact Nvk|]. rewrite Hv. intros [_ X]. discriminate.
  - destruct (mem k cols) eqn:Ek.
    + apply rename_row_value; [apply rename_of_values_distinct|]. apply rename_of_In. tauto.
    + apply rename_row_other; [exact Nvk|]. rewrite Hv. intros [X _]. discriminate.
Qed.

Lemma renamed_row_other cols r c :
  (forall kv, In kv _ROAD_COL_RENAME -> c <> fst kv /\ c <> snd kv) ->
  rename_row (rename_of cols) r c = r c.
Proof.
  intros N. apply rename_row_other.
  - intros X. apply rename_of_keys, in_map_iff in X. destruct X as (kv & E & I).
    destruct (N kv I) as [A _]. congruence.
  - intros X. apply rename_of_values, in_map_iff in X. destruct X as (kv & E & I).
    destruct (N kv I) as [_ A]. congruence.
Qed.
(** *** The road cleaner *)

Lemma map_pair_eta {T U} (l : list (T * U)) : map (fun a => (fst a, snd a)) l = l.
Proof. induction l as [|[a b] l IH]; [reflexivity|]. cbn [map fst snd]. now rewrite IH. Qed.

Lemma combine_fst_snd {T U} (l : list (T * U)) : combine (map fst l) (map snd l) = l.
Proof. induction l as [|[a b] l IH]; [reflexivity|]. cbn [map combine fst snd]. now rewrite IH. Qed.

Lemma mem_appended c cols name :
  mem c (if mem name cols then cols else cols ++ [name]) = mem c cols || String.eqb c name.
Proof.
  destruct (mem name cols) eqn:E.
  - destruct (String.eqb_spec c name) as [->|_]; [now rewrite E|now rewrite orb_false_r].
  - unfold mem. rewrite existsb_app. cbn [existsb]. now rewrite orb_false_r.
Qed.

Lemma road_not_length k v :
  In (k, v) _ROAD_COL_RENAME -> k <> "length_m"%string /\ v <> "length_m"%string.
Proof.
  cbn. intros I.
  repeat (destruct I as [E|I]; [injection E as <- <-; split; discriminate|]). destruct I.
Qed.

Section RoadFacts.
Context {G : Type}.
Variable from_wkt : cell -> result G.
Variable transform : CRS -> CRS -> G -> G.
Variable geom_length : G -> Q.

Let cleaned := clean_roads from_wkt transform geom_length.

Lemma from_wkt_rows_inv rs l :
  from_wkt_rows from_wkt rs = Ok l ->
  map fst l = rs /\
  Forall2 (fun r g => from_wkt (r "geometry"%string) = Ok g) rs (map snd l).
Proof.
  revert l. induction rs as [|r t IH]; intros l; cbn [from_wkt_rows].
  - intros E. injection E as <-. split; [reflexivity|constructor].
  - destruct (from_wkt (r "geometry"%string)) as [g|e] eqn:Eg; cbn [bind]; [|discriminate].
    destruct (from_wkt_rows from_wkt t) as [gs|e] eqn:Et; cbn [bind]; [|discriminate].
    intros E. injection E as <-. destruct (IH gs eq_refl) as [A B].
    cbn [map fst snd]. split; [now rewrite A|now constructor].
Qed.

Lemma from_wkt_rows_error rs e :
  from_wkt_rows from_wkt rs = Err e ->
  exists r, In r rs /\ from_wkt (r "geometry"%string) = Err e.
Proof.
  induction rs as [|r t IH]; cbn [from_wkt_rows]; [discriminate|].
  destruct (from_wkt (r "geometry"%string)) as [g|e'] eqn:Eg; cbn [bind].
  - destruct (from_wkt_rows from_wkt t) as [gs|e'] eqn:Et; cbn [bind]; [discriminate|].
    intros E. injection E as <-. destruct (IH eq_refl) as (r' & I & E). exists r'.
    split; [now right|exact E].
  - intros E. injection E as <-. exists r. split; [now left|exact Eg].
Qed.

Lemma from_wkt_rows_total rs :
  (forall r, In r rs -> exists g, from_wkt (r "geometry"%string) = Ok g) ->
  exists l, from_wkt_rows from_wkt rs = Ok l.
Proof.
  induction rs as [|r t IH]; intros H; cbn [from_wkt_rows]; [eauto|].
  destruct (H r (or_introl eq_refl)) as [g ->].
  destruct IH as [l ->]; [intros; apply H; now right|]. cbn [bind]. eauto.
Qed.

Lemma as_geo_inv input g0 :
  as_geo from_wkt input = Ok g0 ->
  gcolumns g0 = input_columns input /\ map fst (grows g0) = input_rows input /\
  input_geometries from_wkt input (map snd (grows g0)) /\
  fillna WGS84 (crs g0) = input_crs input.
Proof.
  destruct input as [gdf|df]; cbn [as_geo input_columns input_rows input_geometries input_crs].
  - intros E. injection E as <-. auto.
  - destruct (has_column df "geometry"); [|discriminate].
    destruct (from_wkt_rows from_wkt (rows df)) as [l|e] eqn:El; cbn [bind]; [|discriminate].
    intros E. injection E as <-. cbn [gcolumns grows crs fillna].
    destruct (from_wkt_rows_inv _ _ El) as [A B]. auto.
Qed.

Lemma rename_columns_fields (g : GeoDataFrame G) :
  gcolumns (rename_columns g) = map (new_name (rename_of (gcolumns g))) (gcolumns g) /\
  grows (rename_columns g) =
    map (fun rg => (rename_row (rename_of (gcolumns g)) (fst rg), snd rg)) (grows g) /\
  crs (rename_columns g) = crs g.
Proof.
  unfold rename_columns. destruct (rename_of (gcolumns g)) as [|kv t] eqn:E;
    [|repeat split; reflexivity].
  split; [|split; [|reflexivity]].
  - symmetry. rewrite <- (map_id (gcolumns g)) at 2. now apply map_ext.
  - symmetry. rewrite <- (map_pair_eta (grows g)) at 2. now apply map_ext.
Qed.

Lemma projected_fields (g : GeoDataFrame G) :
  exists pg,
    to_projected transform (set_crs_if_missing g) DEFAULT_CRS = Ok pg /\
    gcolumns pg = gcolumns g /\ crs pg = Some DEFAULT_CRS /\
    grows pg = map (fun rg => (fst rg, projected transform (fillna WGS84 (crs g)) (snd rg)))
                   (grows g).
Proof.
  unfold set_crs_if_missing, to_projected, projected.
  destruct (crs g) as [c|] eqn:Ec; cbn [crs fillna].
  - rewrite Ec. destruct (String.eqb_spec c DEFAULT_CRS) as [->|N].
    + exists g. split; [reflexivity|]. split; [reflexivity|]. split; [exact Ec|].
      now rewrite map_pair_eta.
    + eexists. split; [reflexivity|]. repeat split.
  - change (String.eqb WGS84 DEFAULT_CRS) with false. cbv iota.
    eexists. split; [reflexivity|]. repeat split.
Qed.

(** The stages of a successful run, field by field. *)
Lemma clean_roads_inv input out :
  cleaned input = Ok out ->
  exists g0,
    as_geo from_wkt input = Ok g0 /\
    crs out = Some DEFAULT_CRS /\
    (forall c, mem c (gcolumns out) =
               mem c (map (new_name (rename_of (gcolumns g0))) (gcolumns g0)) ||
               String.eqb c "length_m") /\
    grows out =
      map (fun rg =>
             let r1 := rename_row (rename_of (gcolumns g0)) (fst rg) in
             let g := projected transform (fillna WGS84 (crs g0)) (snd rg) in
             (set_cell r1 "length_m"
                (if mem "SHAPE_Length" (map (new_name (rename_of (gcolumns g0))) (gcolumns g0))
                 then r1 "SHAPE_Length"%string else Float (geom_length g)), g))
          (grows g0).
Proof.
  unfold cleaned, clean_roads.
  destruct (as_geo from_wkt input) as [g0|e] eqn:E0; cbn [bind]; [|discriminate].
  destruct (projected_fields (rename_columns g0)) as (pg & -> & Hc & Hcrs & Hr).
  cbn [bind]. intros E. injection E as <-. exists g0.
  destruct (rename_columns_fields g0) as (Rc & Rr & Rcrs).
  split; [reflexivity|]. split; [exact Hcrs|]. split.
  - intros c. unfold with_length. cbn [gcolumns]. rewrite mem_appended, Hc, Rc. reflexivity.
  - unfold with_length. cbn [grows]. rewrite Hr, Rr, Rcrs, !map_map, Hc, Rc. reflexivity.
Qed.

Lemma geo_table_cleaned gdf : exists out, cleaned (GeoTable gdf) = Ok out.
Proof.
  unfold cleaned, clean_roads. cbn [as_geo bind].
  destruct (projected_fields (rename_columns gdf)) as (pg & -> & _). cbn [bind]. eauto.
Qed.



End RoadFacts.



(** A GeoDataFrame without a declared frame and without a length column:
    it is read as WGS84 and the length is measured on the projected
    geometry. *)
Example sample_lines_cleaned :
  exists out,
    clean_roads sample_from_wkt shift_interval interval_length
      (GeoTable (mkGeoDataFrame ["RD_SEGMENT_ID"%string] (grows sample_lines) None)) = Ok out /\
    crs out = Some DEFAULT_CRS /\
    map (fun rg : Row * (Q * Q) => (fst rg "length_m"%string, snd rg)) (grows out) =
      [(Float (10 + 100 - (0 + 100)), ((0 + 100)%Q, (10 + 100)%Q));
       (Float (30 + 100 - (15 + 100)), ((15 + 100)%Q, (30 + 100)%Q))].
Proof. eexists. repeat split; reflexivity. Qed.

Section PointErrors.
Variable float_of_text : string -> option Q.

Lemma as_floats_app (xs ys : list cell) :
  as_floats float_of_text (xs ++ ys) =
  (px <- as_floats float_of_text xs ;; py <- as_floats float_of_text ys ;; Ok (px ++ py)).
Proof.
  induction xs as [|c t IH]; cbn [app as_floats bind].
  - now destruct (as_floats float_of_text ys).
  - destruct (as_coordinate float_of_text c) as [q|e]; cbn [bind]; [|reflexivity].
    rewrite IH. destruct (as_floats float_of_text t) as [qs|e]; cbn [bind]; [|reflexivity].
    now destruct (as_floats float_of_text ys).
Qed.

Lemma points_from_xy_raises (xs ys : list cell) (e : error) :
  points_from_xy float_of_text xs ys = Err e <-> as_floats float_of_text (xs ++ ys) = Err e.
Proof.
  rewrite as_floats_app. unfold points_from_xy.
  destruct (as_floats float_of_text xs) as [px|e1]; cbn [bind];
    [|split; intros X; injection X as <-; reflexivity].
  destruct (as_floats float_of_text ys) as [py|e2]; cbn [bind];
    [|split; intros X; injection X as <-; reflexivity].
  split; discriminate.
Qed.

(** The conversion of a column stops at its first cell that is not read. *)
Lemma as_floats_raises (cs : list cell) (e : error) :
  as_floats float_of_text cs = Err e <->
  exists pre c post,
    cs = pre ++ c :: post /\
    (forall c', In c' pre -> exists q, reads float_of_text c' q) /\
    as_coordinate float_of_text c = Err e.
Proof.
  induction cs as [|c t IH]; cbn [as_floats].
  - split; [discriminate|]. intros (pre & c & post & E & _). now destruct pre.
  - destruct (as_coordinate float_of_text c) as [q|e'] eqn:Ec; cbn [bind].
    + split.
      * intros X.
        assert (as_floats float_of_text t = Err e) as Xt
            by (destruct (as_floats float_of_text t); [discriminate X|exact X]).
        apply IH in Xt. destruct Xt as (pre & c0 & post & -> & Hpre & Hc).
        exists (c :: pre), c0, post. split; [reflexivity|]. split; [|exact Hc].
        intros c' [<-|I]; [now exists q|now apply Hpre].
      * intros (pre & c0 & post & E & Hpre & Hc). destruct pre as [|p pre].
        -- injection E as <- <-. congruence.
        -- injection E as <- ->.
           assert (as_floats float_of_text (pre ++ c0 :: post) = Err e) as Xt.
           { apply IH. exists pre, c0, post. split; [reflexivity|]. split; [|exact Hc].
             intros c' I. apply Hpre. now right. }
           now rewrite Xt.
    + split.
      * intros X. injection X as <-. exists [], c, t. split; [reflexivity|].
        split; [intros ? []|exact Ec].
      * intros (pre & c0 & post & E & Hpre & Hc). destruct pre as [|p pre].
        -- injection E as <- <-. congruence.
        -- injection E as <- ->. destruct (Hpre c (or_introl eq_refl)) as (q & Hq).
           unfold reads in Hq. congruence.
Qed.

Lemma unreadable_raises (c : cell) (e : error) :
  isna c = false ->
  (as_coordinate float_of_text c = Err e <-> unreadable float_of_text c e).
Proof.
  intros N. destruct c as [|z|q|s|t]; cbn; [discriminate N| | | |].
  - split; [discriminate|]. intros [(s & X & _)|(t & X & _)]; discriminate X.
  - split; [discriminate|]. intros [(s & X & _)|(t & X & _)]; discriminate X.
  - split.
    + destruct (float_of_text s) eqn:E; [discriminate|]. intros X. injection X as <-.
      left. now exists s.
    + intros [(s' & X & E & ->)|(t & X & _)]; [|discriminate X].
      injection X as ->. now rewrite E.
  - split.
    + intros X. injection X as <-. right. now exists t.
    + intros [(s & X & _)|(t' & X & ->)]; [discriminate X|reflexivity].
Qed.

Lemma coordinate_cells_present lon_col lat_col df c :
  In c (coordinate_cells lon_col lat_col df) -> isna c = false.
Proof.
  unfold coordinate_cells, with_coordinates. intros I. apply in_app_or in I.
  destruct I as [I|I]; apply in_map_iff in I; destruct I as (r & <- & I);
    apply filter_In in I; destruct I as [_ M]; unfold missing_coords in M;
    apply negb_true_iff, orb_false_iff in M; tauto.
Qed.

Lemma as_floats_reads (cs : list cell) :
  (forall c, In c cs -> exists q, reads float_of_text c q) ->
  exists qs, as_floats float_of_text cs = Ok qs.
Proof.
  intros H. destruct (as_floats float_of_text cs) as [qs|e] eqn:E; [now exists qs|].
  apply as_floats_raises in E. destruct E as (pre & c & post & -> & _ & Hc).
  destruct (H c) as (q & Hq); [apply in_or_app; right; now left|].
  unfold reads in Hq. congruence.
Qed.

End PointErrors.

(** Numeric texts are read; the row without a longitude is dropped before
    its latitude is looked at. *)
Example text_coordinates_read :
  df_to_points sample_float_of_text sample_text_coordinates "Long" "Lat" WGS84 =
  Ok (mkGeoDataFrame ["Long"; "Lat"]%string
        [(lon_lat (Str "-75.7") (Str "45.4"), mkPoint (-757 # 10) (454 # 10));
         (lon_lat (Float (-758 # 10)) (Int 45), mkPoint (-758 # 10) (inject_Z 45))]
        (Some WGS84)).
Proof. reflexivity. Qed.

(** The longitude column is converted first: its second cell stops the
    conversion, not the latitude of the first row. *)
Example bad_coordinates_raise :
  df_to_points sample_float_of_text sample_bad_coordinates "Long" "Lat" WGS84 =
  Err (ValueError "could not convert string to float: 'west'") /\
  clean_collisions sample_to_datetime sample_dayofweek (fun _ => NA) (fun c => c) shift_east
    sample_float_of_text
    (mkDataFrame ["Accident_Date"; "Long"; "Lat"]%string (rows sample_bad_coordinates)) =
  Err (ValueError "could not convert string to float: 'west'").
Proof. split; reflexivity. Qed.

End CleanMore.

(** ** From the cleaners to the segment join, [src/features/build.py] *)

Module PipelineMore.
Import Frame FrameFacts Geo SpatialJoin Clean CleanRoads GeoNotions JoinNotions CleanNotions
       CleanerNotions Samples GeoClaims CleanClaims GeoMore CleanMore.

Section Pipeline.
Context {G : Type}.
Variable to_datetime : cell -> option Timestamp.
Variable dayofweek : Timestamp -> Z.
Variable parse_number : string -> cell.
Variable strip_upper : cell -> cell.
Variable transform_point : CRS -> CRS -> Point -> Point.
Variable from_wkt : cell -> result G.
Variable transform : CRS -> CRS -> G -> G.
Variable geom_length : G -> Q.
Variable intersects : Point -> G -> bool.
Variable buffer : G -> Q -> G.
Variable float_of_text : string -> option Q.

End Pipeline.


End PipelineMore.

(** ** The risk map, [src/viz/map_results.py] *)

Module VizMore.
Import Frame MapResults MapNotions.

Lemma same_year_iff m y : same_year m y = true <-> m_test_year m = Some y.
Proof.
  unfold same_year. destruct (m_test_year m) as [z|]; [|split; discriminate].
  rewrite Z.eqb_eq. split; [now intros ->|now intros E; injection E].
Qed.

Lemma Qle_bool_false a b : Qle_bool a b = false <-> (b < a)%Q.
Proof.
  split.
  - intros H. apply Qnot_le_lt. intros L. apply Qle_bool_iff in L. congruence.
  - intros L. destruct (Qle_bool a b) eqn:E; [|reflexivity].
    apply Qle_bool_iff in E. exfalso. apply (Qlt_not_le _ _ L E).
Qed.

(** The loop from any starting state: either nothing is chosen and no file
    of the year is above the starting value, or the chosen file is above
    it, strictly above the files of the year before it and at least as high
    as those after it. *)
Lemma loop_result (test_year : Z) files st0 b0 :
  let final := fold_left (consider test_year) files (st0, b0) in
  (final = (st0, b0) /\
   forall g w, In g files -> eligible test_year g w -> (w <= b0)%Q) \/
  (exists pre f post v,
     files = pre ++ f :: post /\ final = (Some (model_name f), v) /\
     eligible test_year f v /\ (b0 < v)%Q /\
     (forall g w, In g pre -> eligible test_year g w -> (w < v)%Q) /\
     (forall g w, In g post -> eligible test_year g w -> (w <= v)%Q)).
Proof.
  revert st0 b0. induction files as [|h t IH]; intros st0 b0; cbv zeta.
  - left. split; [reflexivity|]. intros g w [].
  - cbn [fold_left].
    assert ((consider test_year (st0, b0) h = (st0, b0) /\
             forall w, eligible test_year h w -> (w <= b0)%Q) \/
            (exists v, consider test_year (st0, b0) h = (Some (model_name h), v) /\
                       eligible test_year h v /\ (b0 < v)%Q)) as Hh.
    { unfold consider, eligible. cbn [snd].
      destruct (same_year h test_year) eqn:Y; cbn [negb].
      - apply same_year_iff in Y. destruct (m_metric h) as [v|] eqn:V.
        + destruct (Qle_bool v b0) eqn:L; cbn [negb].
          * left. split; [reflexivity|]. intros w [_ E]. injection E as <-.
            now apply Qle_bool_iff.
          * right. exists v. apply Qle_bool_false in L. auto.
        + left. split; [reflexivity|]. intros w [_ E]. discriminate E.
      - left. split; [reflexivity|]. intros w [E _]. apply same_year_iff in E. congruence. }
    destruct Hh as [[-> Hle]|(v & -> & He & Hlt)].
    + destruct (IH st0 b0) as [[E Hall]|(pre & f & post & v & -> & E & He & Hlt & Hpre & Hpost)].
      * left. split; [exact E|]. intros g w [<-|I]; eauto.
      * right. exists (h :: pre), f, post, v. repeat split; auto; try apply He.
        intros g w [<-|I] Hg; [|eauto]. apply Qle_lt_trans with b0; auto.
    + destruct (IH (Some (model_name h)) v)
        as [[E Hall]|(pre & f & post & v' & -> & E & He' & Hlt' & Hpre & Hpost)].
      * right. exists [], h, t, v. repeat split; auto; try apply He. intros g w [].
      * right. exists (h :: pre), f, post, v'. repeat split; auto; try apply He'.
        -- apply Qlt_trans with v; auto.
        -- intros g w [<-|I] Hg; [|eauto].
           destruct He as [_ Ev], Hg as [_ Ew]. rewrite Ev in Ew. injection Ew as <-.
           exact Hlt'.
Qed.


Example sample_best_model :
  get_best_model sample_metrics 2024 = Best "forest" /\
  get_best_model sample_metrics 2023 = Best "boost" /\
  get_best_model sample_metrics 2022 = ValueError_no_metrics /\
  get_best_model [] 2024 = FileNotFoundError.
Proof. repeat split; reflexivity. Qed.

(** *** Risk bands *)

Lemma risk_proba_range proba : (0 <= risk_proba proba)%Q /\ (risk_proba proba <= 1)%Q.
Proof.
  unfold risk_proba. cbv zeta.
  destruct (Qle_bool (fillna 0%Q proba) 0) eqn:A; [split; discriminate|].
  destruct (Qle_bool 1 (fillna 0%Q proba)) eqn:B; [split; discriminate|].
  apply Qle_bool_false in A, B. split; lra.
Qed.

Lemma style_in_band (p : Q) :
  (0 <= p)%Q -> (p < 101 # 100)%Q ->
  exists band, In band RISK_BANDS /\ in_band p band /\
               fst (style_fn (Some p)) = band_color band /\
               forall other, In other RISK_BANDS -> in_band p other -> other = band.
Proof.
  intros L H. unfold style_fn. cbn [fillna].
  destruct (Qle_bool (7 # 10) p) eqn:E7;
    [|destruct (Qle_bool (4 # 10) p) eqn:E4; [|destruct (Qle_bool (2 # 10) p) eqn:E2]];
    rewrite ?Qle_bool_iff, ?Qle_bool_false in *.
  - exists (7 # 10, 101 # 100, "#d73027", "Very high (70%+)")%string.
    split; [cbn; tauto|]. split; [split; assumption|]. split; [reflexivity|].
    intros other I [A B]. cbn [RISK_BANDS In] in I.
    repeat (destruct I as [<-|I]; [cbn [fst snd] in A, B; try reflexivity; exfalso; lra|]).
    destruct I.
  - exists (4 # 10, 7 # 10, "#fc8d59", "High (40–70%)")%string.
    split; [cbn; tauto|]. split; [split; assumption|]. split; [reflexivity|].
    intros other I [A B]. cbn [RISK_BANDS In] in I.
    repeat (destruct I as [<-|I]; [cbn [fst snd] in A, B; try reflexivity; exfalso; lra|]).
    destruct I.
  - exists (2 # 10, 4 # 10, "#fee08b", "Medium (20–40%)")%string.
    split; [cbn; tauto|]. split; [split; assumption|]. split; [reflexivity|].
    intros other I [A B]. cbn [RISK_BANDS In] in I.
    repeat (destruct I as [<-|I]; [cbn [fst snd] in A, B; try reflexivity; exfalso; lra|]).
    destruct I.
  - exists (0%Q, 2 # 10, "#91cf60", "Low (0–20%)")%string.
    split; [cbn; tauto|]. split; [split; assumption|]. split; [reflexivity|].
    intros other I [A B]. cbn [RISK_BANDS In] in I.
    repeat (destruct I as [<-|I]; [cbn [fst snd] in A, B; try reflexivity; exfalso; lra|]).
    destruct I.
Qed.

Lemma style_weight_mono (p q : Q) :
  (p <= q)%Q -> snd (style_fn (Some p)) <= snd (style_fn (Some q)).
Proof.
  intros L. unfold style_fn. cbn [fillna].
  destruct (Qle_bool (7 # 10) p) eqn:P7, (Qle_bool (7 # 10) q) eqn:Q7;
    destruct (Qle_bool (4 # 10) p) eqn:P4, (Qle_bool (4 # 10) q) eqn:Q4;
    destruct (Qle_bool (2 # 10) p) eqn:P2, (Qle_bool (2 # 10) q) eqn:Q2;
    cbn [snd]; try lia;
    rewrite ?Qle_bool_iff, ?Qle_bool_false in *; exfalso; lra.
Qed.


End VizMore.

(** ** The column-sum helper, [src/features/build.py] *)

Module HelpersMore.
Import Frame Geo BuildHelpers HelperNotions.

Lemma safe_sum_rows df cols :
  _safe_sum df cols = map (fun r => cells_sum r (filter (has_column df) cols)) (rows df).
Proof.
  unfold _safe_sum, cells_sum. cbv zeta.
  destruct (filter (has_column df) cols); reflexivity.
Qed.

Lemma cells_sum_app r cols1 cols2 :
  (cells_sum r (cols1 ++ cols2) == cells_sum r cols1 + cells_sum r cols2)%Q.
Proof.
  unfold cells_sum. induction cols1 as [|c t IH]; cbn [app map fold_right].
  - lra.
  - rewrite IH. lra.
Qed.

Lemma cells_sum_perm r cols cols' :
  Permutation cols cols' -> (cells_sum r cols == cells_sum r cols')%Q.
Proof.
  unfold cells_sum. induction 1 as [|c l l' _ IH|c d l|l l' l'' _ IH1 _ IH2];
    cbn [map fold_right].
  - reflexivity.
  - now rewrite IH.
  - lra.
  - now rewrite IH1.
Qed.

Lemma filter_perm {T} (p : T -> bool) (l l' : list T) :
  Permutation l l' -> Permutation (filter p l) (filter p l').
Proof.
  induction 1 as [|c l l' _ IH|c d l|l l' l'' _ IH1 _ IH2]; cbn [filter].
  - constructor.
  - destruct (p c); [now constructor|exact IH].
  - destruct (p c), (p d); try reflexivity. apply perm_swap.
  - now transitivity (filter p l').
Qed.

Lemma Forall2_map_both {T U V} (R : U -> V -> Prop) (f : T -> U) (g : T -> V) (l : list T) :
  (forall a, In a l -> R (f a) (g a)) -> Forall2 R (map f l) (map g l).
Proof.
  induction l as [|a l IH]; intros H; cbn [map]; constructor.
  - apply H. now left.
  - apply IH. intros; apply H; now right.
Qed.


Example sample_safe_sum :
  _safe_sum sample_counts ["a"; "zzz"; "b"]%string = [(2 + ((1 # 2) + 0))%Q; (0 + (3 + 0))%Q] /\
  _safe_sum sample_counts ["zzz"]%string = [0%Q; 0%Q].
Proof. split; reflexivity. Qed.

End HelpersMore.
